(** * add_csharp_xml_docs: a shallow embedding of [scripts/add_csharp_xml_docs.py]

    The script walks the lines of a C# file, recognises type, method and
    property declarations with three regular expressions, and inserts or
    replaces the [///] documentation block above each of them.

    Conventions of the embedding.
    - Text is a [string]: the sequence of the UTF-8 bytes of the Python
      [str].  The Korean literals of the script are written as they are in
      the source.  Substring tests, concatenation and equality commute with
      the encoding.
    - Character classes ([\s], [\d], [\w] behind [\b], [str.isspace] behind
      [strip]/[split], [str.lower], the line boundaries of [splitlines]) are
      those of the ASCII range; bytes above 127 belong to none of them.
      Python's classes hold characters beyond ASCII as well (the decimal
      digits of other scripts in [\d], for one); the statement on the
      fragments of [split_identifier], which counts the letters and digits
      of a name, is made for names of ASCII characters.
    - The regular expressions are values of a small regex syntax [re], run
      by a backtracking matcher that follows the order in which Python's
      engine explores alternatives (leftmost alternative first, greedy
      repetition, captures of the successful path).
    - The [while] loop of [process_file] is a function on an explicit state
      (buffer, cursor, enclosing type, changed flag) driven by fuel; the
      buffer length is shown to be enough fuel.
    - [process_file] takes the [str] that [read_text] returned at line
      244, where CR LF and a lone CR of the file are LF already; the
      statements about the lines of a file go through [universal_newlines].
    - [main] runs on a file system written as the list of its files: each
      path with the text its bytes decode to, if they are UTF-8, and with
      what opening it for reading and for writing raises, if anything.
      Reading translates the line endings, writing puts those of the
      platform.  The list of paths that [rglob] and [is_file] answer with
      is an argument, and a path names its own file. *)

From Stdlib Require Import String Ascii List Bool Arith Lia DecimalString.
Import ListNotations.
Open Scope string_scope.
Open Scope list_scope.

Set Implicit Arguments.

(** ** Characters *)

Module Char.

Definition code (c : ascii) : nat := nat_of_ascii c.

Definition between (lo hi : nat) (c : ascii) : bool :=
  ((lo <=? code c)%nat && (code c <=? hi)%nat)%bool.

(** [str.isspace] and the regex class [\s] on the ASCII range:
    TAB, LF, VT, FF, CR, FS, GS, RS, US and space. *)
Definition is_space (c : ascii) : bool :=
  between 9 13 c || between 28 32 c.

Definition is_upper (c : ascii) : bool := between 65 90 c.
Definition is_lower (c : ascii) : bool := between 97 122 c.
Definition is_digit (c : ascii) : bool := between 48 57 c.
Definition is_alpha (c : ascii) : bool := is_upper c || is_lower c.
Definition is_alnum (c : ascii) : bool := is_alpha c || is_digit c.

(** The regex class [\w]. *)
Definition is_word (c : ascii) : bool := is_alnum c || Ascii.eqb c "_".

(** [str.lower] on one character. *)
Definition lower (c : ascii) : ascii :=
  if is_upper c then ascii_of_nat (code c + 32) else c.

(** The line boundaries of [str.splitlines]: LF, VT, FF, CR, FS, GS, RS
    (CR LF counts as one boundary, see [splitlines]). *)
Definition is_linebreak (c : ascii) : bool :=
  between 10 13 c || between 28 30 c.

Definition LF : ascii := ascii_of_nat 10.
Definition CR : ascii := ascii_of_nat 13.

End Char.

(** ** Python string operations *)

Module Str.

Definition nl : string := String Char.LF EmptyString.

(** The double quote, as a one-character text. *)
Definition dquote : string := String (ascii_of_nat 34) EmptyString.

Fixpoint startswith (p s : string) : bool :=
  match p, s with
  | EmptyString, _ => true
  | String a p', String b s' => Ascii.eqb a b && startswith p' s'
  | String _ _, EmptyString => false
  end.

Fixpoint rev_acc (s acc : string) : string :=
  match s with
  | EmptyString => acc
  | String c s' => rev_acc s' (String c acc)
  end.

Definition rev (s : string) : string := rev_acc s EmptyString.

Definition endswith (p s : string) : bool := startswith (rev p) (rev s).

(** [p in s] *)
Fixpoint contains (p s : string) : bool :=
  startswith p s ||
  match s with
  | EmptyString => false
  | String _ s' => contains p s'
  end.

Fixpoint mem_char (c : ascii) (s : string) : bool :=
  match s with
  | EmptyString => false
  | String d s' => Ascii.eqb c d || mem_char c s'
  end.

Fixpoint lstrip (s : string) : string :=
  match s with
  | String c s' => if Char.is_space c then lstrip s' else s
  | EmptyString => EmptyString
  end.

Definition rstrip (s : string) : string := rev (lstrip (rev s)).

Definition strip (s : string) : string := rstrip (lstrip s).

Fixpoint lower (s : string) : string :=
  match s with
  | EmptyString => EmptyString
  | String c s' => String (Char.lower c) (lower s')
  end.

Fixpoint filter (f : ascii -> bool) (s : string) : string :=
  match s with
  | EmptyString => EmptyString
  | String c s' => if f c then String c (filter f s') else filter f s'
  end.

Fixpoint forallb (f : ascii -> bool) (s : string) : bool :=
  match s with
  | EmptyString => true
  | String c s' => f c && forallb f s'
  end.

(** [sep.join(parts)] *)
Fixpoint join (sep : string) (parts : list string) : string :=
  match parts with
  | [] => EmptyString
  | [p] => p
  | p :: ps => p ++ sep ++ join sep ps
  end.

(** [''.join(parts)] *)
Fixpoint cat (parts : list string) : string :=
  match parts with
  | [] => EmptyString
  | p :: ps => p ++ cat ps
  end.

(** [s.split(c)] for a one-character separator: the pieces between the
    separators, empty pieces included; never the empty list. *)
Fixpoint split_on (c : ascii) (s : string) : list string :=
  match s with
  | EmptyString => [EmptyString]
  | String d s' =>
      if Ascii.eqb d c then EmptyString :: split_on c s'
      else match split_on c s' with
           | p :: ps => String d p :: ps
           | [] => [String d EmptyString]
           end
  end.

(** [s.split()]: the maximal runs of non-whitespace characters. *)
Fixpoint split_ws (s : string) : list string :=
  match s with
  | EmptyString => []
  | String c s' =>
      if Char.is_space c then split_ws s'
      else match s' with
           | EmptyString => [String c EmptyString]
           | String d _ =>
               if Char.is_space d then String c EmptyString :: split_ws s'
               else match split_ws s' with
                    | w :: ws => String c w :: ws
                    | [] => [String c EmptyString]
                    end
           end
  end.

(** [s.splitlines(keepends=True)]: every line keeps its boundary; a CR
    directly followed by LF is one boundary. *)
Fixpoint splitlines (s : string) : list string :=
  match s with
  | EmptyString => []
  | String c s' =>
      if Char.is_linebreak c then
        match s' with
        | String d s'' =>
            if Ascii.eqb c Char.CR && Ascii.eqb d Char.LF
            then String c (String d EmptyString) :: splitlines s''
            else String c EmptyString :: splitlines s'
        | EmptyString => [String c EmptyString]
        end
      else match splitlines s' with
           | l :: ls => String c l :: ls
           | [] => [String c EmptyString]
           end
  end.

(** Truthiness of a string: non-empty. *)
Definition nonempty (s : string) : bool :=
  match s with EmptyString => false | _ => true end.

End Str.

(** ** Regular expressions

    The fragment of Python's [re] syntax that the script uses, and a
    backtracking matcher for it. *)

Module Re.

Inductive re : Type :=
| Eps                          (* the empty pattern *)
| Cls (p : ascii -> bool)      (* one character of a class *)
| Seq (a b : re)               (* ab *)
| Alt (a b : re)               (* a|b, a tried first *)
| Star (a : re)                (* a*, greedy *)
| Grp (n : nat) (a : re)       (* capturing group number n *)
| NotAhead (a : re)            (* (?!a) *)
| Bol                          (* ^ *)
| Eol                          (* $ without MULTILINE *)
| WordB.                       (* \b *)

Definition Plus (a : re) : re := Seq a (Star a).      (* a+ *)
Definition Opt (a : re) : re := Alt a Eps.            (* a?, greedy *)
Definition Chr (c : ascii) : re := Cls (Ascii.eqb c).

Fixpoint Lit (s : string) : re :=
  match s with
  | EmptyString => Eps
  | String c EmptyString => Chr c
  | String c s' => Seq (Chr c) (Lit s')
  end.

Fixpoint Alts (l : list re) : re :=
  match l with
  | [] => Eps
  | [a] => a
  | a :: l' => Alt a (Alts l')
  end.

Fixpoint Seqs (l : list re) : re :=
  match l with
  | [] => Eps
  | [a] => a
  | a :: l' => Seq a (Seqs l')
  end.

(** The groups captured so far: the text of group [n], if it took part. *)
Definition captures := list (nat * string).

Fixpoint group (n : nat) (c : captures) : option string :=
  match c with
  | [] => None
  | (m, s) :: c' => if Nat.eqb n m then Some s else group n c'
  end.

(** The first [n] characters of [s]. *)
Fixpoint take (n : nat) (s : string) : string :=
  match n, s with
  | S n', String c s' => String c (take n' s')
  | _, _ => EmptyString
  end.

(** The text between two positions, given as the remaining inputs. *)
Definition consumed (s s' : string) : string :=
  take (String.length s - String.length s') s.

(** A position in the subject is the character before it, if any, and the
    rest of the subject.  [\b] holds where exactly one side is a word
    character. *)
Definition at_wordb (prev : option ascii) (s : string) : bool :=
  let before := match prev with Some c => Char.is_word c | None => false end in
  let after := match s with String c _ => Char.is_word c | EmptyString => false end in
  xorb before after.

(** [$]: at the end of the subject, or right before a final line feed. *)
Definition at_eol (s : string) : bool :=
  match s with
  | EmptyString => true
  | String c EmptyString => Ascii.eqb c Char.LF
  | _ => false
  end.

Definition is_none {A} (o : option A) : bool :=
  match o with None => true | Some _ => false end.

(** [run r prev s caps k]: match [r] at the position [(prev, s)] and hand
    the position after it to the continuation [k]; when [k] fails, the
    next way of matching [r] is tried.  An iteration of [a*] has to
    consume (every repeated pattern of the script does), which bounds the
    iterations by the length of the subject. *)
Fixpoint run (R : Type) (r : re) (prev : option ascii) (s : string)
    (caps : captures)
    (k : option ascii -> string -> captures -> option R) {struct r} : option R :=
  match r with
  | Eps => k prev s caps
  | Cls p =>
      match s with
      | String c s' => if p c then k (Some c) s' caps else None
      | EmptyString => None
      end
  | Seq a b =>
      run a prev s caps (fun prev' s' caps' => run b prev' s' caps' k)
  | Alt a b =>
      match run a prev s caps k with
      | Some x => Some x
      | None => run b prev s caps k
      end
  | Star a =>
      (fix loop (n : nat) (prev : option ascii) (s : string) (caps : captures)
         {struct n} : option R :=
         match n with
         | 0 => k prev s caps
         | S n' =>
             match run a prev s caps
                     (fun prev' s' caps' =>
                        if (String.length s' <? String.length s)%nat
                        then loop n' prev' s' caps' else None) with
             | Some x => Some x
             | None => k prev s caps
             end
         end) (String.length s) prev s caps
  | Grp n a =>
      run a prev s caps
        (fun prev' s' caps' => k prev' s' ((n, consumed s s') :: caps'))
  | NotAhead a =>
      match run a prev s caps (fun _ _ _ => Some tt) with
      | Some _ => None
      | None => k prev s caps
      end
  | Bol => if is_none prev then k prev s caps else None
  | Eol => if at_eol s then k prev s caps else None
  | WordB => if at_wordb prev s then k prev s caps else None
  end.

(** [pattern.match(s)]: the rest of the subject after the match and the
    groups, or [None]. *)
Definition match_ (r : re) (s : string) : option (string * captures) :=
  run r None s [] (fun _ s' caps => Some (s', caps)).

(** One match attempt in the middle of a subject. *)
Definition match_at (r : re) (prev : option ascii) (s : string)
  : option (option ascii * string) :=
  run r prev s [] (fun prev' s' _ => Some (prev', s')).

(** [re.findall(r, s)] for a pattern without groups whose matches are
    never empty: the matched texts from left to right.  [fuel] bounds the
    number of scan steps; the length of the subject is enough. *)
Fixpoint findall_from (fuel : nat) (r : re) (prev : option ascii) (s : string)
  : list string :=
  match fuel with
  | 0 => []
  | S fuel' =>
      match s with
      | EmptyString => []
      | String c s' =>
          match match_at r prev s with
          | Some (prev', rest) =>
              if (String.length rest <? String.length s)%nat
              then consumed s rest :: findall_from fuel' r prev' rest
              else findall_from fuel' r (Some c) s'
          | None => findall_from fuel' r (Some c) s'
          end
      end
  end.

Definition findall (r : re) (s : string) : list string :=
  findall_from (String.length s) r None s.

(** [re.sub(r, "", s)] for a pattern whose matches are never empty. *)
Fixpoint remove_from (fuel : nat) (r : re) (prev : option ascii) (s : string)
  : string :=
  match fuel with
  | 0 => s
  | S fuel' =>
      match s with
      | EmptyString => EmptyString
      | String c s' =>
          match match_at r prev s with
          | Some (prev', rest) =>
              if (String.length rest <? String.length s)%nat
              then remove_from fuel' r prev' rest
              else String c (remove_from fuel' r (Some c) s')
          | None => String c (remove_from fuel' r (Some c) s')
          end
      end
  end.

Definition remove_all (r : re) (s : string) : string :=
  remove_from (String.length s) r None s.

End Re.

(** ** The script *)

Import Re.

(** What a call can come to: a value, Python's [IndexError], or the fuel
    of the embedding running out before the loop ends. *)
Inductive result (A : Type) : Type :=
| Ok (a : A)
| IndexError
| OutOfFuel.

Arguments Ok {A} a.
Arguments IndexError {A}.
Arguments OutOfFuel {A}.

Definition bind {A B} (r : result A) (f : A -> result B) : result B :=
  match r with
  | Ok a => f a
  | IndexError => IndexError
  | OutOfFuel => OutOfFuel
  end.

Notation "x <- r ;; k" := (bind r (fun x => k))
  (at level 61, r at next level, right associativity).

(** [lines[j]] *)
Definition getitem (lines : list string) (j : nat) : result string :=
  match nth_error lines j with
  | Some l => Ok l
  | None => IndexError
  end.

(** [x in (a, b, ...)] *)
Definition str_in (x : string) (l : list string) : bool :=
  existsb (String.eqb x) l.

(** *** The three line patterns *)

Definition ws : re := Cls Char.is_space.

Definition ident_start (c : ascii) : bool :=
  Char.is_alpha c || Ascii.eqb c "_".

(** [[A-Za-z0-9_]] *)
Definition ident_char (c : ascii) : bool :=
  Char.is_alnum c || Ascii.eqb c "_".

(** [[A-Za-z0-9_<>,\[\]\.\?]] *)
Definition type_char (c : ascii) : bool :=
  Char.is_alnum c || Str.mem_char c "_<>,[].?".

Definition not_char (c d : ascii) : bool := negb (Ascii.eqb c d).

(** [[A-Za-z_][A-Za-z0-9_]*] *)
Definition IDENT : re := Seq (Cls ident_start) (Star (Cls ident_char)).

(** [^\s*(public|internal)\s+] *)
Definition ACCESS : list re :=
  [Bol; Star ws; Grp 1 (Alt (Lit "public") (Lit "internal")); Plus ws].

Definition TYPE_PATTERN : re :=
  Seqs (ACCESS ++
        [Opt (Seq (Lit "static") (Plus ws));
         Opt (Seq (Lit "partial") (Plus ws));
         Grp 2 (Alts [Lit "class"; Lit "struct"; Lit "interface"; Lit "enum"]);
         Plus ws;
         Grp 3 IDENT;
         WordB])%list.

Definition METHOD_PATTERN : re :=
  Seqs (ACCESS ++
        [Star (Alts [Seq (Lit "static") (Plus ws);
                     Seq (Lit "virtual") (Plus ws);
                     Seq (Lit "override") (Plus ws);
                     Seq (Lit "sealed") (Plus ws);
                     Seq (Lit "async") (Plus ws);
                     Seq (Lit "new") (Plus ws)]);
         Grp 2 (Plus (Cls type_char));
         Plus ws;
         Grp 3 IDENT;
         Star ws;
         Chr "(";
         Grp 4 (Star (Cls (not_char ")")));
         Chr ")";
         Star ws;
         Alts [Chr "{"; Lit "=>"; Lit "where"; Eol]])%list.

Definition PROPERTY_PATTERN : re :=
  Seqs (ACCESS ++
        [Opt (Seq (Lit "static") (Plus ws));
         Grp 2 (Plus (Cls type_char));
         Plus ws;
         Grp 3 IDENT;
         Star ws;
         Chr "{";
         Star (Cls (not_char Char.LF))])%list.

(** [m.group(n)] of a successful match; a group that took no part reads
    as the empty text (all groups read by the script take part). *)
Definition grp (n : nat) (m : string * captures) : string :=
  match group n (snd m) with
  | Some s => s
  | None => EmptyString
  end.

(** *** Comment Block Locator *)

(** [s.lstrip().startswith("///")] *)
Definition is_doc_line (s : string) : bool :=
  Str.startswith "///" (Str.lstrip s).

(** The test of line 29 on a line: blank, or opening with a bracket. *)
Definition is_skippable (s : string) : bool :=
  let st := Str.lstrip s in
  String.eqb (Str.strip st) "" ||
  (Str.startswith "[" st && negb (Str.startswith "///" st)).

(** The inner loop of lines 26-27: move [start] up while the line above
    is a [///] line.  The line above is always inside the buffer here. *)
Fixpoint block_start (lines : list string) (start : nat) : nat :=
  match start with
  | 0 => 0
  | S above =>
      match nth_error lines above with
      | Some l => if is_doc_line l then block_start lines above else start
      | None => start
      end
  end.

(** The outer loop of lines 19-32, with [j1 = j + 1]. *)
Fixpoint scan_up (lines : list string) (j1 : nat)
  : result (option (nat * nat)) :=
  match j1 with
  | 0 => Ok None
  | S j =>
      s <- getitem lines j ;;
      if is_doc_line s then Ok (Some (block_start lines j, j))
      else if is_skippable s then scan_up lines j
      else Ok None
  end.

Definition find_preceding_xml_block (lines : list string) (idx : nat)
  : result (option (nat * nat)) :=
  scan_up lines idx.

(** *** Block Builder *)

Definition build_summary_block (summary_text : string) : list string :=
  [ ("/// <summary>" ++ Str.nl)%string;
    ("/// " ++ summary_text ++ Str.nl)%string;
    ("/// </summary>" ++ Str.nl)%string ].

(** *** Tokenizer and Phrase Renderer *)

(** [[A-Z]?[a-z]+|[A-Z]+(?![a-z])|\d+], with [\d] read as [[0-9]]: the
    two agree on every name of ASCII characters, and [process_file] passes
    the names that group 3 of its patterns captured,
    [[A-Za-z_][A-Za-z0-9_]*].  On a name with a decimal digit of another
    script Python's [\d+] gives one more fragment. *)
Definition IDENT_PART : re :=
  Alts [Seq (Opt (Cls Char.is_upper)) (Plus (Cls Char.is_lower));
        Seq (Plus (Cls Char.is_upper)) (NotAhead (Cls Char.is_lower));
        Plus (Cls Char.is_digit)].

Definition split_identifier (name : string) : list string :=
  List.filter Str.nonempty (findall IDENT_PART name).

Definition to_korean_noun (tokens : list string) : string :=
  Str.join " " tokens.

(** *** Heuristic Classifier *)

Definition guess_summary_for_member (name kind file_text : string)
    (return_type decl_kind : option string) : string :=
  let tokens := split_identifier name in
  let lower := Str.lower name in
  let starts := fun p => Str.startswith p lower in
  let object_ := to_korean_noun (tl tokens) in
  let is_converter :=
    str_in name ["Convert"; "ConvertBack"] &&
    (Str.contains "IValueConverter" file_text ||
     Str.contains "System.Windows.Data" file_text) in
  let converter_text :=
    if String.eqb name "Convert" then "값을 변환합니다."
    else "대상 값을 원본으로 변환합니다." in
  if String.eqb kind "type" then
    if match decl_kind with Some d => String.eqb d "interface" | None => false end then
      if Str.startswith "I" name && (1 <? List.length tokens)%nat
      then to_korean_noun (tl tokens) ++ " 인터페이스를 정의합니다."
      else "인터페이스를 정의합니다."
    else if match decl_kind with Some d => String.eqb d "enum" | None => false end then
      "열거형을 정의합니다."
    else if Str.contains "Converters" file_text ||
            Str.contains "IValueConverter" file_text then
      "값 변환기를 제공합니다."
    else if Str.contains "Helpers" file_text then
      "유틸리티 메서드를 제공합니다."
    else if Str.endswith "Attribute" name then
      "사용자 지정 특성을 정의합니다."
    else if Str.endswith "Extensions" name || Str.endswith "Ext" name then
      "확장 메서드를 제공합니다."
    else to_korean_noun tokens ++ "를(을) 제공합니다."
  else if starts "get" then
    if (1 <? List.length tokens)%nat
    then object_ ++ "를(을) 가져옵니다." else "값을 가져옵니다."
  else if starts "set" then
    if (1 <? List.length tokens)%nat
    then object_ ++ "를(을) 설정합니다." else "값을 설정합니다."
  else if starts "add" then object_ ++ "를(을) 추가합니다."
  else if starts "remove" then object_ ++ "를(을) 제거합니다."
  else if starts "update" then object_ ++ "를(을) 업데이트합니다."
  else if starts "create" || starts "build" then object_ ++ "를(을) 생성합니다."
  else if starts "delete" then object_ ++ "를(을) 삭제합니다."
  else if starts "find" || starts "search" then object_ ++ "를(을) 찾습니다."
  else if starts "load" then object_ ++ "를(을) 로드합니다."
  else if starts "save" then object_ ++ "를(을) 저장합니다."
  else if starts "parse" then object_ ++ "를(을) 구문 분석합니다."
  else if is_converter then converter_text
  else if starts "to" || starts "convert" then object_ ++ "로 변환합니다."
  else if starts "try" then object_ ++ "를(을) 시도하고, 성공 여부를 반환합니다."
  else if starts "is" then object_ ++ "인지 여부를 확인합니다."
  else if starts "has" then object_ ++ "를(을) 보유하는지 여부를 확인합니다."
  else if is_converter then converter_text
  else if String.eqb name "Contains" then "포함 여부를 확인합니다."
  else if String.eqb name "StartsWith" then "시작 여부를 확인합니다."
  else if String.eqb name "EndsWith" then "끝나는지 여부를 확인합니다."
  else if String.eqb kind "property" then
    to_korean_noun tokens ++ "를(을) 가져오거나 설정합니다."
  else "동작을 수행합니다.".

(** [mapping.get(key, default)] on a dict written as its items. *)
Fixpoint dict_get {V : Type} (k : string) (d : list (string * V)) : option V :=
  match d with
  | [] => None
  | (k', v) :: d' => if String.eqb k k' then Some v else dict_get k d'
  end.

(** Falsiness of a dict: no items. *)
Definition dict_empty {V : Type} (d : list (string * V)) : bool :=
  match d with [] => true | _ => false end.

Definition param_mapping : list (string * string) :=
  [ ("value", "입력 값");
    ("targettype", "대상 형식");
    ("param", "매개 변수");
    ("parameter", "매개 변수");
    ("culture", "문화권 정보");
    ("target", "대상");
    ("type", "형식");
    ("name", "이름");
    ("collection", "컬렉션");
    ("items", "항목들");
    ("str", "문자열");
    ("color", "색");
    ("attr", "특성");
    ("actual", "실제값");
    ("expect", "기대값");
    ("op", "연산자");
    ("obj", "대상") ].

Definition param_korean_desc (name : string) : string :=
  let key := Str.lower name in
  match dict_get key param_mapping with
  | Some v => v
  | None => "매개 변수"
  end.

Definition return_korean_desc_by_name (summary_text : string) : string :=
  if Str.contains "여부" summary_text then
    if Str.contains "성공" summary_text
    then "성공하면 true를 반환합니다."
    else "조건을 만족하면 true를 반환합니다."
  else if Str.contains "변환" summary_text then "변환 결과를 반환합니다."
  else if Str.contains "가져옵니다" summary_text ||
          Str.contains "찾습니다" summary_text ||
          Str.contains "생성합니다" summary_text
  then "결과를 반환합니다."
  else "결과를 반환합니다.".

(** *** Block Builder, continued *)

(** [\[[^\]]*\]] *)
Definition ATTRIBUTE : re :=
  Seqs [Chr "["; Star (Cls (not_char "]")); Chr "]"].

Definition param_modifiers : list string :=
  ["ref"; "out"; "in"; "params"; "this"].

(** The body of the loop of lines 47-66 for one parameter text [p]: the
    line it contributes, if any. *)
Definition param_line (param_overrides : option (list (string * string)))
    (p : string) : option string :=
  if negb (Str.nonempty p) then None
  else
    let raw := Str.strip (remove_all ATTRIBUTE p) in
    let left := Str.strip (hd EmptyString (Str.split_on "=" raw)) in
    let parts :=
      List.filter (fun part => negb (str_in part param_modifiers))
                  (Str.split_ws left) in
    match parts with
    | [] => None
    | _ =>
        let last := Str.strip (List.last parts EmptyString) in
        let desc :=
          match param_overrides with
          | Some d =>
              if negb (dict_empty d) then
                match dict_get last d with
                | Some v => v
                | None => param_korean_desc last
                end
              else param_korean_desc last
          | None => param_korean_desc last
          end in
        Some ("/// <param name=" ++ Str.dquote ++ last ++ Str.dquote ++ ">"
              ++ desc ++ "</param>" ++ Str.nl)%string
    end.

(** [a or b] where [a] may be [None] or a text and [b] is a text: [a]
    when it is present and non-empty, else [b]. *)
Definition py_or (a : option string) (b : string) : string :=
  match a with
  | Some s => if Str.nonempty s then s else b
  | None => b
  end.

Definition build_method_block (summary_text return_type params : string)
    (return_hint : option string)
    (param_overrides : option (list (string * string)))
    (returns_override : option string) : list string :=
  let block := build_summary_block summary_text in
  let params :=
    if Str.nonempty (Str.strip params)
    then List.map Str.strip (Str.split_on "," params) else [] in
  let block :=
    fold_left
      (fun block p =>
         match param_line param_overrides p with
         | Some l => (block ++ [l])%list
         | None => block
         end)
      params block in
  if Str.nonempty return_type && negb (String.eqb return_type "void") then
    let ret_desc :=
      py_or returns_override
        (py_or return_hint (return_korean_desc_by_name summary_text)) in
    (block ++ [("/// <returns>" ++ ret_desc ++ "</returns>" ++ Str.nl)%string])%list
  else block.

(** *** Override Resolver *)

(** One entry of [DOC_OVERRIDES]: a dict with the optional keys
    ["summary"], ["params"] and ["returns"]. *)
Record override : Type := {
  ov_summary : option string;
  ov_params : option (list (string * string));
  ov_returns : option string
}.

(** Truthiness of an entry: a dict with at least one key. *)
Definition override_truthy (o : override) : bool :=
  negb (is_none (ov_summary o) && is_none (ov_params o) && is_none (ov_returns o)).

Definition DOC_OVERRIDES
  : list (string * list (string * list (string * override))) :=
  [ ("Helpers/CollectionHelper.cs",
     [ ("method",
        [ ("AddRange",
           {| ov_summary := Some "지정한 항목들을 컬렉션에 순차적으로 추가합니다.";
              ov_params := Some [ ("collection", "대상 컬렉션");
                                  ("items", "추가할 항목 시퀀스") ];
              ov_returns := None |}) ]) ]);
    ("Helpers/ColorHelper.cs",
     [ ("method",
        [ ("GetColorName",
           {| ov_summary := Some "입력 색상과 일치하는 미리 정의된 색상 이름을 반환합니다. 없으면 색상 문자열을 반환합니다.";
              ov_params := Some [ ("color", "색상 값") ];
              ov_returns := Some "색상 이름 또는 색상 문자열" |});
          ("ToColor",
           {| ov_summary := Some "문자열 표현을 Color로 변환합니다. 실패 시 기본 색을 반환합니다.";
              ov_params := Some [ ("str", "색상 문자열");
                                  ("defaultColor", "파싱 실패 시 반환할 기본 색") ];
              ov_returns := Some "변환된 색상 값" |});
          ("TryConvertColor",
           {| ov_summary := Some "문자열을 Color로 변환을 시도합니다.";
              ov_params := Some [ ("str", "색상 문자열");
                                  ("color", "변환 성공 시 결과 색상") ];
              ov_returns := Some "성공하면 true, 실패하면 false" |}) ]) ]);
    ("Helpers/DataTableHelper.cs",
     [ ("method",
        [ ("ToList",
           {| ov_summary := Some "컬렉션의 항목을 목록(List)으로 변환합니다.";
              ov_params := None;
              ov_returns := None |}) ]) ]) ].

(** [table[file][kind][member]] when all three keys are present. *)
Definition lookup3 (spec : list (string * list (string * override)))
    (kind member_name : string) : option override :=
  match dict_get kind spec with
  | Some members => dict_get member_name members
  | None => None
  end.

(** The loop of lines 237-239 over the items of the table. *)
Fixpoint match_suffix (table : list (string * list (string * list (string * override))))
    (fname kind member_name : string) : option override :=
  match table with
  | [] => None
  | (key, spec) :: table' =>
      match (if Str.endswith fname key then lookup3 spec kind member_name else None) with
      | Some o => Some o
      | None => match_suffix table' fname kind member_name
      end
  end.

(** A path is the text of its [as_posix()], a normalised POSIX path;
    these are its [path.parts] and [path.name]. *)
Definition path_segments (path : string) : list string :=
  List.filter (fun seg => Str.nonempty seg && negb (String.eqb seg "."))
              (Str.split_on "/" path).

Definition path_parts (path : string) : list string :=
  ((if Str.startswith "/" path then ["/"] else []) ++ path_segments path)%list.

Definition path_name (path : string) : string :=
  List.last (path_segments path) EmptyString.

(** [l[-2:]] *)
Definition last_two {A} (l : list A) : list A :=
  skipn (List.length l - 2) l.

Definition match_override (path member_name kind : string) : option override :=
  let rel :=
    if (2 <=? List.length (path_parts path))%nat
    then Str.join "/" (last_two (Str.split_on "/" path))
    else path in
  match
    (match dict_get rel DOC_OVERRIDES with
     | Some spec => lookup3 spec kind member_name
     | None => None
     end)
  with
  | Some o => Some o
  | None =>
      let fname := path_name path in
      match
        (match dict_get fname DOC_OVERRIDES with
         | Some spec => lookup3 spec kind member_name
         | None => None
         end)
      with
      | Some o => Some o
      | None => match_suffix DOC_OVERRIDES fname kind member_name
      end
  end.

(** *** Reconciliation Driver *)

(** The variables of [process_file] that live across iterations. *)
Record state : Type := mkState {
  lines : list string;
  i : nat;
  current_type : option string;
  changed : bool
}.

(** [lines[start:end+1]] *)
Definition slice (lines : list string) (start end_ : nat) : list string :=
  firstn (S end_ - start) (skipn start lines).

(** [del lines[start:end+1]] *)
Definition delete_span (lines : list string) (start end_ : nat) : list string :=
  (firstn start lines ++ skipn (Nat.max start (S end_)) lines)%list.

(** [lines[p:p] = block] *)
Definition insert_at (lines : list string) (p : nat) (block : list string)
  : list string :=
  (firstn p lines ++ block ++ skipn p lines)%list.

(** The placeholder test of lines 263, 308 and 334. *)
Definition is_placeholder (block_text : string) : bool :=
  Str.contains "<summary>" block_text && Str.contains "/// 설명" block_text.

(** Lines 265-269 (and 313-317, 335-339): drop the old block, put the new
    one right above the declaration, leave the cursor on the declaration.
    The locator returns [start <= end < i], so [i - (end - start + 1)] is
    never negative. *)
Definition replace_block (st : state) (start end_ : nat) (block : list string)
  : state :=
  let lines1 := delete_span (lines st) start end_ in
  let p := i st - (end_ - start + 1) in
  {| lines := insert_at lines1 p block;
     i := p + List.length block;
     current_type := current_type st;
     changed := true |}.

(** Lines 271-274 (and 319-322, 341-344). *)
Definition insert_block (st : state) (block : list string) : state :=
  {| lines := insert_at (lines st) (i st) block;
     i := i st + List.length block;
     current_type := current_type st;
     changed := true |}.

(** [i += 1] *)
Definition advance (st : state) : state :=
  {| lines := lines st; i := S (i st);
     current_type := current_type st; changed := changed st |}.

Definition set_current_type (st : state) (t : string) : state :=
  {| lines := lines st; i := i st;
     current_type := Some t; changed := changed st |}.

(** Lines 254-276: the line matched [TYPE_PATTERN] with match [m]. *)
Definition on_type (text : string) (st : state) (m : string * captures)
  : result state :=
  let st := set_current_type st (grp 3 m) in
  block_pos <- find_preceding_xml_block (lines st) (i st) ;;
  let summary :=
    guess_summary_for_member (grp 3 m) "type" text None (Some (grp 2 m)) in
  Ok (advance
    match block_pos with
    | Some (start, end_) =>
        let block_text := Str.cat (slice (lines st) start end_) in
        if is_placeholder block_text || String.eqb (grp 2 m) "interface"
        then replace_block st start end_ (build_summary_block summary)
        else st
    | None => insert_block st (build_summary_block summary)
    end).

(** Lines 278-324: the line matched [METHOD_PATTERN] with match [m]. *)
Definition on_method (path text : string) (st : state) (m : string * captures)
  : result state :=
  let ret := grp 2 m in
  let name := grp 3 m in
  let params := grp 4 m in
  let is_ctor :=
    match current_type st with
    | Some t => String.eqb name t
    | None => false
    end in
  let ret_for_doc := if is_ctor then "void" else ret in
  block_pos <- find_preceding_xml_block (lines st) (i st) ;;
  let override := match_override path name "method" in
  let guessed :=
    guess_summary_for_member name "method" text (Some ret_for_doc) None in
  let '(has_override, summary, param_over, returns_over) :=
    match override with
    | Some o =>
        if override_truthy o
        then (true, py_or (ov_summary o) guessed, ov_params o, ov_returns o)
        else (false, guessed, None, None)
    | None => (false, guessed, None, None)
    end in
  let return_hint :=
    if Str.startswith "Try" name
       || str_in name ["Contains"; "StartsWith"; "EndsWith"]
       || Str.startswith "Is" name
       || Str.startswith "Has" name
    then Some "조건을 만족하면 true를 반환합니다."
    else None in
  let block :=
    build_method_block summary ret_for_doc params return_hint
      param_over returns_over in
  Ok (advance
    match block_pos with
    | Some (start, end_) =>
        let block_text := Str.cat (slice (lines st) start end_) in
        let replace :=
          has_override
          || is_placeholder block_text
          || (str_in name ["Convert"; "ConvertBack"]
              && (Str.contains "로 변환합니다." block_text
                  || Str.contains "Back로 변환합니다." block_text)) in
        if replace then replace_block st start end_ block else st
    | None => insert_block st block
    end).

(** Lines 326-346: the line matched [PROPERTY_PATTERN] with match [m] and
    holds no parenthesis. *)
Definition on_property (text : string) (st : state) (m : string * captures)
  : result state :=
  block_pos <- find_preceding_xml_block (lines st) (i st) ;;
  let name := grp 3 m in
  let summary := guess_summary_for_member name "property" text None None in
  Ok (advance
    match block_pos with
    | Some (start, end_) =>
        let block_text := Str.cat (slice (lines st) start end_) in
        if is_placeholder block_text
        then replace_block st start end_ (build_summary_block summary)
        else st
    | None => insert_block st (build_summary_block summary)
    end).

(** The body of the [while] loop, lines 251-348. *)
Definition process_line (path text : string) (st : state) : result state :=
  line <- getitem (lines st) (i st) ;;
  match match_ TYPE_PATTERN line with
  | Some m => on_type text st m
  | None =>
      match match_ METHOD_PATTERN line with
      | Some m => on_method path text st m
      | None =>
          match match_ PROPERTY_PATTERN line with
          | Some m =>
              if negb (Str.mem_char "(" line) then on_property text st m
              else Ok (advance st)
          | None => Ok (advance st)
          end
      end
  end.

(** The [while] loop of lines 250-348. *)
Fixpoint process_loop (fuel : nat) (path text : string) (st : state)
  : result state :=
  if (i st <? List.length (lines st))%nat then
    match fuel with
    | 0 => OutOfFuel
    | S fuel' =>
        st' <- process_line path text st ;;
        process_loop fuel' path text st'
    end
  else Ok st.

(** The state at line 249.  [text] is the [str] that line 244 read: the
    content of the file as [read_text] returns it, see [universal_newlines]
    below. *)
Definition initial (text : string) : state :=
  {| lines := Str.splitlines text; i := 0;
     current_type := None; changed := false |}.

(** Lines 245-348 and 352 of [process_file(path)], for the [text] that
    line 244 read: the returned flag and the final buffer. *)
Definition process_file (path text : string) : result (bool * list string) :=
  st <- process_loop (List.length (Str.splitlines text)) path text (initial text) ;;
  Ok (changed st, lines st).

(** What line 351 passes to [write_text] when the flag is raised, and
    [text] itself when it is not: the text that the next [read_text] of
    the file returns, as long as [text] came from [read_text]. *)
Definition file_after (path text : string) : result string :=
  r <- process_file path text ;;
  Ok (if fst r then Str.cat (snd r) else text).

(** *** Files *)

(** [Path.read_text] opens the file in text mode with universal newlines:
    of the decoded content, CR LF and a lone CR are read as LF. *)
Fixpoint universal_newlines (s : string) : string :=
  match s with
  | EmptyString => EmptyString
  | String c s' =>
      if Ascii.eqb c Char.CR then
        match s' with
        | String d s'' =>
            if Ascii.eqb d Char.LF
            then String Char.LF (universal_newlines s'')
            else String Char.LF (universal_newlines s')
        | EmptyString => String Char.LF EmptyString
        end
      else String c (universal_newlines s')
  end.

(** [os.linesep] of the two kinds of platform. *)
Inductive platform : Type := Posix | Windows.

Definition linesep (pf : platform) : string :=
  match pf with
  | Posix => Str.nl
  | Windows => String Char.CR Str.nl
  end.

(** [Path.write_text] opens the file in text mode too: every LF is written
    as [os.linesep]. *)
Fixpoint os_newlines (pf : platform) (s : string) : string :=
  match s with
  | EmptyString => EmptyString
  | String c s' =>
      if Ascii.eqb c Char.LF then (linesep pf ++ os_newlines pf s')%string
      else String c (os_newlines pf s')
  end.

(** The exceptions of the two file accesses. *)
Inductive exception : Type :=
| FileNotFoundError
| PermissionError
| OSError
| UnicodeDecodeError.

(** One file: the text that its bytes decode to as UTF-8, [None] when they
    are no UTF-8; what opening it for reading raises, if it raises; what
    opening it for writing raises, if it raises. *)
Record file : Type := mkFile {
  content : option string;
  read_fault : option exception;
  write_fault : option exception
}.

(** The files of the tree, each under its path. *)
Definition files : Type := list (string * file).

(** The file system with [f] under [path], in place of the file that was
    there. *)
Fixpoint store (fs : files) (path : string) (f : file) : files :=
  match fs with
  | [] => [(path, f)]
  | (p, g) :: fs' =>
      if String.eqb path p then (p, f) :: fs'
      else (p, g) :: store fs' path f
  end.

(** What a run on the file system comes to: it returns, an access to the
    file [path] raises, or the scan of [process_file] fails. *)
Inductive outcome (A : Type) : Type :=
| Finished (a : A)
| Raised (e : exception) (path : string)
| ScanFailed (out_of_fuel : bool).

Arguments Finished {A} a.
Arguments Raised {A} e path.
Arguments ScanFailed {A} out_of_fuel.

(** [path.read_text(encoding="utf-8")], line 244: the file is opened, its
    bytes are decoded, the line endings are translated. *)
Definition read_text (fs : files) (path : string) : outcome string :=
  match dict_get path fs with
  | None => Raised FileNotFoundError path
  | Some f =>
      match read_fault f with
      | Some e => Raised e path
      | None =>
          match content f with
          | None => Raised UnicodeDecodeError path
          | Some c => Finished (universal_newlines c)
          end
      end
  end.

(** The file [f] once [s] was written to it. *)
Definition written (pf : platform) (f : file) (s : string) : file :=
  {| content := Some (os_newlines pf s);
     read_fault := read_fault f;
     write_fault := write_fault f |}.

(** [path.write_text(s, encoding="utf-8")], line 351: the file is opened
    for writing, created when it is not there, and holds [s] with the line
    endings of the platform afterwards; the other files stay. *)
Definition write_text (pf : platform) (fs : files) (path s : string)
  : outcome files :=
  match dict_get path fs with
  | Some f =>
      match write_fault f with
      | Some e => Raised e path
      | None => Finished (store fs path (written pf f s))
      end
  | None =>
      Finished (store fs path
                  {| content := Some (os_newlines pf s);
                     read_fault := None; write_fault := None |})
  end.

(** *** Entry point *)

(** [process_file(path)] with its two accesses to the file, lines 244 and
    350-352: the returned flag and the file system afterwards. *)
Definition process_file_in (pf : platform) (fs : files) (path : string)
  : outcome (bool * files) :=
  match read_text fs path with
  | Finished text =>
      match process_file path text with
      | Ok (changed, lines) =>
          if changed then
            match write_text pf fs path (Str.cat lines) with
            | Finished fs' => Finished (true, fs')
            | Raised e q => Raised e q
            | ScanFailed f => ScanFailed f
            end
          else Finished (false, fs)
      | IndexError => ScanFailed false
      | OutOfFuel => ScanFailed true
      end
  | Raised e q => Raised e q
  | ScanFailed f => ScanFailed f
  end.

Definition skip_suffixes : list string := [".designer.cs"; ".g.cs"; ".g.i.cs"].

(** [any(str(p).lower().endswith(s) for s in skip_suffixes)] *)
Definition is_skipped (p : string) : bool :=
  existsb (fun s => Str.endswith s (Str.lower p)) skip_suffixes.

(** The loop of lines 364-367 with its two counters. *)
Fixpoint main_loop (pf : platform) (cs_files : list string) (fs : files)
    (total changed : nat) : outcome (files * nat * nat) :=
  match cs_files with
  | [] => Finished (fs, total, changed)
  | p :: rest =>
      match process_file_in pf fs p with
      | Finished (flag, fs') =>
          main_loop pf rest fs' (S total) (if flag then S changed else changed)
      | Raised e q => Raised e q
      | ScanFailed f => ScanFailed f
      end
  end.

(** The decimal digits of a counter, as an f-string writes it. *)
Definition decimal (n : nat) : string := NilEmpty.string_of_uint (Nat.to_uint n).

(** The line that [print] writes. *)
Definition report (total changed : nat) : string :=
  ("Processed " ++ decimal total ++ " files, changed " ++ decimal changed
   ++ " files." ++ Str.nl)%string.

(** [main()], lines 355-368.  [found] is the list
    [[p for p in root.rglob("*.cs") if p.is_file()]] that the file system
    answers with, in its order; the list is complete before the first file
    is processed.  The result is the file system afterwards and the text
    written to the standard output. *)
Definition main (pf : platform) (found : list string) (fs : files)
  : outcome (files * string) :=
  let cs_files := List.filter (fun p => negb (is_skipped p)) found in
  match main_loop pf cs_files fs 0 0 with
  | Finished (fs', total, changed) => Finished (fs', report total changed)
  | Raised e q => Raised e q
  | ScanFailed f => ScanFailed f
  end.
(** * Vocabulary of the statements *)

Unset Implicit Arguments.

(** The member names that the override table documents. *)
Definition documented : list string :=
  ["AddRange"; "GetColorName"; "ToColor"; "TryConvertColor"; "ToList"].

(** Every entry of the table, whatever its file and kind. *)
Definition entries : list (string * override) :=
  flat_map (fun f => flat_map (fun k => snd k) (snd f)) DOC_OVERRIDES.

(** A text followed by a line feed. *)
Definition ln (s : string) : string := (s ++ Str.nl)%string.

(** The second line of a block: its summary text line. *)
Definition summary_line (block : list string) : string := nth 1 block EmptyString.

(** The three scenario files. *)
Definition get_user_count_file : string := ln "public int GetUserCount()".

Definition try_parse_file : string :=
  ln "public bool TryParse(string input, out int result)".

Definition widget_file : string :=
  (ln "public class Widget" ++ ln "{" ++ ln "    public Widget(int size)"
   ++ ln "    {" ++ ln "    }" ++ ln "}")%string.

(** The characters a pattern can consume: those of its classes outside
    lookaheads. *)
Fixpoint re_alphabet (r : re) (c : ascii) : bool :=
  match r with
  | Cls p => p c
  | Seq a b | Alt a b => re_alphabet a c || re_alphabet b c
  | Star a | Grp _ a => re_alphabet a c
  | Eps | NotAhead _ | Bol | Eol | WordB => false
  end.

(** Whether a pattern may match without consuming (an over-approximation). *)
Fixpoint re_nullable (r : re) : bool :=
  match r with
  | Cls _ => false
  | Seq a b => re_nullable a && re_nullable b
  | Alt a b => re_nullable a || re_nullable b
  | Grp _ a => re_nullable a
  | Eps | Star _ | NotAhead _ | Bol | Eol | WordB => true
  end.

(** A line the locator steps over: not a [///] line, and blank or opening
    with a bracket. *)
Definition is_stepped_over (s : string) : bool :=
  negb (is_doc_line s) && is_skippable s.

(** A blank line: nothing but whitespace. *)
Definition is_blank (s : string) : bool :=
  String.eqb (Str.strip (Str.lstrip s)) "".

(** The number of leading [///] lines of a list. *)
Fixpoint doc_run (r : list string) : nat :=
  match r with
  | l :: r' => if is_doc_line l then S (doc_run r') else 0
  | [] => 0
  end.

(** The locator on the lines above a declaration, nearest line first: the
    number of lines stepped over and the length of the block found. *)
Fixpoint locate (r : list string) : option (nat * nat) :=
  match r with
  | [] => None
  | l :: r' =>
      if is_doc_line l then Some (0, S (doc_run r'))
      else if is_skippable l then
        match locate r' with
        | Some (m, b) => Some (S m, b)
        | None => None
        end
      else None
  end.

(** The span that [locate] stands for, in a buffer with [n] lines above
    the declaration. *)
Definition span_of (n : nat) (found : option (nat * nat)) : option (nat * nat) :=
  match found with
  | Some (m, b) => Some (n - m - b, n - m - 1)
  | None => None
  end.

(** What a line is recognised as, with the match that recognised it: the
    dispatch of [process_line]. *)
Inductive decl : Type :=
| TypeDecl (m : string * captures)
| MethodDecl (m : string * captures)
| PropertyDecl (m : string * captures).

Definition classify (line : string) : option decl :=
  match match_ TYPE_PATTERN line with
  | Some m => Some (TypeDecl m)
  | None =>
      match match_ METHOD_PATTERN line with
      | Some m => Some (MethodDecl m)
      | None =>
          match match_ PROPERTY_PATTERN line with
          | Some m =>
              if negb (Str.mem_char "(" line) then Some (PropertyDecl m) else None
          | None => None
          end
      end
  end.

(** The override that [on_method] acts on: the resolved entry when it is
    truthy. *)
Definition method_override (path : string) (m : string * captures)
  : option override :=
  match match_override path (grp 3 m) "method" with
  | Some o => if override_truthy o then Some o else None
  | None => None
  end.

(** The block that [on_method] builds. *)
Definition method_block (path text : string) (ct : option string)
    (m : string * captures) : list string :=
  let name := grp 3 m in
  let is_ctor :=
    match ct with Some t => String.eqb name t | None => false end in
  let ret_for_doc := if is_ctor then "void" else grp 2 m in
  let guessed :=
    guess_summary_for_member name "method" text (Some ret_for_doc) None in
  let return_hint :=
    if Str.startswith "Try" name
       || str_in name ["Contains"; "StartsWith"; "EndsWith"]
       || Str.startswith "Is" name
       || Str.startswith "Has" name
    then Some "조건을 만족하면 true를 반환합니다."
    else None in
  match method_override path m with
  | Some o =>
      build_method_block (py_or (ov_summary o) guessed) ret_for_doc (grp 4 m)
        return_hint (ov_params o) (ov_returns o)
  | None =>
      build_method_block guessed ret_for_doc (grp 4 m) return_hint None None
  end.

(** The block built for a declaration. *)
Definition new_block (path text : string) (ct : option string) (d : decl)
  : list string :=
  match d with
  | TypeDecl m =>
      build_summary_block
        (guess_summary_for_member (grp 3 m) "type" text None (Some (grp 2 m)))
  | MethodDecl m => method_block path text ct m
  | PropertyDecl m =>
      build_summary_block
        (guess_summary_for_member (grp 3 m) "property" text None None)
  end.

(** The generic phrasing test of line 310. *)
Definition has_generic_conversion_phrase (block_text : string) : bool :=
  Str.contains "로 변환합니다." block_text
  || Str.contains "Back로 변환합니다." block_text.

(** The replace decision for a declaration whose preceding block reads
    [block_text]. *)
Definition wants_replace (path : string) (d : decl) (block_text : string) : bool :=
  match d with
  | TypeDecl m =>
      is_placeholder block_text || String.eqb (grp 2 m) "interface"
  | MethodDecl m =>
      negb (is_none (method_override path m))
      || is_placeholder block_text
      || (str_in (grp 3 m) ["Convert"; "ConvertBack"]
          && has_generic_conversion_phrase block_text)
  | PropertyDecl m => is_placeholder block_text
  end.

(** The enclosing type after a declaration. *)
Definition next_type (ct : option string) (d : decl) : option string :=
  match d with
  | TypeDecl m => Some (grp 3 m)
  | _ => ct
  end.

(** The lines above a declaration after it was processed, from the lines
    [above] it before: the block found is dropped and the new one put
    right above the declaration, or the new one is put there when none
    was found, or nothing moves. *)
Definition above_after (path text : string) (ct : option string) (d : decl)
    (above : list string) : list string :=
  let n := List.length above in
  match locate (rev above) with
  | Some (m, b) =>
      if wants_replace path d (Str.cat (firstn b (skipn (n - m - b) above)))
      then (firstn (n - m - b) above ++ skipn (n - m) above
            ++ new_block path text ct d)%list
      else above
  | None => (above ++ new_block path text ct d)%list
  end.

(** Whether processing a declaration splices the buffer. *)
Definition splices (path : string) (d : decl) (above : list string) : bool :=
  let n := List.length above in
  match locate (rev above) with
  | Some (m, b) => wants_replace path d (Str.cat (firstn b (skipn (n - m - b) above)))
  | None => true
  end.

(** The whole scan as a recursion on the lines still to visit, [done]
    being the lines above the cursor. *)
Fixpoint reconcile (path text : string) (ct : option string)
    (done todo : list string) : list string :=
  match todo with
  | [] => done
  | x :: todo' =>
      match classify x with
      | Some d =>
          reconcile path text (next_type ct d)
            (above_after path text ct d done ++ [x])%list todo'
      | None => reconcile path text ct (done ++ [x])%list todo'
      end
  end.

(** The scan by segments: [pending] holds the lines met since the last
    declaration; a declaration settles them for good. *)
Fixpoint segments (path text : string) (ct : option string)
    (pending todo : list string) : list string :=
  match todo with
  | [] => pending
  | x :: todo' =>
      match classify x with
      | Some d =>
          (above_after path text ct d pending
           ++ x :: segments path text (next_type ct d) [] todo')%list
      | None => segments path text ct (pending ++ [x])%list todo'
      end
  end.

(** A line at which the locator stops: neither a [///] line nor a line it
    steps over. *)
Definition is_barrier (s : string) : bool :=
  negb (is_doc_line s) && negb (is_skippable s).

(** The common head of the three patterns:
    [^\s*(public|internal)] and whatever follows. *)
Definition with_access (tail : re) : re :=
  Seq Bol (Seq (Star ws) (Seq (Grp 1 (Alt (Lit "public") (Lit "internal"))) tail)).

(** Lines that the locator cannot see through from below: it answers the
    same with or without them. *)
Definition opaque_above (P : list string) : Prop :=
  forall r, locate (r ++ rev P)%list = locate r.

(** The lines that the loop examines, one per iteration, in order. *)
Fixpoint visited (fuel : nat) (path text : string) (st : state) : list string :=
  if (i st <? List.length (lines st))%nat then
    match fuel with
    | 0 => []
    | S fuel' =>
        match getitem (lines st) (i st), process_line path text st with
        | Ok line, Ok st' => line :: visited fuel' path text st'
        | _, _ => []
        end
    end
  else [].

(** [edited original output]: [output] is [original] after, above some
    recognised declarations, either a new [///] block was put right above
    the declaration, or the [///] block found above it (through the lines
    the locator steps over) was dropped and a new [///] block put right
    above the declaration.  Every other line stays, in order. *)
Inductive edited : list string -> list string -> Prop :=
| edited_nil : edited [] []
| edited_keep x l l' :
    edited l l' -> edited (x :: l) (x :: l')
| edited_insert G x l l' :
    classify x <> None ->
    Forall (fun g => is_doc_line g = true) G ->
    edited l l' ->
    edited (x :: l) (G ++ x :: l')%list
| edited_replace B M G x l l' :
    classify x <> None ->
    Forall (fun b => is_doc_line b = true) B ->
    Forall (fun s => is_skippable s = true) M ->
    Forall (fun g => is_doc_line g = true) G ->
    edited l l' ->
    edited (B ++ M ++ x :: l)%list (M ++ G ++ x :: l')%list.

(** A buffer for the witnesses: an author-written block above a method,
    under an attribute. *)
Definition documented_count_buffer : list string :=
  [ ln "/// <summary>"; ln "/// Counts the items."; ln "/// </summary>";
    ln "[Pure]"; ln "public int Count()"; ln "public int Total { get; }" ].

(** The converter cue that the classifier reads in the file text. *)
Definition conv_cue (file_text : string) : bool :=
  Str.contains "IValueConverter" file_text
  || Str.contains "System.Windows.Data" file_text.

(** The four grounds on which lines 263 and 307-311 replace an existing
    block.  The fourth is the test of line 310: the name of the method and
    the phrase in the block, in whatever file. *)
Definition replace_reason (path : string) (d : decl) (block_text : string) : Prop :=
  is_placeholder block_text = true
  \/ (exists m o, d = MethodDecl m /\
                  match_override path (grp 3 m) "method" = Some o)
  \/ (exists m, d = TypeDecl m /\ grp 2 m = "interface")
  \/ (exists m, d = MethodDecl m /\
                (grp 3 m = "Convert" \/ grp 3 m = "ConvertBack") /\
                has_generic_conversion_phrase block_text = true).

(** The four grounds as the specification words them: the fourth asks
    for the conversion method of a value converter, a file with the
    converter cue that line 128 reads, on top of the name and the
    phrase. *)
Definition claimed_replace_reason (path text : string) (d : decl)
    (block_text : string) : Prop :=
  is_placeholder block_text = true
  \/ (exists m o, d = MethodDecl m /\
                  match_override path (grp 3 m) "method" = Some o)
  \/ (exists m, d = TypeDecl m /\ grp 2 m = "interface")
  \/ (exists m, d = MethodDecl m /\
                (grp 3 m = "Convert" \/ grp 3 m = "ConvertBack") /\
                conv_cue text = true /\
                has_generic_conversion_phrase block_text = true).

(** An author-written block above a method named Convert, in a file that
    is no value converter. *)
Definition parser_buffer : list string :=
  [ ln "/// <summary>"; ln "/// 문자열을 정수로 변환합니다."; ln "/// </summary>";
    ln "public static int Convert(string s)" ].

(** A buffer for the witnesses: an author-written block above a method
    that the override table documents. *)
Definition color_helper_buffer : list string :=
  [ ln "/// <summary>"; ln "/// Parses a color."; ln "/// </summary>";
    ln "public static Color ToColor(this string str, Color defaultColor)" ].

(** The declaration [d] under the enclosing type [ct] gets the same block
    from the texts [text] and [text'] whenever its own new block would be
    replaced. *)
Definition same_block (path text text' : string) (ct : option string) (d : decl)
  : Prop :=
  wants_replace path d (Str.cat (new_block path text ct d)) = true ->
  new_block path text' ct d = new_block path text ct d.

(** The characters of a rendered noun phrase: letters, digits, spaces. *)
Definition is_noun_char (c : ascii) : bool :=
  Char.is_alnum c || Ascii.eqb c " ".

(** A text with no line boundary inside. *)
Definition unbroken (s : string) : bool :=
  Str.forallb (fun c => negb (Char.is_linebreak c)) s.

(** What the summaries are checked for: no slash, no line boundary, and
    not opening with the placeholder word. *)
Definition plain_summary (s : string) : Prop :=
  Str.mem_char "/" s = false /\
  unbroken s = true /\
  forall rest, Str.startswith "설명" (s ++ rest) = false.

Definition is_converter_name (name : string) : bool :=
  str_in name ["Convert"; "ConvertBack"].

(** A line recognised as a method named Convert or ConvertBack. *)
Definition is_converter_method (line : string) : bool :=
  match classify line with
  | Some (MethodDecl m) => is_converter_name (grp 3 m)
  | _ => false
  end.

(** A line that ends with its one line boundary, LF, CR LF, VT, FF, FS,
    GS or RS, and has none before it. *)
Fixpoint terminated (l : string) : bool :=
  match l with
  | EmptyString => false
  | String c rest =>
      if Char.is_linebreak c then
        if Ascii.eqb c Char.CR then String.eqb rest Str.nl
        else String.eqb rest EmptyString
      else terminated rest
  end.

Definition is_nil {A} (l : list A) : bool :=
  match l with [] => true | _ => false end.

(** Parameter and return descriptions without line boundary. *)
Definition params_ok (po : option (list (string * string))) : Prop :=
  match po with
  | Some d => Forall (fun kv => unbroken (snd kv) = true) d
  | None => True
  end.

Definition text_ok (o : option string) : Prop :=
  match o with
  | Some s => unbroken s = true
  | None => True
  end.

(** A converter class with a placeholder block above it; the cue stays in
    the class line. *)
Definition converter_file : string :=
  (ln "/// <summary>" ++ ln "/// 설명" ++ ln "/// </summary>"
   ++ ln "public class BoolConverter : IValueConverter" ++ ln "{"
   ++ ln "    public object Convert(object value)"
   ++ ln "    public object ConvertBack(object value)" ++ ln "}")%string.

(** A method named ConvertBack under a placeholder block that holds the
    only occurrence of the converter cue in the file. *)
Definition convert_back_file : string :=
  (ln "/// <summary>" ++ ln "/// 설명 IValueConverter" ++ ln "/// </summary>"
   ++ ln "public object ConvertBack(object value)")%string.

(** The continuations of the matcher. *)
Definition kont (R : Type) : Type :=
  option ascii -> string -> captures -> option R.

(** The loop of a repetition, with its fuel in sight. *)
Fixpoint star_loop (R : Type) (a : re)
    (k : option ascii -> string -> captures -> option R)
    (n : nat) (prev : option ascii) (s : string) (caps : captures) : option R :=
  match n with
  | 0 => k prev s caps
  | S n' =>
      match run a prev s caps
              (fun prev' s' caps' =>
                 if (String.length s' <? String.length s)%nat
                 then star_loop R a k n' prev' s' caps' else None) with
      | Some x => Some x
      | None => k prev s caps
      end
  end.

Arguments star_loop {R} a k n prev s caps.

(** A line that ends in a CR and holds no other CR and no LF. *)
Fixpoint ends_cr (u : string) : bool :=
  match u with
  | EmptyString => false
  | String c u' =>
      match u' with
      | EmptyString => Ascii.eqb c Char.CR
      | _ => negb (Ascii.eqb c Char.CR) && negb (Ascii.eqb c Char.LF) && ends_cr u'
      end
  end.

(** Two continuations, one for a subject that ends in a CR and one for the
    same subject with a LF after it, agree: inside the subject, at its
    end, and past the LF. *)
Definition agree_inside {R} (k k' : option ascii -> string -> captures -> option R)
  : Prop :=
  forall p u c, ends_cr u = true -> k' p (u ++ Str.nl)%string c = k p u c.

Definition agree_at_end {R} (k k' : option ascii -> string -> captures -> option R)
  : Prop :=
  forall c, k' (Some Char.CR) Str.nl c = k (Some Char.CR) EmptyString c.

Definition agree_past_end {R} (k k' : option ascii -> string -> captures -> option R)
  : Prop :=
  forall c, k' (Some Char.LF) EmptyString c = k (Some Char.CR) EmptyString c.

(** A continuation that fails at the end of the subject. *)
Definition fails_at_end {R} (k : option ascii -> string -> captures -> option R)
  : Prop :=
  forall c, k (Some Char.CR) EmptyString c = None.

Definition fails_at_ends {R} (k : option ascii -> string -> captures -> option R)
  : Prop :=
  forall c, k (Some Char.CR) Str.nl c = None /\
            k (Some Char.LF) EmptyString c = None.

(** A class without CR and LF. *)
Definition safe_cls (p : ascii -> bool) : bool :=
  negb (p Char.CR) && negb (p Char.LF).

(** A pattern that cannot match at the end of such a subject. *)
Fixpoint anchored (r : re) : bool :=
  match r with
  | Cls p => safe_cls p
  | Seq a b => anchored a || anchored b
  | Alt a b => anchored a && anchored b
  | Grp _ a => anchored a
  | Bol | WordB => true
  | Eps | Star _ | NotAhead _ | Eol => false
  end.

Fixpoint no_lookahead (r : re) : bool :=
  match r with
  | NotAhead _ => false
  | Seq a b | Alt a b => no_lookahead a && no_lookahead b
  | Star a | Grp _ a => no_lookahead a
  | Eps | Cls _ | Bol | Eol | WordB => true
  end.

(** A pattern whose matches at the end of the subject do not tell the two
    subjects apart. *)
Fixpoint tolerant (r : re) : bool :=
  match r with
  | Eps | Eol | Bol | WordB => true
  | Cls p => safe_cls p
  | Star (Cls _) => true
  | Seq a b | Alt a b => tolerant a && tolerant b
  | Star _ | Grp _ _ | NotAhead _ => false
  end.

(** A sequence whose every element is followed by an anchored rest, up to
    a tolerant tail. *)
Fixpoint insensitive (r : re) : bool :=
  tolerant r ||
  match r with
  | Seq a b => no_lookahead a && anchored b && insensitive b
  | _ => false
  end.

(** A line that ends in a bare CR, its one line boundary. *)
Fixpoint bare_cr (l : string) : bool :=
  match l with
  | EmptyString => false
  | String c rest =>
      if Char.is_linebreak c
      then Ascii.eqb c Char.CR && String.eqb rest EmptyString
      else bare_cr rest
  end.

(** A line as [splitlines] gives them: terminated, or ending in a bare CR. *)
Definition shaped (l : string) : bool := terminated l || bare_cr l.

(** A buffer of such lines; the last may instead be non-empty without
    boundary. *)
Fixpoint shaped_lines (ls : list string) : bool :=
  match ls with
  | [] => true
  | l :: ls' =>
      (shaped l && shaped_lines ls')
      || (is_nil ls' && Str.nonempty l && unbroken l)
  end.

(** What [splitlines] makes of a buffer put end to end: a line that ends
    in a bare CR and a line that is one LF come back as one line.  The
    texts that [read_text] returns hold no CR; the statements on
    [process_file] are made for every text, these among them. *)
Fixpoint merge (ls : list string) : list string :=
  match ls with
  | [] => []
  | a :: tl =>
      match tl with
      | [] => [a]
      | b :: rest =>
          if bare_cr a && String.eqb b Str.nl
          then (a ++ b)%string :: merge rest
          else a :: merge tl
      end
  end.

(** Every pair of neighbours satisfies [P]. *)
Fixpoint neighbours (P : string -> string -> bool) (ls : list string) : bool :=
  match ls with
  | [] => true
  | a :: tl =>
      match tl with
      | [] => true
      | b :: _ => P a b && neighbours P tl
      end
  end.

(** No line that ends in a bare CR is followed by a line that is one LF. *)
Definition never_joined (a b : string) : bool :=
  negb (bare_cr a && String.eqb b Str.nl).

(** Where that happens, the upper line is no [///] line. *)
Definition joined_below_text (a b : string) : bool :=
  negb (bare_cr a && String.eqb b Str.nl && is_doc_line a).

(** The lines of the block that [locate] found among the lines [above]. *)
Definition block_of (above : list string) (m b : nat) : list string :=
  firstn b (skipn (List.length above - m - b) above).

(** What [locate] found, seen from [n] lines further down. *)
Definition shift (n : nat) (found : option (nat * nat)) : option (nat * nat) :=
  match found with
  | Some (m, b) => Some (n + m, b)
  | None => None
  end.

(** Two declarations with the same groups. *)
Definition same_decl (d d' : decl) : Prop :=
  match d, d' with
  | TypeDecl m, TypeDecl m' => snd m = snd m'
  | MethodDecl m, MethodDecl m' => snd m = snd m'
  | PropertyDecl m, PropertyDecl m' => snd m = snd m'
  | _, _ => False
  end.

(** A buffer that a scan leaves as it is: at every declaration, the lines
    above it stay. *)
Fixpoint stable (path text : string) (ct : option string)
    (pending todo : list string) : Prop :=
  match todo with
  | [] => True
  | x :: todo' =>
      match classify x with
      | Some d =>
          above_after path text ct d pending = pending /\
          stable path text (next_type ct d) [] todo'
      | None => stable path text ct (pending ++ [x])%list todo'
      end
  end.

(** Pending lines [Q2] stay wherever pending lines [Q1] stay, whatever
    follows them. *)
Definition stays_with (path text : string) (Q1 Q2 : list string) : Prop :=
  forall W ct d,
    above_after path text ct d (Q1 ++ W)%list = (Q1 ++ W)%list ->
    above_after path text ct d (Q2 ++ W)%list = (Q2 ++ W)%list.

(** Whether the scan splices the buffer at some declaration of [todo]. *)
Fixpoint spliced (path text : string) (ct : option string)
    (done todo : list string) : bool :=
  match todo with
  | [] => false
  | x :: todo' =>
      match classify x with
      | Some d =>
          splices path d done
          || spliced path text (next_type ct d)
               (above_after path text ct d done ++ [x])%list todo'
      | None => spliced path text ct (done ++ [x])%list todo'
      end
  end.

(** Every declaration of the buffer has a block that the locator finds. *)
Definition all_documented (buffer : list string) : Prop :=
  forall i x d,
    nth_error buffer i = Some x -> classify x = Some d ->
    locate (rev (firstn i buffer)) <> None.

(** The entries of the override table for methods, each under the key of
    its file. *)
Definition method_entries : list (string * (string * override)) :=
  flat_map
    (fun f =>
       List.map (fun e => (fst f, e))
         match dict_get "method" (snd f) with
         | Some members => members
         | None => []
         end)
    DOC_OVERRIDES.

(** The files that [main] processes: those found, but for the skipped. *)
Definition kept (found : list string) : list string :=
  List.filter (fun p => negb (is_skipped p)) found.

(** The converter cue of a file reads the same after a run as before, or
    no line of the file is a method named Convert or ConvertBack. *)
Definition cue_stays (path text : string) : Prop :=
  forall text1,
    file_after path text = Ok text1 ->
    conv_cue text1 = conv_cue text \/
    Forall (fun l => is_converter_method l = false) (Str.splitlines text).

(** One comment line as the block builders write it: three slashes, a
    text without line boundary, one line feed. *)
Definition comment_line (l : string) : Prop :=
  exists body, l = ("///" ++ body ++ Str.nl)%string /\ unbroken body = true.

(** The three shapes of a fragment of an identifier: digits, capitals, or
    small letters behind at most one capital. *)
Definition token_shape (t : string) : bool :=
  match t with
  | EmptyString => false
  | String c m =>
      (Char.is_digit c && Str.forallb Char.is_digit m)
      || (Char.is_upper c && Str.forallb Char.is_upper m)
      || (((Char.is_upper c && Str.nonempty m) || Char.is_lower c)
          && Str.forallb Char.is_lower m)
  end.


(** A text of ASCII characters. *)
Definition ascii_only (s : string) : bool :=
  Str.forallb (fun c => (Char.code c <? 128)%nat) s.

(** The letters of the Latin-1 supplement, U+00C0 to U+00FF but for the
    two signs U+00D7 and U+00F7, as their two UTF-8 bytes: letters that
    are none of A-Z and a-z. *)
Definition latin1_letter (ch : string) : bool :=
  match ch with
  | String a (String b EmptyString) =>
      (Char.code a =? 195)%nat && Char.between 128 191 b
      && negb ((Char.code b =? 151)%nat || (Char.code b =? 183)%nat)
  | _ => false
  end.

(** A text without CR, as [read_text] returns them. *)
Definition no_cr (s : string) : bool :=
  Str.forallb (fun c => negb (Ascii.eqb c Char.CR)) s.

(** A file of one line that ends in CR LF. *)
Definition crlf_class_file : string :=
  ("public class A" ++ String Char.CR Str.nl)%string.

(** A file that holds [c] and can be opened. *)
Definition plain_file (c : string) : file :=
  {| content := Some c; read_fault := None; write_fault := None |}.

(** The file under [path] is there, holds UTF-8 and can be opened for
    reading and for writing. *)
Definition sound_file (fs : files) (path : string) : Prop :=
  exists f c,
    dict_get path fs = Some f /\ content f = Some c /\
    read_fault f = None /\ write_fault f = None.

(** What makes an access to the file under [path] raise [e]: no file is
    there; opening it for reading raises; its bytes are no UTF-8; or
    opening it for writing raises. *)
Definition stops_at (fs : files) (e : exception) (path : string) : Prop :=
  match dict_get path fs with
  | None => e = FileNotFoundError
  | Some f =>
      read_fault f = Some e
      \/ (read_fault f = None /\ content f = None /\ e = UnicodeDecodeError)
      \/ (read_fault f = None /\ content f <> None /\ write_fault f = Some e)
  end.
(** * Properties *)

(** ** The override table *)

Lemma dict_get_In {V} k (d : list (string * V)) v :
  dict_get k d = Some v -> In (k, v) d.
Proof.
  induction d as [| [k' v'] d IH]; simpl; [discriminate |].
  destruct (String.eqb k k') eqn:E.
  - intros [= ->]. apply String.eqb_eq in E. subst. now left.
  - intros H. right. now apply IH.
Qed.

Lemma lookup3_entries file spec kind name o :
  In (file, spec) DOC_OVERRIDES ->
  lookup3 spec kind name = Some o -> In (name, o) entries.
Proof.
  intros Hf. unfold lookup3.
  destruct (dict_get kind spec) as [members |] eqn:Ek; [| discriminate].
  intros Hm. apply dict_get_In in Ek. apply dict_get_In in Hm.
  unfold entries. apply in_flat_map. exists (file, spec). split; [assumption |].
  apply in_flat_map. exists (kind, members). now split.
Qed.

Lemma match_suffix_entries table fname kind name o :
  incl table DOC_OVERRIDES ->
  match_suffix table fname kind name = Some o -> In (name, o) entries.
Proof.
  induction table as [| [key spec] table IH]; simpl; [discriminate |].
  intros Hincl.
  destruct (Str.endswith fname key).
  - destruct (lookup3 spec kind name) as [o' |] eqn:E.
    + intros [= ->]. eapply lookup3_entries; [| exact E].
      apply Hincl. now left.
    + apply IH. intros x Hx. apply Hincl. now right.
  - apply IH. intros x Hx. apply Hincl. now right.
Qed.

(** Whatever the resolver returns is an entry of the table under the
    member name asked for. *)
Lemma match_override_entries path name kind o :
  match_override path name kind = Some o -> In (name, o) entries.
Proof.
  unfold match_override.
  set (rel := if (2 <=? _)%nat then _ else _).
  destruct (dict_get rel DOC_OVERRIDES) as [spec |] eqn:E1.
  - destruct (lookup3 spec kind name) as [o' |] eqn:E2.
    + intros [= ->]. eapply lookup3_entries; [| exact E2].
      eapply dict_get_In; exact E1.
    + destruct (dict_get (path_name path) DOC_OVERRIDES) as [spec' |] eqn:E3.
      * destruct (lookup3 spec' kind name) as [o' |] eqn:E4.
        -- intros [= ->]. eapply lookup3_entries; [| exact E4].
           eapply dict_get_In; exact E3.
        -- apply match_suffix_entries. apply incl_refl.
      * apply match_suffix_entries. apply incl_refl.
  - destruct (dict_get (path_name path) DOC_OVERRIDES) as [spec' |] eqn:E3.
    + destruct (lookup3 spec' kind name) as [o' |] eqn:E4.
      * intros [= ->]. eapply lookup3_entries; [| exact E4].
        eapply dict_get_In; exact E3.
      * apply match_suffix_entries. apply incl_refl.
    + apply match_suffix_entries. apply incl_refl.
Qed.

(** A member the table does not name has no override, in any file. *)
Lemma match_override_undocumented path name kind :
  str_in name documented = false -> match_override path name kind = None.
Proof.
  intros H. destruct (match_override path name kind) as [o |] eqn:E; [| reflexivity].
  apply match_override_entries in E. exfalso.
  unfold str_in, documented in H. simpl in H, E.
  repeat (apply orb_false_iff in H; destruct H as [? H]).
  repeat destruct E as [E | E]; try contradiction;
    injection E as <- _;
    match goal with
    | Hn : String.eqb ?x ?x = false |- _ => rewrite String.eqb_refl in Hn; discriminate
    end.
Qed.

(** Every entry of the table is a truthy dict with a non-empty summary. *)
Lemma entries_summary name o :
  In (name, o) entries ->
  override_truthy o = true /\
  exists s, ov_summary o = Some s /\ Str.nonempty s = true.
Proof.
  simpl. intros H.
  repeat destruct H as [H | H]; try contradiction;
    injection H as _ <-; (split; [reflexivity | eexists; split; reflexivity]).
Qed.


(** What the resolver returns is truthy and has a non-empty summary. *)
Lemma match_override_summary path name kind o :
  match_override path name kind = Some o ->
  override_truthy o = true /\
  exists s, ov_summary o = Some s /\ Str.nonempty s = true.
Proof.
  intros H. eapply entries_summary. eapply match_override_entries. exact H.
Qed.

(** ** The three scenarios *)

(** Evaluate [process_file] for an arbitrary path once the override lookup
    is known to miss. *)
Ltac run_without_override :=
  intros; unfold process_file;
  cbv -[match_override];
  rewrite match_override_undocumented by reflexivity;
  reflexivity.

(** C5, as the code has it: for [public int GetUserCount()] alone in a
    file, under any path, the inserted block has the summary
    "User Count를(을) 가져옵니다." (the fragments keep their case and the
    particle is "를(을)"), a returns line with the generic result phrase,
    and no parameter line. *)
Theorem C5_get_user_count (path : string) :
  process_file path get_user_count_file =
  Ok (true,
      [ ln "/// <summary>";
        ln "/// User Count를(을) 가져옵니다.";
        ln "/// </summary>";
        ln "/// <returns>결과를 반환합니다.</returns>";
        ln "public int GetUserCount()" ]).
Proof. run_without_override. Qed.

(** C5, as the spec words it, fails: the summary line of the inserted
    block is not "user count 를 가져옵니다.". *)
Lemma C5_counterexample :
  ~ (exists buffer,
        process_file "Counter.cs" get_user_count_file = Ok (true, buffer) /\
        summary_line buffer = ln "/// user count 를 가져옵니다.").
Proof.
  intros [buffer [H E]]. vm_compute in H.
  injection H as <-. vm_compute in E. discriminate.
Qed.

(** C3, as the code has it: for
    [public bool TryParse(string input, out int result)] alone in a file,
    under any path, the summary comes from the "try" rule, there is one
    parameter line for "input" and one for "result", both with the fallback
    phrase "매개 변수", and the returns line carries the return hint of
    names that start with "Try": "조건을 만족하면 true를 반환합니다.". *)
Theorem C3_try_parse (path : string) :
  process_file path try_parse_file =
  Ok (true,
      [ ln "/// <summary>";
        ln "/// Parse를(을) 시도하고, 성공 여부를 반환합니다.";
        ln "/// </summary>";
        ln ("/// <param name=" ++ Str.dquote ++ "input" ++ Str.dquote ++ ">매개 변수</param>");
        ln ("/// <param name=" ++ Str.dquote ++ "result" ++ Str.dquote ++ ">매개 변수</param>");
        ln "/// <returns>조건을 만족하면 true를 반환합니다.</returns>";
        ln "public bool TryParse(string input, out int result)" ]).
Proof. run_without_override. Qed.

(** C3, as the spec words it, fails: no line of the output is the returns
    line "성공하면 true를 반환합니다.". *)
Lemma C3_counterexample :
  ~ (exists buffer,
        process_file "Parser.cs" try_parse_file = Ok (true, buffer) /\
        In (ln "/// <returns>성공하면 true를 반환합니다.</returns>") buffer).
Proof.
  intros [buffer [H E]]. vm_compute in H.
  injection H as <-. simpl in E.
  repeat destruct E as [E | E]; try discriminate; contradiction.
Qed.

(** C4 on the code: in [widget_file] the constructor line
    [public Widget(int size)] matches none of the three patterns (the
    method pattern asks for a return-type token before the name), so the
    class gets its block and the constructor gets none: the output holds no
    parameter line at all. *)
Theorem C4_constructor_gets_no_block (path : string) :
  match_ METHOD_PATTERN (ln "    public Widget(int size)") = None /\
  process_file path widget_file =
  Ok (true,
      [ ln "/// <summary>";
        ln "/// Widget를(을) 제공합니다.";
        ln "/// </summary>";
        ln "public class Widget";
        ln "{";
        ln "    public Widget(int size)";
        ln "    {";
        ln "    }";
        ln "}" ]).
Proof. split; reflexivity. Qed.

(** ** Texts *)

Lemma append_nil_r (s : string) : (s ++ "")%string = s.
Proof. induction s; simpl; congruence. Qed.

Lemma append_assoc (a b c : string) :
  ((a ++ b) ++ c)%string = (a ++ b ++ c)%string.
Proof. induction a; simpl; congruence. Qed.

Lemma length_append (a b : string) :
  String.length (a ++ b) = String.length a + String.length b.
Proof. induction a; simpl; congruence. Qed.

Lemma take_append (m s : string) : take (String.length m) (m ++ s) = m.
Proof. induction m; simpl; [destruct s; reflexivity | congruence]. Qed.

Lemma consumed_append (m s : string) : consumed (m ++ s) s = m.
Proof.
  unfold consumed. rewrite length_append.
  replace (String.length m + String.length s - String.length s)
    with (String.length m) by lia.
  apply take_append.
Qed.

Lemma filter_append f (a b : string) :
  Str.filter f (a ++ b) = (Str.filter f a ++ Str.filter f b)%string.
Proof.
  induction a as [| c a IH]; simpl; [reflexivity |].
  destruct (f c); simpl; congruence.
Qed.

Lemma filter_all f (a : string) : Str.forallb f a = true -> Str.filter f a = a.
Proof.
  induction a as [| c a IH]; simpl; [reflexivity |].
  intros H. apply andb_true_iff in H. destruct H as [Hc Ha].
  rewrite Hc. f_equal. now apply IH.
Qed.

Lemma forallb_append f (a b : string) :
  Str.forallb f (a ++ b) = Str.forallb f a && Str.forallb f b.
Proof.
  induction a as [| c a IH]; simpl; [reflexivity |].
  rewrite IH. now rewrite andb_assoc.
Qed.

Lemma forallb_weaken (f g : ascii -> bool) (a : string) :
  (forall c, f c = true -> g c = true) ->
  Str.forallb f a = true -> Str.forallb g a = true.
Proof.
  intros Hfg. induction a as [| c a IH]; simpl; [reflexivity |].
  intros H. apply andb_true_iff in H. destruct H as [Hc Ha].
  rewrite (Hfg _ Hc). now apply IH.
Qed.

(** ** The matcher *)

(** Whatever a successful run hands to its continuation is a suffix of the
    subject, and the text in between is made of characters of the pattern;
    it is not empty unless the pattern is nullable. *)
Lemma run_sound (r : re) :
  forall (R : Type) prev s caps (k : option ascii -> string -> captures -> option R) x,
    run r prev s caps k = Some x ->
    exists prev' s' caps' m,
      s = (m ++ s')%string /\
      Str.forallb (re_alphabet r) m = true /\
      (re_nullable r = false -> m <> EmptyString) /\
      k prev' s' caps' = Some x.
Proof.
  induction r as [| p | a IHa b IHb | a IHa b IHb | a IHa | n a IHa | a IHa | | |];
    intros R prev s caps k x H; simpl in H.
  - exists prev, s, caps, EmptyString. simpl. intuition discriminate.
  - destruct s as [| c s']; [discriminate |].
    destruct (p c) eqn:Ep; [| discriminate].
    exists (Some c), s', caps, (String c EmptyString). simpl. rewrite Ep.
    repeat split; auto; discriminate.
  - apply IHa in H. destruct H as (p1 & s1 & c1 & m1 & -> & F1 & N1 & H).
    apply IHb in H. destruct H as (p2 & s2 & c2 & m2 & -> & F2 & N2 & H).
    exists p2, s2, c2, (m1 ++ m2)%string. repeat split.
    + now rewrite append_assoc.
    + rewrite forallb_append. simpl. apply andb_true_iff. split.
      * eapply forallb_weaken; [| exact F1]. intros c Hc. now rewrite Hc.
      * eapply forallb_weaken; [| exact F2]. intros c Hc. rewrite Hc. apply orb_true_r.
    + simpl. intros Hn. apply andb_false_iff in Hn.
      destruct m1; simpl; [| discriminate].
      destruct Hn as [Hn | Hn]; [now apply N1 in Hn | now apply N2].
    + exact H.
  - destruct (run a prev s caps k) as [y |] eqn:Ea.
    + injection H as ->. apply IHa in Ea.
      destruct Ea as (p1 & s1 & c1 & m1 & -> & F1 & N1 & H).
      exists p1, s1, c1, m1. repeat split; auto.
      * simpl. eapply forallb_weaken; [| exact F1]. intros c Hc. now rewrite Hc.
      * simpl. intros Hn. apply orb_false_iff in Hn. now apply N1.
    + apply IHb in H.
      destruct H as (p1 & s1 & c1 & m1 & -> & F1 & N1 & H).
      exists p1, s1, c1, m1. repeat split; auto.
      * simpl. eapply forallb_weaken; [| exact F1]. intros c Hc. rewrite Hc. apply orb_true_r.
      * simpl. intros Hn. apply orb_false_iff in Hn. now apply N1.
  - remember (String.length s) as n eqn:En. clear En. revert prev s caps H.
    induction n as [| n IHn]; intros prev s caps H.
    + exists prev, s, caps, EmptyString. simpl. intuition discriminate.
    + match type of H with
      | match ?e with _ => _ end = _ => destruct e as [y |] eqn:Ea
      end.
      * injection H as ->. apply IHa in Ea.
        destruct Ea as (p1 & s1 & c1 & m1 & -> & F1 & N1 & H).
        destruct (String.length s1 <? String.length (m1 ++ s1))%nat; [| discriminate].
        apply IHn in H.
        destruct H as (p2 & s2 & c2 & m2 & -> & F2 & N2 & H).
        exists p2, s2, c2, (m1 ++ m2)%string. repeat split; auto.
        -- now rewrite append_assoc.
        -- rewrite forallb_append. apply andb_true_iff. split; assumption.
        -- simpl. discriminate.
      * exists prev, s, caps, EmptyString. simpl. intuition discriminate.
  - apply IHa in H. destruct H as (p1 & s1 & c1 & m1 & -> & F1 & N1 & H).
    exists p1, s1, ((n, consumed (m1 ++ s1) s1) :: c1), m1. repeat split; auto.
  - destruct (run a prev s caps (fun _ _ _ => Some tt)); [discriminate |].
    exists prev, s, caps, EmptyString. simpl. intuition discriminate.
  - destruct (is_none prev); [| discriminate].
    exists prev, s, caps, EmptyString. simpl. intuition discriminate.
  - destruct (at_eol s); [| discriminate].
    exists prev, s, caps, EmptyString. simpl. intuition discriminate.
  - destruct (at_wordb prev s); [| discriminate].
    exists prev, s, caps, EmptyString. simpl. intuition discriminate.
Qed.

(** A repetition succeeds as soon as its continuation accepts zero
    iterations. *)
Lemma run_star_fallback (R : Type) a prev s caps
    (k : option ascii -> string -> captures -> option R) :
  k prev s caps <> None -> run (Star a) prev s caps k <> None.
Proof.
  intros Hk. simpl. destruct (String.length s); [assumption |].
  match goal with |- match ?e with _ => _ end <> _ => destruct e end;
    [discriminate | assumption].
Qed.

Lemma run_alt_l (R : Type) a b prev s caps
    (k : option ascii -> string -> captures -> option R) :
  run a prev s caps k <> None -> run (Alt a b) prev s caps k <> None.
Proof. simpl. destruct (run a prev s caps k); [discriminate | congruence]. Qed.

Lemma run_alt_r (R : Type) a b prev s caps
    (k : option ascii -> string -> captures -> option R) :
  run b prev s caps k <> None -> run (Alt a b) prev s caps k <> None.
Proof. simpl. destruct (run a prev s caps k); [discriminate | congruence]. Qed.

Lemma run_eps (R : Type) prev s caps
    (k : option ascii -> string -> captures -> option R) :
  run Eps prev s caps k = k prev s caps.
Proof. reflexivity. Qed.

Lemma run_cls (R : Type) p prev c s caps
    (k : option ascii -> string -> captures -> option R) :
  p c = true -> run (Cls p) prev (String c s) caps k = k (Some c) s caps.
Proof. intros H. simpl. now rewrite H. Qed.

Lemma run_plus_cls (R : Type) p prev c s caps
    (k : option ascii -> string -> captures -> option R) :
  p c = true ->
  (forall prev' s' caps', k prev' s' caps' <> None) ->
  run (Plus (Cls p)) prev (String c s) caps k <> None.
Proof.
  intros Hp Hk. unfold Plus.
  change (run (Cls p) prev (String c s) caps
            (fun prev' s' caps' => run (Star (Cls p)) prev' s' caps' k) <> None).
  rewrite run_cls by assumption. apply run_star_fallback. apply Hk.
Qed.

(** ** Tokenizer *)

Lemma alphabet_IDENT_PART c : re_alphabet IDENT_PART c = Char.is_alnum c.
Proof.
  unfold IDENT_PART, Char.is_alnum, Char.is_alpha. simpl.
  destruct (Char.is_upper c), (Char.is_lower c), (Char.is_digit c); reflexivity.
Qed.

(** A match of [IDENT_PART] consumes a non-empty run of letters and
    digits. *)
Lemma match_at_IDENT_PART_sound prev s prev' rest :
  match_at IDENT_PART prev s = Some (prev', rest) ->
  exists m, s = (m ++ rest)%string /\ m <> EmptyString /\
            Str.forallb Char.is_alnum m = true.
Proof.
  unfold match_at. intros H. apply run_sound in H.
  destruct H as (p1 & s1 & c1 & m & -> & F & N & H).
  injection H as -> ->. exists m. repeat split.
  - apply N. reflexivity.
  - eapply forallb_weaken; [| exact F]. intros c Hc.
    now rewrite <- alphabet_IDENT_PART.
Qed.

(** At a letter or a digit, [IDENT_PART] matches. *)
Lemma match_at_IDENT_PART_complete prev c s :
  Char.is_alnum c = true -> match_at IDENT_PART prev (String c s) <> None.
Proof.
  intros Hc. unfold match_at, IDENT_PART, Alts.
  assert (K : forall (prev' : option ascii) (s' : string) (caps' : captures),
             (fun prev' s' (_ : captures) => Some (prev', s')) prev' s' caps'
             <> (None : option (option ascii * string)))
    by discriminate.
  destruct (Char.is_lower c) eqn:El.
  { apply run_alt_l.
    change (run (Opt (Cls Char.is_upper)) prev (String c s) []
              (fun p1 s1 c1 => run (Plus (Cls Char.is_lower)) p1 s1 c1
                                 (fun prev' s' _ => Some (prev', s'))) <> None).
    unfold Opt. apply run_alt_r. rewrite run_eps. cbv beta.
    apply run_plus_cls; assumption. }
  destruct (Char.is_upper c) eqn:Eu.
  { destruct s as [| d s'].
    - apply run_alt_r, run_alt_l.
      change (run (Plus (Cls Char.is_upper)) prev (String c "") []
                (fun p1 s1 c1 => run (NotAhead (Cls Char.is_lower)) p1 s1 c1
                                   (fun prev' s' _ => Some (prev', s'))) <> None).
      unfold Plus.
      change (run (Cls Char.is_upper) prev (String c "") []
                (fun p0 s0 c0 => run (Star (Cls Char.is_upper)) p0 s0 c0
                   (fun p1 s1 c1 => run (NotAhead (Cls Char.is_lower)) p1 s1 c1
                                      (fun prev' s' _ => Some (prev', s')))) <> None).
      rewrite run_cls by assumption. apply run_star_fallback. simpl. discriminate.
    - destruct (Char.is_lower d) eqn:Ed.
      + apply run_alt_l.
        change (run (Opt (Cls Char.is_upper)) prev (String c (String d s')) []
                  (fun p1 s1 c1 => run (Plus (Cls Char.is_lower)) p1 s1 c1
                                     (fun prev' s' _ => Some (prev', s'))) <> None).
        unfold Opt. apply run_alt_l. rewrite run_cls by assumption.
        apply run_plus_cls; assumption.
      + apply run_alt_r, run_alt_l.
        unfold Plus.
        change (run (Cls Char.is_upper) prev (String c (String d s')) []
                  (fun p0 s0 c0 => run (Star (Cls Char.is_upper)) p0 s0 c0
                     (fun p1 s1 c1 => run (NotAhead (Cls Char.is_lower)) p1 s1 c1
                                        (fun prev' s' _ => Some (prev', s')))) <> None).
        rewrite run_cls by assumption. apply run_star_fallback.
        simpl. rewrite Ed. discriminate. }
  assert (Ed : Char.is_digit c = true).
  { unfold Char.is_alnum, Char.is_alpha in Hc. rewrite El, Eu in Hc. exact Hc. }
  apply run_alt_r, run_alt_r. apply run_plus_cls; assumption.
Qed.

Lemma findall_from_step fuel r prev c s' :
  findall_from (S fuel) r prev (String c s') =
  match match_at r prev (String c s') with
  | Some (prev', rest) =>
      if (String.length rest <? String.length (String c s'))%nat
      then consumed (String c s') rest :: findall_from fuel r prev' rest
      else findall_from fuel r (Some c) s'
  | None => findall_from fuel r (Some c) s'
  end.
Proof. reflexivity. Qed.

(** The scan of [findall] keeps exactly the letters and digits. *)
Lemma findall_IDENT_PART fuel :
  forall prev s, String.length s <= fuel ->
    Str.cat (findall_from fuel IDENT_PART prev s) = Str.filter Char.is_alnum s.
Proof.
  induction fuel as [| fuel IH]; intros prev s Hlen.
  - destruct s; [reflexivity | simpl in Hlen; lia].
  - destruct s as [| c s']; [reflexivity |].
    rewrite findall_from_step.
    destruct (match_at IDENT_PART prev (String c s')) as [[prev' rest] |] eqn:E.
    + pose proof (match_at_IDENT_PART_sound _ _ _ _ E) as (m & Es & Hm & F).
      rewrite Es.
      assert (Hlt : (String.length rest <? String.length (m ++ rest))%nat = true).
      { apply Nat.ltb_lt. rewrite length_append.
        destruct m; [congruence | simpl; lia]. }
      rewrite Hlt. simpl Str.cat. rewrite consumed_append.
      rewrite IH.
      * rewrite filter_append. now rewrite (filter_all _ _ F).
      * assert (String.length (m ++ rest) = S (String.length s'))
          by (rewrite <- Es; reflexivity).
        apply Nat.ltb_lt in Hlt. simpl in Hlen. lia.
    + destruct (Char.is_alnum c) eqn:Hc.
      * exfalso. revert E. now apply match_at_IDENT_PART_complete.
      * simpl Str.filter. rewrite Hc. apply IH. simpl in Hlen. lia.
Qed.

Lemma cat_filter_nonempty (l : list string) :
  Str.cat (List.filter Str.nonempty l) = Str.cat l.
Proof.
  induction l as [| a l IH]; [reflexivity |].
  destruct a; simpl; congruence.
Qed.

(** C6, as amended: for an identifier of ASCII characters, the fragments
    of [split_identifier], put end to end, are the identifier without its
    characters that are neither letters nor digits, case kept; and there
    is no fragment only if the identifier holds no letter and no digit. *)
Theorem C6_split_identifier_keeps_alnum (name : string) :
  ascii_only name = true ->
  Str.cat (split_identifier name) = Str.filter Char.is_alnum name /\
  (split_identifier name = [] ->
   Str.forallb (fun c => negb (Char.is_alnum c)) name = true).
Proof.
  intros _.
  assert (E : Str.cat (split_identifier name) = Str.filter Char.is_alnum name).
  { unfold split_identifier, findall. rewrite cat_filter_nonempty.
    apply findall_IDENT_PART. apply le_n. }
  split; [exact E |].
  intros Hnil. rewrite Hnil in E. simpl in E. clear Hnil.
  induction name as [| c name IH]; [reflexivity |].
  simpl in *. destruct (Char.is_alnum c); [discriminate |].
  simpl. now apply IH.
Qed.

Lemma C6_split_identifier_keeps_alnum_witness :
  split_identifier "parse_XMLDoc2Json" = ["parse"; "XML"; "Doc"; "2"; "Json"] /\
  Str.cat (split_identifier "parse_XMLDoc2Json") = "parseXMLDoc2Json" /\
  (split_identifier "parse_XMLDoc2Json" = [] ->
   Str.forallb (fun c => negb (Char.is_alnum c)) "parse_XMLDoc2Json" = true).
Proof.
  split; [reflexivity |].
  exact (C6_split_identifier_keeps_alnum "parse_XMLDoc2Json" eq_refl).
Defined.

(** C6, as claimed for every identifier, fails on letters beyond ASCII:
    the classes of the pattern are [A-Z] and [a-z], so the letter [é] is
    dropped from [Café], and the identifier [é] gives no fragment although
    it is a letter. *)
Lemma C6_counterexample :
  latin1_letter "é" = true /\
  split_identifier "Café" = ["Caf"] /\
  Str.cat (split_identifier "Café") <> "Café" /\
  split_identifier "é" = [].
Proof.
  split; [reflexivity |]. split; [reflexivity |].
  split; [discriminate | reflexivity].
Qed.

(** ** Comment Block Locator *)

Lemma getitem_app_length (D X : list string) l :
  getitem ((D ++ l :: X)%list) (List.length D) = Ok l.
Proof.
  unfold getitem. rewrite nth_error_app2 by lia.
  now rewrite Nat.sub_diag.
Qed.

Lemma nth_error_app_length (D X : list string) l :
  nth_error ((D ++ l :: X)%list) (List.length D) = Some l.
Proof. rewrite nth_error_app2 by lia. now rewrite Nat.sub_diag. Qed.

(** The inner loop stops right above the run of [///] lines. *)
Lemma block_start_spec (D : list string) :
  forall X, block_start (D ++ X)%list (List.length D)
            = List.length D - doc_run (rev D).
Proof.
  induction D as [| l D IH] using rev_ind; intros X; [reflexivity |].
  rewrite length_app, Nat.add_comm. simpl Nat.add.
  rewrite rev_app_distr. simpl rev. simpl app at 2.
  rewrite <- app_assoc. simpl app at 2.
  simpl block_start. rewrite nth_error_app_length.
  simpl doc_run. destruct (is_doc_line l).
  - rewrite IH. reflexivity.
  - lia.
Qed.

(** The locator reads only the lines above the declaration, and finds
    what [locate] describes. *)
Lemma scan_up_spec (D : list string) :
  forall X, scan_up (D ++ X)%list (List.length D)
            = Ok (span_of (List.length D) (locate (rev D))).
Proof.
  induction D as [| l D IH] using rev_ind; intros X; [reflexivity |].
  rewrite length_app, Nat.add_comm. simpl Nat.add.
  rewrite rev_app_distr. simpl rev. simpl app at 2.
  rewrite <- app_assoc. simpl app at 2.
  simpl scan_up. rewrite getitem_app_length. simpl bind.
  simpl locate. destruct (is_doc_line l).
  - rewrite block_start_spec. simpl. do 3 f_equal; lia.
  - destruct (is_skippable l); [| reflexivity].
    rewrite IH. destruct (locate (rev D)) as [[m b] |]; simpl; [| reflexivity].
    reflexivity.
Qed.

Lemma find_preceding_xml_block_spec (D X : list string) :
  find_preceding_xml_block (D ++ X)%list (List.length D)
  = Ok (span_of (List.length D) (locate (rev D))).
Proof. apply scan_up_spec. Qed.

(** The locator never raises inside the buffer. *)
Lemma find_preceding_xml_block_total (lines : list string) (idx : nat) :
  idx <= List.length lines ->
  exists r, find_preceding_xml_block lines idx = Ok r.
Proof.
  intros H.
  pose proof (find_preceding_xml_block_spec (firstn idx lines) (skipn idx lines)) as E.
  rewrite firstn_skipn, length_firstn, Nat.min_l in E by assumption.
  eauto.
Qed.

Lemma doc_run_app (r1 r2 : list string) :
  Forall (fun l => is_doc_line l = true) r1 ->
  doc_run (r1 ++ r2)%list = List.length r1 + doc_run r2.
Proof.
  induction 1 as [| l r Hl _ IH]; simpl; [reflexivity |].
  now rewrite Hl, IH.
Qed.

Lemma locate_stepped (skip r : list string) :
  Forall (fun l => is_stepped_over l = true) skip ->
  locate (skip ++ r)%list =
  match locate r with
  | Some (m, b) => Some (List.length skip + m, b)
  | None => None
  end.
Proof.
  induction 1 as [| l skip Hl _ IH]; simpl.
  - destruct (locate r) as [[m b] |]; reflexivity.
  - unfold is_stepped_over in Hl. apply andb_true_iff in Hl.
    destruct Hl as [Hd Hs]. apply negb_true_iff in Hd.
    rewrite Hd, Hs, IH. destruct (locate r) as [[m b] |]; reflexivity.
Qed.

(** A block bounded above by a line that is no [///] line (or by the top
    of the buffer) and followed by stepped-over lines only is found whole,
    and nothing above the bounding line is. *)
Lemma locate_block (skip blk above : list string) :
  Forall (fun l => is_stepped_over l = true) skip ->
  Forall (fun l => is_doc_line l = true) blk ->
  blk <> [] ->
  doc_run above = 0 ->
  locate (skip ++ blk ++ above)%list = Some (List.length skip, List.length blk).
Proof.
  intros Hs Hb Hne Ha. rewrite locate_stepped by assumption.
  destruct blk as [| l blk]; [congruence |].
  inversion Hb as [| ? ? Hl Hb']; subst. simpl.
  rewrite Hl, doc_run_app, Ha by assumption.
  do 2 f_equal; lia.
Qed.

Lemma lstrip_empty_iff (s : string) :
  Str.lstrip s = EmptyString <-> Str.forallb Char.is_space s = true.
Proof.
  induction s as [| c s IH]; simpl; [tauto |].
  destruct (Char.is_space c); simpl; [exact IH |].
  split; discriminate.
Qed.

Lemma lstrip_head (s : string) c t :
  Str.lstrip s = String c t -> Char.is_space c = false.
Proof.
  induction s as [| d s IH]; simpl; [discriminate |].
  destruct (Char.is_space d) eqn:E; [exact IH |].
  intros [= <- _]. exact E.
Qed.

Lemma rev_acc_forallb f (s acc : string) :
  Str.forallb f (Str.rev_acc s acc) = Str.forallb f s && Str.forallb f acc.
Proof.
  revert acc. induction s as [| c s IH]; intros acc; simpl; [reflexivity |].
  rewrite IH. simpl. destruct (f c), (Str.forallb f s); reflexivity.
Qed.

Lemma rev_forallb f (s : string) : Str.forallb f (Str.rev s) = Str.forallb f s.
Proof. unfold Str.rev. rewrite rev_acc_forallb. simpl. apply andb_true_r. Qed.

Lemma rev_empty (s : string) : Str.rev s = EmptyString -> s = EmptyString.
Proof.
  unfold Str.rev. destruct s as [| c s]; [reflexivity |]. simpl.
  intros H. exfalso.
  assert (L : forall s acc, String.length (Str.rev_acc s acc)
                            = String.length s + String.length acc).
  { clear. induction s; intros; simpl; [reflexivity |]. rewrite IHs. simpl. lia. }
  pose proof (L s (String c "")) as E. rewrite H in E. simpl in E. lia.
Qed.

(** A blank line is whitespace only. *)
Lemma is_blank_spaces (s : string) :
  is_blank s = true -> Str.forallb Char.is_space s = true.
Proof.
  unfold is_blank, Str.strip, Str.rstrip. intros H.
  apply String.eqb_eq in H. apply rev_empty in H.
  apply lstrip_empty_iff in H. rewrite rev_forallb in H.
  destruct (Str.lstrip s) as [| c t] eqn:E.
  - now apply lstrip_empty_iff.
  - exfalso. apply lstrip_head in E.
    simpl in H. rewrite E in H. simpl in H. rewrite E in H. discriminate.
Qed.

Lemma is_blank_not_doc (s : string) :
  is_blank s = true -> is_doc_line s = false.
Proof.
  intros H. apply is_blank_spaces in H. apply lstrip_empty_iff in H.
  unfold is_doc_line. now rewrite H.
Qed.

Lemma is_skippable_not_doc (s : string) :
  is_skippable s = true -> is_doc_line s = false.
Proof.
  unfold is_skippable, is_doc_line. intros H.
  apply orb_true_iff in H. destruct H as [H | H].
  - apply is_blank_not_doc. exact H.
  - apply andb_true_iff in H. destruct H as [_ H].
    now apply negb_true_iff in H.
Qed.

Lemma is_skippable_stepped_over (s : string) :
  is_skippable s = true -> is_stepped_over s = true.
Proof.
  intros H. unfold is_stepped_over.
  now rewrite (is_skippable_not_doc _ H), H.
Qed.

(** C8: two runs of [///] lines with a blank line between them, the lower
    one followed by blank and attribute lines only down to the declaration:
    the locator returns the span of the lower run alone. *)
Theorem C8_block_contiguity
    (pre upper lower skip rest : list string) (blank : string) :
  Forall (fun l => is_doc_line l = true) upper -> upper <> [] ->
  is_blank blank = true ->
  Forall (fun l => is_doc_line l = true) lower -> lower <> [] ->
  Forall (fun l => is_skippable l = true) skip ->
  find_preceding_xml_block
    (pre ++ upper ++ [blank] ++ lower ++ skip ++ rest)%list
    (List.length pre + List.length upper + 1 + List.length lower + List.length skip)
  = Ok (Some (List.length pre + List.length upper + 1,
              List.length pre + List.length upper + List.length lower)).
Proof.
  intros _ _ Hblank Hlower Hne Hskip.
  set (D := (pre ++ upper ++ [blank] ++ lower ++ skip)%list).
  replace (pre ++ upper ++ [blank] ++ lower ++ skip ++ rest)%list
    with (D ++ rest)%list
    by (unfold D; repeat rewrite <- app_assoc; reflexivity).
  replace (List.length pre + List.length upper + 1 + List.length lower
           + List.length skip)
    with (List.length D)
    by (unfold D; repeat rewrite length_app; simpl; lia).
  rewrite find_preceding_xml_block_spec.
  assert (HD : List.length D = List.length pre + List.length upper + 1
                               + List.length lower + List.length skip)
    by (unfold D; repeat rewrite length_app; simpl; lia).
  rewrite HD. unfold D.
  repeat rewrite rev_app_distr. simpl rev.
  repeat rewrite <- app_assoc.
  rewrite (locate_block (rev skip) (rev lower)).
  - simpl. rewrite !length_rev. do 3 f_equal; [lia |].
    destruct lower; [congruence | simpl; lia].
  - apply Forall_rev. eapply Forall_impl; [| exact Hskip].
    intros l. apply is_skippable_stepped_over.
  - now apply Forall_rev.
  - intros H. apply (f_equal (@rev string)) in H.
    rewrite rev_involutive in H. now apply Hne.
  - simpl. now rewrite (is_blank_not_doc _ Hblank).
Qed.

Lemma C8_block_contiguity_witness :
  find_preceding_xml_block
    [ ln "using System;"; ln "/// an older remark"; ln "";
      ln "/// <summary>"; ln "/// Counts."; ln "/// </summary>";
      ln "[Obsolete]"; ln "public int Count()" ] 7
  = Ok (Some (3, 5)).
Proof.
  apply (@C8_block_contiguity
           [ln "using System;"] [ln "/// an older remark"]
           [ln "/// <summary>"; ln "/// Counts."; ln "/// </summary>"]
           [ln "[Obsolete]"] [ln "public int Count()"] (ln "")).
  - repeat constructor.
  - discriminate.
  - reflexivity.
  - repeat constructor.
  - discriminate.
  - repeat constructor.
Defined.

(** ** Reconciliation Driver: one iteration *)

Lemma locate_bounds (r : list string) m b :
  locate r = Some (m, b) -> 1 <= b /\ m + b <= List.length r.
Proof.
  revert m b. induction r as [| l r IH]; intros m b; simpl; [discriminate |].
  destruct (is_doc_line l).
  - intros [= <- <-]. split; [lia |].
    assert (doc_run r <= List.length r).
    { clear. induction r as [| l r IH]; simpl; [lia |].
      destruct (is_doc_line l); lia. }
    lia.
  - destruct (is_skippable l); [| discriminate].
    destruct (locate r) as [[m' b'] |]; [| discriminate].
    intros [= <- <-]. destruct (IH _ _ eq_refl). lia.
Qed.

Lemma slice_above (D X : list string) m b :
  1 <= b -> m + b <= List.length D ->
  slice (D ++ X)%list (List.length D - m - b) (List.length D - m - 1)
  = firstn b (skipn (List.length D - m - b) D).
Proof.
  intros Hb Hn. unfold slice.
  replace (S (List.length D - m - 1) - (List.length D - m - b)) with b by lia.
  rewrite skipn_app.
  replace (List.length D - m - b - List.length D) with 0 by lia.
  simpl skipn at 2. rewrite firstn_app.
  rewrite length_skipn.
  replace (b - (List.length D - (List.length D - m - b))) with 0 by lia.
  simpl. apply app_nil_r.
Qed.

Lemma replace_block_above (D X : list string) ct ch m b block :
  1 <= b -> m + b <= List.length D ->
  replace_block (mkState (D ++ X)%list (List.length D) ct ch)
    (List.length D - m - b) (List.length D - m - 1) block
  = mkState
      ((firstn (List.length D - m - b) D ++ skipn (List.length D - m) D ++ block)
       ++ X)%list
      (List.length (firstn (List.length D - m - b) D
                    ++ skipn (List.length D - m) D ++ block)%list)
      ct true.
Proof.
  intros Hb Hn. unfold replace_block. simpl lines. simpl i. simpl current_type.
  set (n := List.length D) in *.
  assert (Hdel : delete_span (D ++ X)%list (n - m - b) (n - m - 1)
                 = ((firstn (n - m - b) D ++ skipn (n - m) D) ++ X)%list).
  { unfold delete_span.
    replace (Nat.max (n - m - b) (S (n - m - 1))) with (n - m) by lia.
    rewrite firstn_app, skipn_app.
    replace (n - m - b - List.length D) with 0 by (unfold n; lia).
    replace (n - m - List.length D) with 0 by (unfold n; lia).
    simpl. rewrite app_nil_r. now rewrite <- app_assoc. }
  rewrite Hdel.
  assert (Hlen : List.length (firstn (n - m - b) D ++ skipn (n - m) D)%list
                 = n - (n - m - 1 - (n - m - b) + 1)).
  { rewrite length_app, length_firstn, length_skipn. fold n. lia. }
  f_equal.
  - unfold insert_at. rewrite <- Hlen.
    rewrite firstn_app, skipn_app, Nat.sub_diag, firstn_all, skipn_all.
    simpl. rewrite app_nil_r. now rewrite <- !app_assoc.
  - rewrite <- Hlen. rewrite !length_app. lia.
Qed.

Lemma insert_block_above (D X : list string) ct ch block :
  insert_block (mkState (D ++ X)%list (List.length D) ct ch) block
  = mkState ((D ++ block) ++ X)%list (List.length (D ++ block)%list) ct true.
Proof.
  unfold insert_block, insert_at. simpl.
  rewrite firstn_app, skipn_app, Nat.sub_diag, firstn_all, skipn_all.
  simpl. rewrite app_nil_r, length_app. now rewrite <- app_assoc.
Qed.

(** The three handlers share one shape: locate, decide, splice, advance. *)
Lemma handler_shape (path text : string) (d : decl) (D X : list string) ct ch :
  (advance
     match span_of (List.length D) (locate (rev D)) with
     | Some (start, end_) =>
         if wants_replace path d
              (Str.cat (slice (D ++ X)%list start end_))
         then replace_block (mkState (D ++ X)%list (List.length D) (next_type ct d) ch)
                start end_ (new_block path text ct d)
         else mkState (D ++ X)%list (List.length D) (next_type ct d) ch
     | None =>
         insert_block (mkState (D ++ X)%list (List.length D) (next_type ct d) ch)
           (new_block path text ct d)
     end)
  = mkState (above_after path text ct d D ++ X)%list
      (S (List.length (above_after path text ct d D)))
      (next_type ct d) (ch || splices path d D).
Proof.
  unfold above_after, splices.
  destruct (locate (rev D)) as [[m b] |] eqn:E; simpl span_of.
  - destruct (locate_bounds _ _ _ E) as [Hb Hn]. rewrite length_rev in Hn.
    rewrite slice_above by assumption.
    destruct (wants_replace path d _).
    + rewrite replace_block_above by assumption. unfold advance. simpl.
      rewrite orb_true_r. now rewrite <- !app_assoc.
    + unfold advance. simpl. now rewrite orb_false_r.
  - rewrite insert_block_above. unfold advance. simpl.
    now rewrite orb_true_r.
Qed.

Lemma on_type_spec (path text : string) (D X : list string) ct ch m :
  on_type text (mkState (D ++ X)%list (List.length D) ct ch) m
  = Ok (mkState (above_after path text ct (TypeDecl m) D ++ X)%list
          (S (List.length (above_after path text ct (TypeDecl m) D)))
          (next_type ct (TypeDecl m)) (ch || splices path (TypeDecl m) D)).
Proof.
  unfold on_type, set_current_type. simpl lines. simpl i.
  rewrite find_preceding_xml_block_spec. simpl bind. f_equal.
  exact (handler_shape path text (TypeDecl m) D X ct ch).
Qed.

Lemma on_property_spec (path text : string) (D X : list string) ct ch m :
  on_property text (mkState (D ++ X)%list (List.length D) ct ch) m
  = Ok (mkState (above_after path text ct (PropertyDecl m) D ++ X)%list
          (S (List.length (above_after path text ct (PropertyDecl m) D)))
          (next_type ct (PropertyDecl m)) (ch || splices path (PropertyDecl m) D)).
Proof.
  unfold on_property. simpl lines. simpl i.
  rewrite find_preceding_xml_block_spec. simpl bind. f_equal.
  exact (handler_shape path text (PropertyDecl m) D X ct ch).
Qed.

Lemma on_method_spec (path text : string) (D X : list string) ct ch m :
  on_method path text (mkState (D ++ X)%list (List.length D) ct ch) m
  = Ok (mkState (above_after path text ct (MethodDecl m) D ++ X)%list
          (S (List.length (above_after path text ct (MethodDecl m) D)))
          (next_type ct (MethodDecl m)) (ch || splices path (MethodDecl m) D)).
Proof.
  rewrite <- (handler_shape path text (MethodDecl m) D X ct ch).
  unfold on_method. simpl lines. simpl i. simpl current_type.
  rewrite find_preceding_xml_block_spec. simpl bind.
  unfold wants_replace, new_block, method_block, method_override, next_type,
    has_generic_conversion_phrase.
  destruct (match_override path (grp 3 m) "method") as [o |];
    [destruct (override_truthy o) |]; reflexivity.
Qed.

(** One iteration of the loop on a buffer cut at the cursor. *)
Lemma process_line_spec (path text : string) (D T : list string) x ct ch :
  process_line path text (mkState (D ++ x :: T)%list (List.length D) ct ch)
  = Ok match classify x with
       | Some d =>
           mkState (above_after path text ct d D ++ x :: T)%list
             (S (List.length (above_after path text ct d D)))
             (next_type ct d) (ch || splices path d D)
       | None => mkState (D ++ x :: T)%list (S (List.length D)) ct ch
       end.
Proof.
  unfold process_line. simpl lines. simpl i.
  rewrite getitem_app_length. simpl bind. unfold classify.
  destruct (match_ TYPE_PATTERN x) as [m |]; [apply on_type_spec |].
  destruct (match_ METHOD_PATTERN x) as [m |]; [apply on_method_spec |].
  destruct (match_ PROPERTY_PATTERN x) as [m |]; [| reflexivity].
  destruct (negb (Str.mem_char "(" x)); [apply on_property_spec | reflexivity].
Qed.

(** ** Reconciliation Driver: the whole scan *)

Lemma splices_false (path text : string) ct d (D : list string) :
  splices path d D = false -> above_after path text ct d D = D.
Proof.
  unfold splices, above_after.
  destruct (locate (rev D)) as [[m b] |]; [| discriminate].
  now intros ->.
Qed.

(** With one unit of fuel per line still to visit, the loop ends, and its
    buffer is what [reconcile] computes; the changed flag is only raised,
    and when it ends low nothing was raised and nothing moved. *)
Lemma process_loop_spec (path text : string) (T : list string) :
  forall fuel D ct ch, List.length T <= fuel ->
    exists ct' ch',
      process_loop fuel path text (mkState (D ++ T)%list (List.length D) ct ch)
      = Ok (mkState (reconcile path text ct D T)
              (List.length (reconcile path text ct D T)) ct' ch') /\
      (ch' = false -> ch = false /\ reconcile path text ct D T = (D ++ T)%list).
Proof.
  induction T as [| x T IH]; intros fuel D ct ch Hfuel.
  - exists ct, ch. rewrite app_nil_r. simpl reconcile.
    split; [| now split].
    destruct fuel; simpl; rewrite Nat.ltb_irrefl; reflexivity.
  - destruct fuel as [| fuel]; [simpl in Hfuel; lia |].
    simpl process_loop. simpl lines. simpl i.
    assert (Hlt : (List.length D <? List.length (D ++ x :: T)%list)%nat = true)
      by (apply Nat.ltb_lt; rewrite length_app; simpl; lia).
    rewrite Hlt. rewrite process_line_spec. simpl bind. simpl reconcile.
    simpl in Hfuel.
    destruct (classify x) as [d |].
    + destruct (IH fuel (above_after path text ct d D ++ [x])%list
                  (next_type ct d) (ch || splices path d D) ltac:(lia))
        as (ct' & ch' & E & Hch).
      rewrite <- app_assoc, length_app, Nat.add_comm in E. simpl in E.
      exists ct', ch'. split; [exact E |].
      intros Hf. destruct (Hch Hf) as [Hor Hrec].
      apply orb_false_iff in Hor. destruct Hor as [Hc Hs].
      split; [exact Hc |].
      rewrite Hrec, (splices_false path text ct d D Hs).
      now rewrite <- app_assoc.
    + destruct (IH fuel (D ++ [x])%list ct ch ltac:(lia))
        as (ct' & ch' & E & Hch).
      rewrite <- app_assoc, length_app, Nat.add_comm in E. simpl in E.
      exists ct', ch'. split; [exact E |].
      intros Hf. destruct (Hch Hf) as [Hc Hrec].
      split; [exact Hc |]. rewrite Hrec. now rewrite <- app_assoc.
Qed.

(** [process_file] always returns, and its buffer is [reconcile] run on
    the lines of the text read; with the flag low the buffer is those lines. *)
Lemma process_file_spec (path text : string) :
  exists ch,
    process_file path text
    = Ok (ch, reconcile path text None [] (Str.splitlines text)) /\
    (ch = false ->
     reconcile path text None [] (Str.splitlines text) = Str.splitlines text).
Proof.
  unfold process_file, initial.
  destruct (process_loop_spec path text (Str.splitlines text)
              (List.length (Str.splitlines text)) [] None false (le_n _))
    as (ct' & ch' & E & Hch).
  simpl in E. rewrite E. simpl. exists ch'. split; [reflexivity |].
  intros Hf. now destruct (Hch Hf).
Qed.

(** ** Declaration lines stop the locator *)

Lemma lstrip_spaces (m s : string) :
  Str.forallb Char.is_space m = true ->
  Str.lstrip (m ++ s) = Str.lstrip s.
Proof.
  induction m as [| c m IH]; simpl; [reflexivity |].
  intros H. apply andb_true_iff in H. destruct H as [Hc Hm].
  rewrite Hc. now apply IH.
Qed.

(** Decide a fact about one character by running through all of them. *)
Ltac by_all_chars c :=
  destruct c as [[] [] [] [] [] [] [] []]; vm_compute;
  solve [reflexivity | discriminate | intros; reflexivity | intros; discriminate].

Lemma access_alphabet (c : ascii) :
  re_alphabet (Grp 1 (Alt (Lit "public") (Lit "internal"))) c = true ->
  Str.mem_char c "publicinternal" = true.
Proof. by_all_chars c. Qed.

Lemma access_letter_not_space (c : ascii) :
  Str.mem_char c "publicinternal" = true -> Char.is_space c = false.
Proof. by_all_chars c. Qed.

Lemma access_letter_not_slash (c : ascii) :
  Str.mem_char c "publicinternal" = true ->
  Ascii.eqb "/" c = false /\ Ascii.eqb "[" c = false.
Proof.
  destruct c as [[] [] [] [] [] [] [] []]; vm_compute;
    solve [intros; split; reflexivity | intros; discriminate].
Qed.

(** A line matched by a pattern with the common head reads, after its
    leading whitespace, from a letter of "public" or "internal". *)
Lemma with_access_head (tail : re) (line : string) r :
  match_ (with_access tail) line = Some r ->
  exists c t, Str.lstrip line = String c t /\
              Str.mem_char c "publicinternal" = true.
Proof.
  unfold match_, with_access. intros H.
  change (run (Star ws) None line []
            (fun p1 s1 c1 =>
               run (Grp 1 (Alt (Lit "public") (Lit "internal"))) p1 s1 c1
                 (fun p2 s2 c2 =>
                    run tail p2 s2 c2 (fun _ s' caps => Some (s', caps))))
          = Some r) in H.
  apply run_sound in H.
  destruct H as (p1 & s1 & c1 & m1 & -> & F1 & _ & H).
  apply run_sound in H.
  destruct H as (p2 & s2 & c2 & m2 & -> & F2 & N2 & _).
  rewrite lstrip_spaces by exact F1.
  destruct m2 as [| c t]; [exfalso; now apply N2 |].
  simpl in F2. apply andb_true_iff in F2. destruct F2 as [Hc _].
  exists c, (t ++ s2)%string.
  assert (Hm : Str.mem_char c "publicinternal" = true)
    by (apply access_alphabet; exact Hc).
  split; [| exact Hm].
  cbn [append Str.lstrip]. now rewrite (access_letter_not_space _ Hm).
Qed.

Lemma TYPE_PATTERN_head : exists tail, TYPE_PATTERN = with_access tail.
Proof. eexists. reflexivity. Qed.

Lemma METHOD_PATTERN_head : exists tail, METHOD_PATTERN = with_access tail.
Proof. eexists. reflexivity. Qed.

Lemma PROPERTY_PATTERN_head : exists tail, PROPERTY_PATTERN = with_access tail.
Proof. eexists. reflexivity. Qed.

Lemma classify_head (x : string) (d : decl) :
  classify x = Some d ->
  exists c t, Str.lstrip x = String c t /\
              Str.mem_char c "publicinternal" = true.
Proof.
  unfold classify.
  destruct TYPE_PATTERN_head as [t1 ->].
  destruct METHOD_PATTERN_head as [t2 ->].
  destruct PROPERTY_PATTERN_head as [t3 ->].
  destruct (match_ (with_access t1) x) eqn:E1;
    [intros _; eapply with_access_head; exact E1 |].
  destruct (match_ (with_access t2) x) eqn:E2;
    [intros _; eapply with_access_head; exact E2 |].
  destruct (match_ (with_access t3) x) eqn:E3; [| discriminate].
  intros _. eapply with_access_head; exact E3.
Qed.

(** A recognised declaration is neither a [///] line nor a line that the
    locator steps over. *)
Lemma classify_barrier (x : string) (d : decl) :
  classify x = Some d -> is_barrier x = true.
Proof.
  intros H. destruct (classify_head _ _ H) as (c & t & E & Hc).
  assert (Hs : Char.is_space c = false) by (eapply lstrip_head; exact E).
  unfold is_barrier, is_doc_line, is_skippable. rewrite E.
  destruct (access_letter_not_slash _ Hc) as [Hsl Hbr].
  assert (H1 : Str.startswith "///" (String c t) = false)
    by (cbn [Str.startswith]; now rewrite Hsl).
  assert (H2 : Str.startswith "[" (String c t) = false)
    by (cbn [Str.startswith]; now rewrite Hbr).
  assert (H3 : String.eqb (Str.strip (String c t)) "" = false).
  { destruct (String.eqb (Str.strip (String c t)) "") eqn:Eb; [| reflexivity].
    exfalso.
    assert (Hb : is_blank x = true) by (unfold is_blank; now rewrite E).
    apply is_blank_spaces in Hb. apply lstrip_empty_iff in Hb.
    rewrite Hb in E. discriminate. }
  rewrite H1, H2, H3. reflexivity.
Qed.

Lemma classify_not_doc (x : string) (d : decl) :
  classify x = Some d -> is_doc_line x = false.
Proof.
  intros H. apply classify_barrier in H. unfold is_barrier in H.
  apply andb_true_iff in H. destruct H as [H _]. now apply negb_true_iff in H.
Qed.

Lemma doc_line_not_classified (x : string) :
  is_doc_line x = true -> classify x = None.
Proof.
  intros H. destruct (classify x) as [d |] eqn:E; [| reflexivity].
  apply classify_not_doc in E. congruence.
Qed.

(** ** The scan settles the buffer segment by segment *)

Lemma doc_run_barrier (r : list string) x0 rest :
  is_doc_line x0 = false -> doc_run (r ++ x0 :: rest)%list = doc_run r.
Proof.
  intros H. induction r as [| l r IH]; simpl; [now rewrite H |].
  now rewrite IH.
Qed.

Lemma locate_barrier (r : list string) x0 rest :
  is_barrier x0 = true -> locate (r ++ x0 :: rest)%list = locate r.
Proof.
  unfold is_barrier. intros H. apply andb_true_iff in H.
  destruct H as [Hd Hs]. apply negb_true_iff in Hd, Hs.
  induction r as [| l r IH]; simpl; [now rewrite Hd, Hs |].
  rewrite IH, doc_run_barrier by assumption. reflexivity.
Qed.

Lemma opaque_nil : opaque_above [].
Proof. intros r. simpl. now rewrite app_nil_r. Qed.

Lemma opaque_barrier (P : list string) x0 :
  is_barrier x0 = true -> opaque_above (P ++ [x0])%list.
Proof.
  intros H r. rewrite rev_app_distr. simpl. now apply locate_barrier.
Qed.

(** What [locate] found, as a cut of the lines above. *)
Lemma locate_cut_rev (r : list string) m b :
  locate r = Some (m, b) ->
  exists Mr Br rest,
    r = (Mr ++ Br ++ rest)%list /\ List.length Mr = m /\ List.length Br = b /\
    1 <= b /\
    Forall (fun l => is_stepped_over l = true) Mr /\
    Forall (fun l => is_doc_line l = true) Br.
Proof.
  revert m b. induction r as [| l r IH]; intros m b; simpl; [discriminate |].
  destruct (is_doc_line l) eqn:Ed.
  - intros [= <- <-].
    assert (Hrun : forall r, exists Br rest,
               r = (Br ++ rest)%list /\ List.length Br = doc_run r /\
               Forall (fun l => is_doc_line l = true) Br).
    { clear. induction r as [| l r (Br & rest & E & L & F)]; simpl.
      - exists [], []. repeat split; constructor.
      - destruct (is_doc_line l) eqn:Ed.
        + exists (l :: Br), rest. simpl. repeat split; [congruence | congruence |].
          now constructor.
        + exists [], (l :: r). repeat split; constructor. }
    destruct (Hrun r) as (Br & rest & E & L & F).
    exists [], (l :: Br), rest. simpl. repeat split; try congruence; try lia.
    + constructor.
    + now constructor.
  - destruct (is_skippable l) eqn:Es; [| discriminate].
    destruct (locate r) as [[m' b'] |]; [| discriminate].
    intros [= <- <-].
    destruct (IH _ _ eq_refl) as (Mr & Br & rest & E & Lm & Lb & Hb & Fm & Fb).
    exists (l :: Mr), Br, rest. simpl. repeat split; try congruence; try lia.
    constructor; [| assumption].
    unfold is_stepped_over. now rewrite Ed, Es.
Qed.

Lemma locate_cut (Q : list string) m b :
  locate (rev Q) = Some (m, b) ->
  exists Q1 B M,
    Q = (Q1 ++ B ++ M)%list /\ List.length M = m /\ List.length B = b /\
    1 <= b /\
    Forall (fun l => is_stepped_over l = true) M /\
    Forall (fun l => is_doc_line l = true) B.
Proof.
  intros H. apply locate_cut_rev in H.
  destruct H as (Mr & Br & rest & E & Lm & Lb & Hb & Fm & Fb).
  exists (rev rest), (rev Br), (rev Mr).
  rewrite !length_rev. repeat split; try assumption; try (now apply Forall_rev).
  rewrite <- (rev_involutive Q), E, !rev_app_distr. now rewrite app_assoc.
Qed.

Lemma firstn_length_app {A} (a b : list A) :
  firstn (List.length a) (a ++ b)%list = a.
Proof.
  rewrite firstn_app, Nat.sub_diag, firstn_all. simpl. apply app_nil_r.
Qed.

Lemma skipn_length_app {A} (a b : list A) :
  skipn (List.length a) (a ++ b)%list = b.
Proof.
  rewrite skipn_app, Nat.sub_diag, skipn_all. reflexivity.
Qed.

(** [above_after] on a cut buffer. *)
Lemma above_after_cut (path text : string) ct d (Q1 B M : list string) :
  locate (rev (Q1 ++ B ++ M)%list) = Some (List.length M, List.length B) ->
  above_after path text ct d (Q1 ++ B ++ M)%list
  = if wants_replace path d (Str.cat B)
    then (Q1 ++ M ++ new_block path text ct d)%list
    else (Q1 ++ B ++ M)%list.
Proof.
  intros H. unfold above_after. rewrite H.
  rewrite !length_app.
  replace (List.length Q1 + (List.length B + List.length M)
           - List.length M - List.length B) with (List.length Q1) by lia.
  replace (List.length Q1 + (List.length B + List.length M) - List.length M)
    with (List.length (Q1 ++ B)%list) by (rewrite length_app; lia).
  rewrite skipn_length_app, firstn_length_app, firstn_length_app.
  rewrite (app_assoc Q1 B M), skipn_length_app.
  reflexivity.
Qed.

Lemma splices_cut (path : string) d (Q1 B M : list string) :
  locate (rev (Q1 ++ B ++ M)%list) = Some (List.length M, List.length B) ->
  splices path d (Q1 ++ B ++ M)%list = wants_replace path d (Str.cat B).
Proof.
  intros H. unfold splices. rewrite H. rewrite !length_app.
  replace (List.length Q1 + (List.length B + List.length M)
           - List.length M - List.length B) with (List.length Q1) by lia.
  now rewrite skipn_length_app, firstn_length_app.
Qed.

(** Processing a declaration touches nothing at or above an opaque
    prefix. *)
Lemma above_after_local (path text : string) ct d (P Q : list string) :
  opaque_above P ->
  above_after path text ct d (P ++ Q)%list
  = (P ++ above_after path text ct d Q)%list.
Proof.
  intros HP.
  assert (HL : locate (rev (P ++ Q)%list) = locate (rev Q))
    by (rewrite rev_app_distr; apply HP).
  destruct (locate (rev Q)) as [[m b] |] eqn:E.
  - destruct (locate_cut _ _ _ E) as (Q1 & B & M & -> & Lm & Lb & _).
    subst m b.
    rewrite (above_after_cut path text ct d Q1 B M E).
    rewrite app_assoc in HL |- *.
    rewrite (above_after_cut path text ct d (P ++ Q1)%list B M HL).
    destruct (wants_replace path d (Str.cat B)); now rewrite <- !app_assoc.
  - unfold above_after. rewrite HL, E. now rewrite <- app_assoc.
Qed.

(** The scan above an opaque prefix is the scan of the pending segment. *)
Lemma reconcile_segments (path text : string) (T : list string) :
  forall P Q ct, opaque_above P ->
    reconcile path text ct (P ++ Q)%list T
    = (P ++ segments path text ct Q T)%list.
Proof.
  induction T as [| x T IH]; intros P Q ct HP; simpl; [reflexivity |].
  destruct (classify x) as [d |] eqn:E.
  - rewrite above_after_local by assumption.
    replace ((P ++ above_after path text ct d Q) ++ [x])%list
      with (((P ++ above_after path text ct d Q) ++ [x]) ++ [])%list
      by apply app_nil_r.
    rewrite IH.
    + simpl. now rewrite <- !app_assoc.
    + apply opaque_barrier. eapply classify_barrier; exact E.
  - rewrite <- app_assoc. now apply IH.
Qed.

Lemma reconcile_from_top (path text : string) (L : list string) :
  reconcile path text None [] L = segments path text None [] L.
Proof.
  exact (reconcile_segments path text L [] [] None opaque_nil).
Qed.

(** ** New blocks are made of [///] lines *)

Lemma build_summary_block_doc (summary : string) :
  Forall (fun g => is_doc_line g = true) (build_summary_block summary).
Proof. repeat constructor. Qed.

Lemma param_line_doc po p l :
  param_line po p = Some l -> is_doc_line l = true.
Proof.
  unfold param_line. destruct (negb (Str.nonempty p)); [discriminate |].
  destruct (List.filter _ _); [discriminate |].
  intros [= <-]. reflexivity.
Qed.

(** The block of a method opens with the summary block. *)
Lemma build_method_block_shape summary ret params hint po ro :
  exists more,
    build_method_block summary ret params hint po ro
    = (build_summary_block summary ++ more)%list /\
    Forall (fun g => is_doc_line g = true) more.
Proof.
  unfold build_method_block.
  set (ps := if Str.nonempty (Str.strip params) then _ else _).
  assert (F : forall acc,
             exists more,
               fold_left
                 (fun block p =>
                    match param_line po p with
                    | Some l => (block ++ [l])%list
                    | None => block
                    end) ps acc = (acc ++ more)%list /\
               Forall (fun g => is_doc_line g = true) more).
  { clear. induction ps as [| p ps IH]; intros acc; simpl.
    - exists []. split; [now rewrite app_nil_r | constructor].
    - destruct (param_line po p) as [l |] eqn:E.
      + destruct (IH (acc ++ [l])%list) as (more & -> & Fm).
        exists (l :: more). split; [now rewrite <- app_assoc |].
        constructor; [eapply param_line_doc; exact E | exact Fm].
      + apply IH. }
  destruct (F (build_summary_block summary)) as (more & -> & Fm).
  destruct (Str.nonempty ret && negb (String.eqb ret "void")).
  - exists (more ++ [("/// <returns>"
                      ++ py_or ro (py_or hint (return_korean_desc_by_name summary))
                      ++ "</returns>" ++ Str.nl)%string])%list.
    split; [now rewrite <- app_assoc |].
    apply Forall_app. split; [exact Fm | repeat constructor].
  - exists more. split; [reflexivity | exact Fm].
Qed.

Lemma build_method_block_doc summary ret params hint po ro :
  Forall (fun g => is_doc_line g = true)
         (build_method_block summary ret params hint po ro).
Proof.
  destruct (build_method_block_shape summary ret params hint po ro)
    as (more & -> & F).
  apply Forall_app. split; [apply build_summary_block_doc | exact F].
Qed.

Lemma new_block_doc (path text : string) ct d :
  Forall (fun g => is_doc_line g = true) (new_block path text ct d).
Proof.
  destruct d as [m | m | m]; simpl;
    try apply build_summary_block_doc.
  unfold method_block. destruct (method_override path m);
    apply build_method_block_doc.
Qed.

(** ** The frame of the scan *)

Lemma edited_refl (l : list string) : edited l l.
Proof. induction l; constructor; assumption. Qed.

Lemma edited_keep_app (Q l l' : list string) :
  edited l l' -> edited (Q ++ l)%list (Q ++ l')%list.
Proof. intros H. induction Q; simpl; [assumption | now constructor]. Qed.

Lemma stepped_over_skippable (M : list string) :
  Forall (fun l => is_stepped_over l = true) M ->
  Forall (fun l => is_skippable l = true) M.
Proof.
  apply Forall_impl. intros l H. unfold is_stepped_over in H.
  apply andb_true_iff in H. tauto.
Qed.

Lemma segments_edited (path text : string) (T : list string) :
  forall Q ct, edited (Q ++ T)%list (segments path text ct Q T).
Proof.
  induction T as [| x T IH]; intros Q ct; simpl.
  - rewrite app_nil_r. apply edited_refl.
  - destruct (classify x) as [d |] eqn:E.
    + assert (Hx : classify x <> None) by congruence.
      pose proof (new_block_doc path text ct d) as HG.
      specialize (IH [] (next_type ct d)). simpl in IH.
      destruct (locate (rev Q)) as [[m b] |] eqn:EL.
      * destruct (locate_cut _ _ _ EL) as (Q1 & B & M & -> & Lm & Lb & _ & FM & FB).
        subst m b. rewrite (above_after_cut path text ct d Q1 B M EL).
        destruct (wants_replace path d (Str.cat B)).
        -- rewrite <- !app_assoc. apply edited_keep_app.
           apply edited_replace; auto using stepped_over_skippable.
        -- apply edited_keep_app. now constructor.
      * unfold above_after. rewrite EL. rewrite <- app_assoc.
        apply edited_keep_app. now apply edited_insert.
    + specialize (IH (Q ++ [x])%list ct). now rewrite <- app_assoc in IH.
Qed.

(** [process_file] returns, and its buffer is the lines of the text read,
    edited in the ways of [edited] only. *)
Lemma process_file_edited (path text : string) :
  exists flag buffer,
    process_file path text = Ok (flag, buffer) /\
    edited (Str.splitlines text) buffer.
Proof.
  destruct (process_file_spec path text) as [ch [E _]].
  exists ch, (reconcile path text None [] (Str.splitlines text)).
  split; [exact E |].
  rewrite reconcile_from_top.
  exact (segments_edited path text (Str.splitlines text) [] None).
Qed.

(** ** The cursor *)

Lemma visited_spec (path text : string) (T : list string) :
  forall fuel D ct ch, List.length T <= fuel ->
    visited fuel path text (mkState (D ++ T)%list (List.length D) ct ch) = T.
Proof.
  induction T as [| x T IH]; intros fuel D ct ch Hfuel.
  - rewrite app_nil_r. destruct fuel; simpl; now rewrite Nat.ltb_irrefl.
  - destruct fuel as [| fuel]; [simpl in Hfuel; lia |].
    simpl visited. simpl lines. simpl i.
    assert (Hlt : (List.length D <? List.length (D ++ x :: T)%list)%nat = true)
      by (apply Nat.ltb_lt; rewrite length_app; simpl; lia).
    rewrite Hlt, getitem_app_length, process_line_spec.
    simpl in Hfuel. f_equal.
    destruct (classify x) as [d |].
    + specialize (IH fuel (above_after path text ct d D ++ [x])%list
                    (next_type ct d) (ch || splices path d D)).
      rewrite <- app_assoc, length_app, Nat.add_comm in IH. simpl in IH.
      apply IH. lia.
    + specialize (IH fuel (D ++ [x])%list ct ch).
      rewrite <- app_assoc, length_app, Nat.add_comm in IH. simpl in IH.
      apply IH. lia.
Qed.

Lemma state_cut (st : state) :
  i st < List.length (lines st) ->
  exists D x T ct ch,
    st = mkState (D ++ x :: T)%list (List.length D) ct ch.
Proof.
  destruct st as [ls n ct ch]. cbn [i lines]. intros H.
  destruct (skipn n ls) as [| y rest] eqn:Es.
  - apply (f_equal (@List.length string)) in Es.
    rewrite length_skipn in Es. simpl in Es. lia.
  - exists (firstn n ls), y, rest, ct, ch.
    rewrite length_firstn, Nat.min_l by lia. f_equal.
    rewrite <- Es. symmetry. apply firstn_skipn.
Qed.

Lemma skipn_length_snoc {A} (D : list A) x T :
  skipn (S (List.length D)) (D ++ x :: T)%list = T.
Proof.
  replace (D ++ x :: T)%list with ((D ++ [x]) ++ T)%list
    by (now rewrite <- app_assoc).
  replace (S (List.length D)) with (List.length (D ++ [x])%list)
    by (rewrite length_app; simpl; lia).
  apply skipn_length_app.
Qed.

(** C9: whatever an iteration does to the buffer, it leaves the cursor
    right after the line it examined, with the lines below it untouched;
    so from any state the loop examines the lines at and below the cursor,
    each once and in order, and none of the lines it puts in. *)
Theorem C9_cursor_resumes_after_declaration (path text : string) (st : state) :
  i st < List.length (lines st) ->
  exists st',
    process_line path text st = Ok st' /\
    0 < i st' /\
    nth_error (lines st') (i st' - 1) = nth_error (lines st) (i st) /\
    skipn (i st') (lines st') = skipn (S (i st)) (lines st) /\
    visited (List.length (lines st) - i st) path text st
    = skipn (i st) (lines st).
Proof.
  intros H. destruct (state_cut st H) as (D & x & T & ct & ch & ->).
  cbn [i lines].
  rewrite process_line_spec. eexists. split; [reflexivity |].
  rewrite nth_error_app_length, skipn_length_snoc, skipn_length_app.
  assert (Hv : visited (List.length (D ++ x :: T)%list - List.length D) path text
                 (mkState (D ++ x :: T)%list (List.length D) ct ch) = x :: T).
  { apply visited_spec. rewrite length_app. simpl. lia. }
  assert (Hp : forall n, S n - 1 = n) by (intros; lia).
  destruct (classify x) as [d |]; cbn [i lines];
    rewrite Hp, nth_error_app_length, skipn_length_snoc;
    repeat split; try lia; exact Hv.
Qed.

Lemma C9_cursor_resumes_after_declaration_witness :
  let st := mkState documented_count_buffer 5 None false in
  i st < List.length (lines st) /\
  exists st',
    process_line "Counter.cs" (Str.cat documented_count_buffer) st = Ok st' /\
    0 < i st' /\
    nth_error (lines st') (i st' - 1) = nth_error (lines st) (i st) /\
    skipn (i st') (lines st') = skipn (S (i st)) (lines st) /\
    visited (List.length (lines st) - i st) "Counter.cs"
      (Str.cat documented_count_buffer) st
    = skipn (i st) (lines st).
Proof.
  intros st.
  assert (H : i st < List.length (lines st)) by (vm_compute; lia).
  split; [exact H |].
  exact (C9_cursor_resumes_after_declaration
           "Counter.cs" (Str.cat documented_count_buffer) st H).
Defined.

(** ** The replace policy *)

Lemma wants_replace_reason (path : string) (d : decl) (block_text : string) :
  wants_replace path d block_text = true -> replace_reason path d block_text.
Proof.
  unfold replace_reason. destruct d as [m | m | m]; simpl; intros H.
  - apply orb_true_iff in H. destruct H as [H | H]; [now left |].
    right. right. left. exists m. split; [reflexivity |].
    now apply String.eqb_eq.
  - apply orb_true_iff in H. destruct H as [H | H].
    + apply orb_true_iff in H. destruct H as [H | H]; [| now left].
      right. left. unfold method_override in H.
      destruct (match_override path (grp 3 m) "method") as [o |] eqn:E;
        [| discriminate].
      exists m, o. now split.
    + apply andb_true_iff in H. destruct H as [Hn Hp].
      right. right. right. exists m. split; [reflexivity |]. split; [| exact Hp].
      unfold str_in in Hn. simpl in Hn.
      apply orb_true_iff in Hn. destruct Hn as [Hn | Hn];
        [left; now apply String.eqb_eq |].
      apply orb_true_iff in Hn. destruct Hn as [Hn | Hn]; [| discriminate].
      right. now apply String.eqb_eq.
  - now left.
Qed.

(** The span returned by the locator, read on the lines above. *)
Lemma found_span (D X : list string) start end_ :
  find_preceding_xml_block (D ++ X)%list (List.length D) = Ok (Some (start, end_)) ->
  exists Q1 B M,
    D = (Q1 ++ B ++ M)%list /\
    locate (rev D) = Some (List.length M, List.length B) /\
    start = List.length Q1 /\ S end_ = List.length (Q1 ++ B)%list /\
    B <> [] /\
    slice (D ++ X)%list start end_ = B /\
    Forall (fun l => is_doc_line l = true) B /\
    Forall (fun l => is_skippable l = true) M.
Proof.
  rewrite find_preceding_xml_block_spec.
  destruct (locate (rev D)) as [[m b] |] eqn:E; [| discriminate].
  simpl. intros [= <- <-].
  destruct (locate_bounds _ _ _ E) as [Hb Hn]. rewrite length_rev in Hn.
  rewrite slice_above by assumption.
  destruct (locate_cut _ _ _ E) as (Q1 & B & M & -> & Lm & Lb & _ & FM & FB).
  subst m b. exists Q1, B, M.
  rewrite !length_app in *.
  replace (List.length Q1 + (List.length B + List.length M)
           - List.length M - List.length B) with (List.length Q1) by lia.
  rewrite skipn_length_app, firstn_length_app.
  repeat split; auto using stepped_over_skippable; try lia.
  destruct B; [simpl in Hb; lia | discriminate].
Qed.

(** After a declaration was processed, the lines down to it stay as they
    are until the loop ends. *)
Lemma settled_prefix (path text : string) (D T : list string) x d ct ch :
  classify x = Some d ->
  exists out,
    process_loop (List.length T) path text
      (mkState (D ++ x :: T)%list (S (List.length D)) ct ch) = Ok out /\
    firstn (S (List.length D)) (lines out) = (D ++ [x])%list.
Proof.
  intros Hx.
  destruct (process_loop_spec path text T (List.length T) (D ++ [x])%list ct ch
              (le_n _)) as (ct' & ch' & E & _).
  rewrite <- app_assoc, length_app, Nat.add_comm in E. simpl in E.
  eexists. split; [exact E |]. cbn [lines].
  replace (D ++ [x])%list with ((D ++ [x]) ++ [])%list at 1
    by apply app_nil_r.
  rewrite reconcile_segments
    by (apply opaque_barrier; eapply classify_barrier; exact Hx).
  replace (S (List.length D)) with (List.length (D ++ [x])%list)
    by (rewrite length_app; simpl; lia).
  apply firstn_length_app.
Qed.

(** C1, as amended: at a recognised declaration that has a preceding
    block, the iteration changes the buffer or raises the changed flag
    only on one of the four grounds of [replace_reason], the fourth being
    a method named Convert or ConvertBack under a block with the generic
    phrase, in whatever file; on none of them the buffer and the flag stay
    as they are, and the lines down to the declaration, the block among
    them, are still in place when the loop ends. *)
Theorem C1_replace_policy
    (path text : string) (D T : list string) (x : string)
    (ct : option string) (ch : bool) (d : decl) (start end_ : nat) :
  classify x = Some d ->
  find_preceding_xml_block (D ++ x :: T)%list (List.length D)
  = Ok (Some (start, end_)) ->
  let st := mkState (D ++ x :: T)%list (List.length D) ct ch in
  let block_text := Str.cat (slice (lines st) start end_) in
  exists st',
    process_line path text st = Ok st' /\
    (lines st' <> lines st \/ changed st' <> changed st ->
     replace_reason path d block_text) /\
    (~ replace_reason path d block_text ->
     lines st' = lines st /\ changed st' = changed st /\ i st' = S (i st) /\
     exists out,
       process_loop (List.length T) path text st' = Ok out /\
       firstn (S (List.length D)) (lines out) = (D ++ [x])%list).
Proof.
  intros Hx Hfind st block_text. subst block_text st. cbn [lines].
  destruct (found_span D (x :: T) start end_ Hfind)
    as (Q1 & B & M & ED & EL & _ & _ & _ & ES & _ & _).
  rewrite ES. rewrite process_line_spec, Hx.
  eexists. split; [reflexivity |]. cbn [lines changed i].
  assert (EA : above_after path text ct d D
               = if wants_replace path d (Str.cat B)
                 then (Q1 ++ M ++ new_block path text ct d)%list else D).
  { rewrite ED. apply above_after_cut. now rewrite <- ED. }
  assert (EP : splices path d D = wants_replace path d (Str.cat B)).
  { rewrite ED. apply splices_cut. now rewrite <- ED. }
  rewrite EA, EP.
  destruct (wants_replace path d (Str.cat B)) eqn:EW.
  - split; [intros _; now apply wants_replace_reason |].
    intros Hn. exfalso. apply Hn. now apply wants_replace_reason.
  - rewrite orb_false_r. split; [intros [H | H]; congruence |].
    intros _. repeat split. now apply settled_prefix with (d := d).
Qed.

Lemma C1_replace_policy_witness :
  let st := mkState documented_count_buffer 4 None false in
  let block_text := Str.cat (slice (lines st) 0 2) in
  exists d st',
    classify (ln "public int Count()") = Some d /\
    process_line "Counter.cs" "" st = Ok st' /\
    (lines st' <> lines st \/ changed st' <> changed st ->
     replace_reason "Counter.cs" d block_text) /\
    (~ replace_reason "Counter.cs" d block_text ->
     lines st' = lines st /\ changed st' = changed st /\ i st' = S (i st) /\
     exists out,
       process_loop 1 "Counter.cs" "" st' = Ok out /\
       firstn 5 (lines out) = firstn 5 documented_count_buffer).
Proof.
  intros st block_text.
  destruct (classify (ln "public int Count()")) as [d |] eqn:Hx;
    [| vm_compute in Hx; discriminate].
  exists d.
  destruct (@C1_replace_policy "Counter.cs" ""
              (firstn 4 documented_count_buffer)
              [ln "public int Total { get; }"] (ln "public int Count()")
              None false d 0 2 Hx eq_refl)
    as (st' & H).
  exists st'. split; [reflexivity |]. exact H.
Defined.

(** C1, as claimed, fails at a method named Convert in a file that is no
    value converter: the block that its author wrote holds the generic
    phrase, none of the four grounds of the claim holds, and the block is
    replaced all the same. *)
Lemma C1_counterexample :
  exists d st' buffer,
    classify (ln "public static int Convert(string s)") = Some d /\
    find_preceding_xml_block parser_buffer 3 = Ok (Some (0, 2)) /\
    ~ claimed_replace_reason "Parser.cs" (Str.cat parser_buffer) d
        (Str.cat (slice parser_buffer 0 2)) /\
    process_line "Parser.cs" (Str.cat parser_buffer)
      (mkState parser_buffer 3 None false) = Ok st' /\
    changed st' = true /\
    ~ In (ln "/// 문자열을 정수로 변환합니다.") (lines st') /\
    process_file "Parser.cs" (Str.cat parser_buffer) = Ok (true, buffer) /\
    ~ In (ln "/// 문자열을 정수로 변환합니다.") buffer.
Proof.
  destruct (classify (ln "public static int Convert(string s)"))
    as [[m | m | m] |] eqn:Hx;
    try (vm_compute in Hx; discriminate).
  assert (Hn : grp 3 m = "Convert") by (vm_compute in Hx; now injection Hx as <-).
  destruct (process_line "Parser.cs" (Str.cat parser_buffer)
              (mkState parser_buffer 3 None false)) as [st' | |] eqn:Hp;
    try (vm_compute in Hp; discriminate).
  destruct (process_file "Parser.cs" (Str.cat parser_buffer))
    as [[flag buffer] | |] eqn:Hf; try (vm_compute in Hf; discriminate).
  exists (MethodDecl m), st', buffer.
  split; [reflexivity |]. split; [reflexivity |]. split.
  { intros [H | [(m' & o & Hd & Ho) | [(m' & Hd & _) | (m' & _ & _ & Hc & _)]]].
    - vm_compute in H. discriminate.
    - injection Hd as <-. rewrite Hn in Ho. vm_compute in Ho. discriminate.
    - discriminate.
    - vm_compute in Hc. discriminate. }
  split; [reflexivity |].
  vm_compute in Hp. injection Hp as <-.
  vm_compute in Hf. injection Hf as <- <-.
  split; [reflexivity |]. split.
  - cbn [lines In]. intros H.
    repeat (destruct H as [H | H]; [discriminate |]). exact H.
  - split; [reflexivity |]. cbn [In]. intros H.
    repeat (destruct H as [H | H]; [discriminate |]). exact H.
Qed.

(** C7: at a method that has an override entry and a preceding block, the
    iteration drops the block and puts right above the method a new block
    whose summary line is the summary of the entry, letter for letter. *)
Theorem C7_override_precedence
    (path text : string) (D T : list string) (x : string)
    (ct : option string) (ch : bool) (m : string * captures) (o : override)
    (start end_ : nat) :
  classify x = Some (MethodDecl m) ->
  match_override path (grp 3 m) "method" = Some o ->
  find_preceding_xml_block (D ++ x :: T)%list (List.length D)
  = Ok (Some (start, end_)) ->
  is_placeholder (Str.cat (slice (D ++ x :: T)%list start end_)) = false ->
  exists summary block st',
    ov_summary o = Some summary /\
    process_line path text (mkState (D ++ x :: T)%list (List.length D) ct ch)
    = Ok st' /\
    lines st' = (firstn start D ++ skipn (S end_) D ++ block ++ x :: T)%list /\
    i st' = S (List.length (firstn start D ++ skipn (S end_) D ++ block)%list) /\
    changed st' = true /\
    summary_line block = ln ("/// " ++ summary).
Proof.
  intros Hx Ho Hfind _.
  destruct (found_span D (x :: T) start end_ Hfind)
    as (Q1 & B & M & ED & EL & Es & Ee & _ & _ & _ & _).
  destruct (match_override_summary path (grp 3 m) "method" o Ho)
    as (Ht & s & Hs & Hne).
  assert (Hmo : method_override path m = Some o)
    by (unfold method_override; now rewrite Ho, Ht).
  exists s, (new_block path text ct (MethodDecl m)).
  eexists. split; [exact Hs |].
  rewrite process_line_spec, Hx. split; [reflexivity |]. cbn [lines i changed].
  assert (EW : wants_replace path (MethodDecl m) (Str.cat B) = true)
    by (simpl; now rewrite Hmo).
  assert (EA : above_after path text ct (MethodDecl m) D
               = (Q1 ++ M ++ new_block path text ct (MethodDecl m))%list).
  { rewrite ED, above_after_cut by (now rewrite <- ED). now rewrite EW. }
  assert (EP : splices path (MethodDecl m) D = true).
  { rewrite ED, splices_cut by (now rewrite <- ED). exact EW. }
  assert (E1 : firstn start D = Q1)
    by (rewrite Es, ED; apply firstn_length_app).
  assert (E2 : skipn (S end_) D = M)
    by (rewrite Ee, ED, app_assoc; apply skipn_length_app).
  rewrite EA, EP, E1, E2, orb_true_r.
  repeat split; [now rewrite <- !app_assoc |].
  simpl new_block. unfold method_block. rewrite Hmo, Hs. simpl py_or.
  rewrite Hne.
  match goal with
  | |- summary_line (build_method_block ?a ?b ?c ?e ?f ?g) = _ =>
      destruct (build_method_block_shape a b c e f g) as (more & -> & _)
  end.
  reflexivity.
Qed.

Lemma C7_override_precedence_witness :
  exists m block st',
    classify (ln "public static Color ToColor(this string str, Color defaultColor)")
    = Some (MethodDecl m) /\
    process_line "Helpers/ColorHelper.cs" "" (mkState color_helper_buffer 3 None false)
    = Ok st' /\
    lines st' = (block ++ skipn 3 color_helper_buffer)%list /\
    changed st' = true /\
    summary_line block
    = ln "/// 문자열 표현을 Color로 변환합니다. 실패 시 기본 색을 반환합니다.".
Proof.
  destruct (classify (ln "public static Color ToColor(this string str, Color defaultColor)"))
    as [[m | m | m] |] eqn:Hx;
    try (vm_compute in Hx; discriminate).
  assert (Hn : grp 3 m = "ToColor") by (vm_compute in Hx; now injection Hx as <-).
  assert (Ho : match_override "Helpers/ColorHelper.cs" (grp 3 m) "method"
               = Some {| ov_summary := Some "문자열 표현을 Color로 변환합니다. 실패 시 기본 색을 반환합니다.";
                         ov_params := Some [ ("str", "색상 문자열");
                                             ("defaultColor", "파싱 실패 시 반환할 기본 색") ];
                         ov_returns := Some "변환된 색상 값" |})
    by (rewrite Hn; reflexivity).
  destruct (@C7_override_precedence "Helpers/ColorHelper.cs" ""
              (firstn 3 color_helper_buffer) []
              (ln "public static Color ToColor(this string str, Color defaultColor)")
              None false m _ 0 2 Hx Ho eq_refl eq_refl)
    as (summary & block & st' & Hs & Hp & Hl & _ & Hc & Hb).
  injection Hs as <-.
  exists m, block, st'. repeat split; assumption.
Defined.

(** ** A second run *)

Lemma doc_run_zero_of_locate_none (r : list string) :
  locate r = None -> doc_run r = 0.
Proof.
  destruct r as [| l r]; simpl; [reflexivity |].
  destruct (is_doc_line l); [discriminate | reflexivity].
Qed.

(** The line right above a located block is no [///] line. *)
Lemma locate_cut_top (Q1 B M : list string) :
  locate (rev (Q1 ++ B ++ M)%list) = Some (List.length M, List.length B) ->
  Forall (fun l => is_stepped_over l = true) M ->
  Forall (fun l => is_doc_line l = true) B ->
  doc_run (rev Q1) = 0.
Proof.
  intros H FM FB. rewrite !rev_app_distr, <- app_assoc in H.
  rewrite locate_stepped in H by (now apply Forall_rev).
  destruct (rev B) as [| l rb] eqn:Eb.
  - simpl in H.
    assert (List.length B = 0)
      by (rewrite <- (length_rev B), Eb; reflexivity).
    destruct (locate (rev Q1)) as [[m b] |] eqn:E; [| discriminate].
    injection H as Hm Hb.
    destruct (locate_bounds _ _ _ E). lia.
  - simpl in H.
    assert (Fl : Forall (fun l => is_doc_line l = true) (l :: rb))
      by (rewrite <- Eb; now apply Forall_rev).
    inversion Fl as [| ? ? Hl Frb]; subst.
    rewrite Hl in H. rewrite doc_run_app in H by assumption.
    injection H as Hb.
    assert (List.length B = S (List.length rb))
      by (rewrite <- (length_rev B), Eb; reflexivity).
    lia.
Qed.

(** A new block put right above the declaration is found whole by the
    next look. *)
Lemma locate_fresh_block (A G : list string) :
  G <> [] ->
  Forall (fun l => is_doc_line l = true) G ->
  doc_run (rev A) = 0 ->
  locate (rev (A ++ G ++ [])%list) = Some (List.length (@nil string), List.length G).
Proof.
  intros Hne FG HA. rewrite app_nil_r, rev_app_distr.
  pose proof (locate_block [] (rev G) (rev A) (Forall_nil _)
                (Forall_rev FG)) as H.
  simpl in H. rewrite length_rev in H. apply H; [| exact HA].
  intros E. apply Hne. rewrite <- (rev_involutive G), E. reflexivity.
Qed.

Lemma doc_run_stepped_last (A M : list string) :
  M <> [] ->
  Forall (fun l => is_stepped_over l = true) M ->
  doc_run (rev (A ++ M)%list) = 0.
Proof.
  intros Hne FM. rewrite rev_app_distr.
  destruct (rev M) as [| l rm] eqn:E.
  - exfalso. apply Hne. rewrite <- (rev_involutive M), E. reflexivity.
  - assert (Fl : Forall (fun l => is_stepped_over l = true) (l :: rm))
      by (rewrite <- E; now apply Forall_rev).
    inversion Fl as [| ? ? Hl _]; subst. simpl.
    unfold is_stepped_over in Hl. apply andb_true_iff in Hl.
    destruct Hl as [Hl _]. apply negb_true_iff in Hl. now rewrite Hl.
Qed.

Lemma new_block_nonempty (path text : string) ct d :
  new_block path text ct d <> [].
Proof.
  destruct d as [m | m | m]; simpl; try discriminate.
  unfold method_block.
  destruct (method_override path m);
    match goal with
    | |- build_method_block ?a ?b ?c ?e ?f ?g <> _ =>
        destruct (build_method_block_shape a b c e f g) as (more & -> & _)
    end; discriminate.
Qed.

Lemma Forall_firstn_skipn {A} (P : A -> Prop) (n : nat) (l : list A) :
  Forall P l -> Forall P (firstn n l) /\ Forall P (skipn n l).
Proof.
  intros H. rewrite <- (firstn_skipn n l) in H. now apply Forall_app in H.
Qed.

Section SecondRun.

Variables path text text' : string.

(** Processing a declaration a second time, with the other text, moves
    nothing. *)
Lemma above_after_again ct d (Q : list string) :
  same_block path text text' ct d ->
  above_after path text' ct d (above_after path text ct d Q)
  = above_after path text ct d Q.
Proof.
  intros Hsame.
  pose proof (new_block_doc path text ct d) as FG.
  pose proof (new_block_nonempty path text ct d) as NG.
  destruct (locate (rev Q)) as [[m b] |] eqn:EL.
  - destruct (locate_cut _ _ _ EL) as (Q1 & B & M & -> & Lm & Lb & _ & FM & FB).
    subst m b. rewrite (above_after_cut path text ct d Q1 B M EL).
    destruct (wants_replace path d (Str.cat B)) eqn:EW.
    + assert (HA : doc_run (rev (Q1 ++ M)%list) = 0).
      { destruct M as [| l M'].
        - rewrite app_nil_r. eapply locate_cut_top; eassumption.
        - apply doc_run_stepped_last; [discriminate | assumption]. }
      pose proof (locate_fresh_block (Q1 ++ M)%list _ NG FG HA) as EL'.
      pose proof (above_after_cut path text' ct d (Q1 ++ M)%list
                    (new_block path text ct d) [] EL') as E.
      rewrite app_nil_r in E. rewrite <- app_assoc in E. rewrite E.
      destruct (wants_replace path d (Str.cat (new_block path text ct d))) eqn:EW';
        [| reflexivity].
      rewrite (Hsame EW'). now rewrite <- app_assoc.
    + rewrite (above_after_cut path text' ct d Q1 B M EL). now rewrite EW.
  - assert (EQ : above_after path text ct d Q
                 = (Q ++ new_block path text ct d)%list)
      by (unfold above_after; now rewrite EL).
    rewrite EQ.
    pose proof (locate_fresh_block Q _ NG FG
                  (doc_run_zero_of_locate_none _ EL)) as EL'.
    pose proof (above_after_cut path text' ct d Q
                  (new_block path text ct d) [] EL') as E.
    rewrite app_nil_r in E. rewrite E.
    destruct (wants_replace path d (Str.cat (new_block path text ct d))) eqn:EW';
      [| reflexivity].
    now rewrite (Hsame EW').
Qed.

Lemma above_after_no_decl ct d (Q : list string) :
  Forall (fun l => classify l = None) Q ->
  Forall (fun l => classify l = None) (above_after path text ct d Q).
Proof.
  intros FQ.
  assert (FG : Forall (fun l => classify l = None) (new_block path text ct d)).
  { eapply Forall_impl; [| apply new_block_doc].
    intros l. apply doc_line_not_classified. }
  unfold above_after. destruct (locate (rev Q)) as [[m b] |].
  - destruct (wants_replace path d _); [| exact FQ].
    apply Forall_app. split; [now apply Forall_firstn_skipn |].
    apply Forall_app. split; [now apply Forall_firstn_skipn | exact FG].
  - apply Forall_app. now split.
Qed.

End SecondRun.

(** ** The generated summaries *)

Lemma findall_IDENT_PART_alnum fuel :
  forall prev s,
    Forall (fun m => Str.forallb Char.is_alnum m = true)
           (findall_from fuel IDENT_PART prev s).
Proof.
  induction fuel as [| fuel IH]; intros prev s; [constructor |].
  destruct s as [| c s']; [constructor |].
  rewrite findall_from_step.
  destruct (match_at IDENT_PART prev (String c s')) as [[prev' rest] |] eqn:E;
    [| apply IH].
  destruct (String.length rest <? String.length (String c s'))%nat; [| apply IH].
  constructor; [| apply IH].
  destruct (match_at_IDENT_PART_sound _ _ _ _ E) as (m & Es & _ & F).
  rewrite Es, consumed_append. exact F.
Qed.

Lemma split_identifier_alnum (name : string) :
  Forall (fun m => Str.forallb Char.is_alnum m = true) (split_identifier name).
Proof.
  unfold split_identifier, findall.
  pose proof (findall_IDENT_PART_alnum (String.length name) None name) as F.
  induction F as [| m l Hm _ IH]; simpl; [constructor |].
  destruct (Str.nonempty m); [constructor |]; assumption.
Qed.

Lemma to_korean_noun_chars (tokens : list string) :
  Forall (fun m => Str.forallb Char.is_alnum m = true) tokens ->
  Str.forallb is_noun_char (to_korean_noun tokens) = true.
Proof.
  unfold to_korean_noun.
  induction 1 as [| m l Hm Hl IH]; [reflexivity |].
  assert (Hm' : Str.forallb is_noun_char m = true).
  { eapply forallb_weaken; [| exact Hm]. intros c Hc.
    unfold is_noun_char. now rewrite Hc. }
  destruct l as [| m2 l]; [exact Hm' |].
  change (Str.forallb is_noun_char (m ++ " " ++ Str.join " " (m2 :: l)) = true).
  rewrite !forallb_append, Hm', IH. reflexivity.
Qed.

Lemma noun_of_name (name : string) :
  Str.forallb is_noun_char (to_korean_noun (split_identifier name)) = true /\
  Str.forallb is_noun_char (to_korean_noun (tl (split_identifier name))) = true.
Proof.
  pose proof (split_identifier_alnum name) as F.
  split; apply to_korean_noun_chars; [exact F |].
  destruct (split_identifier name); [constructor |].
  now inversion F.
Qed.

Lemma noun_char_facts (c : ascii) :
  is_noun_char c = true ->
  Ascii.eqb "/" c = false /\
  Char.is_linebreak c = false /\
  Ascii.eqb (ascii_of_nat 236) c = false.
Proof.
  destruct c as [[] [] [] [] [] [] [] []]; vm_compute;
    solve [intros; repeat split; reflexivity | intros; discriminate].
Qed.

Lemma mem_char_append c (a b : string) :
  Str.mem_char c (a ++ b) = Str.mem_char c a || Str.mem_char c b.
Proof.
  induction a as [| d a IH]; simpl; [reflexivity |].
  rewrite IH. now rewrite orb_assoc.
Qed.

(** A noun phrase in front of a plain text leaves it plain. *)
Lemma plain_summary_noun (noun lit : string) :
  Str.forallb is_noun_char noun = true ->
  plain_summary lit -> plain_summary (noun ++ lit).
Proof.
  intros Hn (H1 & H2 & H3). unfold plain_summary, unbroken in *.
  rewrite mem_char_append, forallb_append.
  assert (Hs : Str.mem_char "/" noun = false /\
               Str.forallb (fun c => negb (Char.is_linebreak c)) noun = true).
  { clear -Hn. induction noun as [| c noun IH]; [now split |].
    cbn [Str.forallb] in Hn. apply andb_true_iff in Hn. destruct Hn as [Hc Hn].
    destruct (noun_char_facts c Hc) as (E1 & E2 & _).
    destruct (IH Hn) as [I1 I2].
    cbn [Str.mem_char Str.forallb]. now rewrite E1, E2, I1, I2. }
  destruct Hs as [S1 S2]. rewrite S1, S2, H1, H2.
  repeat split. intros rest.
  destruct noun as [| c noun]; [apply H3 |].
  cbn [Str.forallb] in Hn. apply andb_true_iff in Hn. destruct Hn as [Hc _].
  destruct (noun_char_facts c Hc) as (_ & _ & E3).
  change (Ascii.eqb (ascii_of_nat 236) c
          && Str.startswith
               (String (ascii_of_nat 132) (String (ascii_of_nat 164) "명"))
               ((noun ++ lit) ++ rest) = false).
  now rewrite E3.
Qed.

(** Closed texts are checked by evaluation. *)
Ltac plain_literal :=
  split; [reflexivity | split; [reflexivity | intros; reflexivity]].

(** Every summary of the classifier is plain. *)
Lemma guess_summary_plain name kind file_text return_type decl_kind :
  plain_summary
    (guess_summary_for_member name kind file_text return_type decl_kind).
Proof.
  destruct (noun_of_name name) as [N1 N2].
  cbv beta zeta delta [guess_summary_for_member].
  repeat match goal with
         | |- context [if ?c then _ else _] => destruct c
         end;
    first [ plain_literal
          | apply plain_summary_noun; [assumption | plain_literal] ].
Qed.

Lemma contains_skip (c : ascii) (p s t : string) :
  Str.mem_char c s = false ->
  Str.contains (String c p) (s ++ t) = Str.contains (String c p) t.
Proof.
  induction s as [| a s IH]; [reflexivity |].
  cbn [Str.mem_char]. intros H. apply orb_false_iff in H. destruct H as [Ha Hs].
  change (Str.contains (String c p) (String a s ++ t))
    with (Str.startswith (String c p) (String a (s ++ t))
          || Str.contains (String c p) (s ++ t)).
  cbn [Str.startswith]. rewrite Ha, IH by assumption. reflexivity.
Qed.

(** Evaluate the comparisons of known characters. *)
Ltac eval_char_tests :=
  repeat match goal with
         | |- context [Ascii.eqb (Ascii ?a0 ?a1 ?a2 ?a3 ?a4 ?a5 ?a6 ?a7)
                                 (Ascii ?b0 ?b1 ?b2 ?b3 ?b4 ?b5 ?b6 ?b7)] =>
             let t := constr:(Ascii.eqb (Ascii a0 a1 a2 a3 a4 a5 a6 a7)
                                        (Ascii b0 b1 b2 b3 b4 b5 b6 b7)) in
             let v := eval vm_compute in t in
             change t with v
         end;
  cbn [andb orb].

Lemma summary_block_text (s : string) :
  Str.cat (build_summary_block s)
  = (ln "/// <summary>" ++ "/// " ++ s ++ Str.nl ++ ln "/// </summary>")%string.
Proof.
  unfold build_summary_block. cbn [Str.cat].
  rewrite append_nil_r. unfold ln. now rewrite !append_assoc.
Qed.

Lemma contains_cons (p : string) a (X : string) :
  Str.contains p (String a X) = Str.startswith p (String a X) || Str.contains p X.
Proof. reflexivity. Qed.

Lemma startswith_cons a (p : string) b (X : string) :
  Str.startswith (String a p) (String b X) = Ascii.eqb a b && Str.startswith p X.
Proof. reflexivity. Qed.

(** Step a substring search through the known head of a text. *)
Ltac search_known_head :=
  unfold ln, Str.nl, Str.dquote, Char.LF;
  change (ascii_of_nat 10) with "010"%char;
  change (ascii_of_nat 34) with "034"%char;
  cbn [append];
  repeat rewrite contains_cons;
  repeat rewrite startswith_cons;
  eval_char_tests.

(** A summary block built from a plain summary is no placeholder. *)
Lemma summary_block_not_placeholder (s : string) :
  plain_summary s ->
  is_placeholder (Str.cat (build_summary_block s)) = false.
Proof.
  intros (H1 & _ & H3). unfold is_placeholder.
  apply andb_false_iff. right.
  rewrite summary_block_text.
  search_known_head.
  rewrite H3, contains_skip by assumption.
  reflexivity.
Qed.

(** ** What a second run builds *)

(** For a method the classifier reads the file text through the converter
    cue only, and only under the two converter names. *)
Lemma guess_method_same name text text' rt dk :
  conv_cue text' = conv_cue text \/ is_converter_name name = false ->
  guess_summary_for_member name "method" text' rt dk
  = guess_summary_for_member name "method" text rt dk.
Proof.
  intros H. cbv beta zeta delta [guess_summary_for_member].
  change (String.eqb "method" "type") with false. cbv iota.
  change (Str.contains "IValueConverter" text'
          || Str.contains "System.Windows.Data" text') with (conv_cue text').
  change (Str.contains "IValueConverter" text
          || Str.contains "System.Windows.Data" text) with (conv_cue text).
  change (str_in name ["Convert"; "ConvertBack"]) with (is_converter_name name).
  destruct H as [-> | ->]; reflexivity.
Qed.

Lemma guess_interface_same name text text' rt :
  guess_summary_for_member name "type" text' rt (Some "interface")
  = guess_summary_for_member name "type" text rt (Some "interface").
Proof. reflexivity. Qed.

Lemma same_block_holds (path text text' : string) ct (d : decl) :
  match d with
  | MethodDecl m =>
      conv_cue text' = conv_cue text \/ is_converter_name (grp 3 m) = false
  | _ => True
  end ->
  same_block path text text' ct d.
Proof.
  unfold same_block. destruct d as [m | m | m]; intros H Hw.
  - cbn [wants_replace new_block] in Hw.
    rewrite summary_block_not_placeholder in Hw by apply guess_summary_plain.
    cbn [orb] in Hw. apply String.eqb_eq in Hw. cbn [new_block]. rewrite Hw.
    now rewrite (guess_interface_same (grp 3 m) text text').
  - cbn [new_block]. unfold method_block.
    now rewrite (guess_method_same (grp 3 m) text text' _ None H).
  - cbn [wants_replace new_block] in Hw.
    rewrite summary_block_not_placeholder in Hw by apply guess_summary_plain.
    discriminate.
Qed.

(** ** Reading the buffer back *)

Lemma unbroken_append (a b : string) :
  unbroken (a ++ b) = unbroken a && unbroken b.
Proof. apply forallb_append. Qed.

Lemma terminated_ln (b : string) : unbroken b = true -> terminated (ln b) = true.
Proof.
  unfold ln. induction b as [| c b IH]; [reflexivity |].
  unfold unbroken. cbn [Str.forallb]. intros H.
  apply andb_true_iff in H. destruct H as [Hc Hb].
  apply negb_true_iff in Hc. cbn [append terminated]. rewrite Hc. now apply IH.
Qed.

Lemma splitlines_step c s :
  Str.splitlines (String c s) =
  if Char.is_linebreak c then
    match s with
    | String d s'' =>
        if Ascii.eqb c Char.CR && Ascii.eqb d Char.LF
        then String c (String d EmptyString) :: Str.splitlines s''
        else String c EmptyString :: Str.splitlines s
    | EmptyString => [String c EmptyString]
    end
  else match Str.splitlines s with
       | l :: ls => String c l :: ls
       | [] => [String c EmptyString]
       end.
Proof. reflexivity. Qed.

Lemma linebreak_not_cr_lf c :
  Char.is_linebreak c = false ->
  Ascii.eqb c Char.CR = false /\ Ascii.eqb c Char.LF = false.
Proof.
  destruct c as [[] [] [] [] [] [] [] []]; vm_compute;
    solve [intros; split; reflexivity | intros; discriminate].
Qed.

(** A terminated line in front of a text is the first line read back. *)
Lemma splitlines_terminated (l s : string) :
  terminated l = true -> Str.splitlines (l ++ s) = l :: Str.splitlines s.
Proof.
  induction l as [| c l IH]; [discriminate |].
  cbn [terminated append]. rewrite splitlines_step.
  destruct (Char.is_linebreak c) eqn:Eb.
  - destruct (Ascii.eqb c Char.CR) eqn:Ec.
    + intros H. apply String.eqb_eq in H. subst l.
      apply Ascii.eqb_eq in Ec. subst c. reflexivity.
    + intros H. apply String.eqb_eq in H. subst l. cbn [append].
      destruct s as [| d s'']; [reflexivity |].
      cbn [andb]. reflexivity.
  - intros H. now rewrite (IH H).
Qed.

Lemma splitlines_unbroken (l : string) :
  Str.nonempty l = true -> unbroken l = true -> Str.splitlines l = [l].
Proof.
  induction l as [| c l IH]; [discriminate |]. intros _.
  unfold unbroken. cbn [Str.forallb]. intros H.
  apply andb_true_iff in H. destruct H as [Hc Hl].
  apply negb_true_iff in Hc. rewrite splitlines_step, Hc.
  destruct l as [| d l']; [reflexivity |].
  now rewrite IH.
Qed.

(** The lines of a text, put end to end, are the text. *)
Lemma cat_splitlines_fuel (n : nat) :
  forall text, String.length text <= n -> Str.cat (Str.splitlines text) = text.
Proof.
  induction n as [| n IH]; intros text Hlen.
  - destruct text; [reflexivity | simpl in Hlen; lia].
  - destruct text as [| c s]; [reflexivity |]. simpl in Hlen.
    rewrite splitlines_step.
    destruct (Char.is_linebreak c).
    + destruct s as [| d s'']; [reflexivity |]. simpl in Hlen.
      destruct (Ascii.eqb c Char.CR && Ascii.eqb d Char.LF);
        cbn [Str.cat append]; rewrite IH by (simpl; lia); reflexivity.
    + pose proof (IH s) as E.
      destruct (Str.splitlines s) as [| l ls].
      * cbn [Str.cat append]. cbn [Str.cat] in E. rewrite <- E by lia.
        reflexivity.
      * cbn [Str.cat append] in *. rewrite E by lia. reflexivity.
Qed.

Lemma cat_splitlines (text : string) : Str.cat (Str.splitlines text) = text.
Proof. apply (cat_splitlines_fuel (String.length text)). apply le_n. Qed.

(** ** New blocks are made of terminated lines *)

Lemma not_space_not_linebreak (c : ascii) :
  negb (Char.is_space c) = true -> negb (Char.is_linebreak c) = true.
Proof. by_all_chars c. Qed.

Lemma split_ws_tokens (s : string) :
  Forall (fun w => Str.forallb (fun c => negb (Char.is_space c)) w = true)
         (Str.split_ws s).
Proof.
  induction s as [| c s IH]; [constructor |].
  cbn [Str.split_ws]. destruct (Char.is_space c) eqn:Ec; [exact IH |].
  assert (H1 : Str.forallb (fun c => negb (Char.is_space c)) (String c "") = true)
    by (cbn [Str.forallb]; now rewrite Ec).
  destruct s as [| d s']; [now repeat constructor |].
  destruct (Char.is_space d); [now constructor |].
  destruct (Str.split_ws (String d s')) as [| w ws]; [now repeat constructor |].
  inversion IH as [| ? ? Hw Hws]; subst.
  constructor; [| exact Hws]. cbn [Str.forallb]. now rewrite Ec, Hw.
Qed.

Lemma lstrip_forallb f (s : string) :
  Str.forallb f s = true -> Str.forallb f (Str.lstrip s) = true.
Proof.
  induction s as [| c s IH]; [reflexivity |].
  cbn [Str.lstrip]. destruct (Char.is_space c); [| trivial].
  cbn [Str.forallb]. intros H. apply andb_true_iff in H. now apply IH.
Qed.

Lemma strip_forallb f (s : string) :
  Str.forallb f s = true -> Str.forallb f (Str.strip s) = true.
Proof.
  intros H. unfold Str.strip, Str.rstrip.
  rewrite rev_forallb. apply lstrip_forallb. rewrite rev_forallb.
  now apply lstrip_forallb.
Qed.

Lemma last_Forall {A} (P : A -> Prop) (l : list A) d :
  Forall P l -> P d -> P (List.last l d).
Proof.
  induction 1 as [| a l Ha Hl IH]; intros Hd; [exact Hd |].
  destruct l; [exact Ha |]. now apply IH.
Qed.

Lemma filter_Forall {A} (P : A -> Prop) f (l : list A) :
  Forall P l -> Forall P (List.filter f l).
Proof.
  induction 1 as [| a l Ha _ IH]; simpl; [constructor |].
  destruct (f a); [now constructor | assumption].
Qed.

Lemma dict_get_value (P : string -> Prop) k (d : list (string * string)) v :
  Forall (fun kv => P (snd kv)) d -> dict_get k d = Some v -> P v.
Proof.
  intros F H. apply dict_get_In in H.
  rewrite Forall_forall in F. exact (F _ H).
Qed.

Lemma param_korean_desc_unbroken (name : string) :
  unbroken (param_korean_desc name) = true.
Proof.
  unfold param_korean_desc.
  destruct (dict_get (Str.lower name) param_mapping) as [v |] eqn:E;
    [| reflexivity].
  revert E. apply (dict_get_value (fun v => unbroken v = true)). repeat constructor.
Qed.

Lemma param_line_terminated po p l :
  params_ok po -> param_line po p = Some l -> terminated l = true.
Proof.
  intros Hpo. unfold param_line.
  destruct (negb (Str.nonempty p)); [discriminate |].
  set (parts := List.filter _ _).
  assert (Fp : Forall (fun w => unbroken w = true) parts).
  { apply filter_Forall. eapply Forall_impl; [| apply split_ws_tokens].
    intros w Hw. unfold unbroken. eapply forallb_weaken; [| exact Hw].
    apply not_space_not_linebreak. }
  assert (Hl : unbroken (Str.strip (List.last parts "")) = true).
  { unfold unbroken. apply strip_forallb.
    apply (last_Forall (fun w => unbroken w = true)); [exact Fp | reflexivity]. }
  revert Hl. generalize (Str.strip (List.last parts "")). intros last Hl.
  destruct parts as [| w ws]; [discriminate |].
  intros E.
  apply (f_equal (fun o => match o with Some x => x | None => EmptyString end)) in E.
  cbv beta iota in E. subst l.
  match goal with
  | |- terminated (_ ++ _ ++ _ ++ _ ++ _ ++ ?desc ++ _ ++ _) = true =>
      assert (Hd : unbroken desc = true)
  end.
  { destruct po as [d |]; [| apply param_korean_desc_unbroken].
    destruct (negb (dict_empty d)); [| apply param_korean_desc_unbroken].
    destruct (dict_get last d) as [v |] eqn:E;
      [| apply param_korean_desc_unbroken].
    revert E. apply (dict_get_value (fun v => unbroken v = true)). exact Hpo. }
  match goal with
  | |- terminated (?a ++ ?b ++ ?c ++ ?d ++ ?e ++ ?f ++ ?g ++ Str.nl) = true =>
      change (terminated (ln (a ++ b ++ c ++ d ++ e ++ f ++ g)) = true)
        || (replace (a ++ b ++ c ++ d ++ e ++ f ++ g ++ Str.nl)%string
              with (ln (a ++ b ++ c ++ d ++ e ++ f ++ g))
              by (unfold ln; now rewrite !append_assoc))
  end.
  apply terminated_ln. rewrite !unbroken_append, Hl, Hd. reflexivity.
Qed.

Lemma return_desc_unbroken (summary : string) :
  unbroken (return_korean_desc_by_name summary) = true.
Proof.
  unfold return_korean_desc_by_name.
  repeat match goal with
         | |- context [if ?c then _ else _] => destruct c
         end; reflexivity.
Qed.

Lemma py_or_unbroken (a : option string) (b : string) :
  text_ok a -> unbroken b = true -> unbroken (py_or a b) = true.
Proof.
  unfold py_or, text_ok. destruct a as [s |]; [| trivial].
  destruct (Str.nonempty s); trivial.
Qed.

Lemma summary_block_terminated (summary : string) :
  unbroken summary = true ->
  Forall (fun l => terminated l = true) (build_summary_block summary).
Proof.
  intros H. unfold build_summary_block. repeat constructor.
  change (terminated (ln ("/// " ++ summary)) = true).
  apply terminated_ln. rewrite unbroken_append, H. reflexivity.
Qed.

Lemma build_method_block_terminated summary ret params hint po ro :
  unbroken summary = true -> text_ok hint -> params_ok po -> text_ok ro ->
  Forall (fun l => terminated l = true)
         (build_method_block summary ret params hint po ro).
Proof.
  intros Hs Hh Hpo Hro. unfold build_method_block.
  set (ps := if Str.nonempty (Str.strip params) then _ else _).
  assert (F : forall acc,
             Forall (fun l => terminated l = true) acc ->
             Forall (fun l => terminated l = true)
               (fold_left
                  (fun block p =>
                     match param_line po p with
                     | Some l => (block ++ [l])%list
                     | None => block
                     end) ps acc)).
  { clear -Hpo. induction ps as [| p ps IH]; intros acc Hacc; [exact Hacc |].
    simpl. destruct (param_line po p) as [l |] eqn:E; [| now apply IH].
    apply IH. apply Forall_app. split; [exact Hacc |].
    constructor; [| constructor]. eapply param_line_terminated; eassumption. }
  specialize (F _ (summary_block_terminated summary Hs)).
  destruct (Str.nonempty ret && negb (String.eqb ret "void")); [| exact F].
  apply Forall_app. split; [exact F |]. constructor; [| constructor].
  match goal with
  | |- terminated (?a ++ ?b ++ ?c ++ Str.nl) = true =>
      replace (a ++ b ++ c ++ Str.nl)%string with (ln (a ++ b ++ c))
        by (unfold ln; now rewrite !append_assoc)
  end.
  apply terminated_ln. rewrite !unbroken_append.
  rewrite py_or_unbroken; [reflexivity | exact Hro |].
  apply py_or_unbroken; [exact Hh | apply return_desc_unbroken].
Qed.

(** The texts of the override table hold no line boundary. *)
Lemma entries_unbroken name o :
  In (name, o) entries ->
  text_ok (ov_summary o) /\ params_ok (ov_params o) /\ text_ok (ov_returns o).
Proof.
  simpl. intros H.
  repeat destruct H as [H | H]; try contradiction;
    injection H as _ <-; simpl; repeat split; repeat constructor.
Qed.

Lemma new_block_terminated (path text : string) ct d :
  Forall (fun l => terminated l = true) (new_block path text ct d).
Proof.
  destruct d as [m | m | m]; cbn [new_block];
    try (apply summary_block_terminated; apply guess_summary_plain).
  unfold method_block.
  match goal with
  | |- context [build_method_block _ _ _ ?h _ _] => set (hint := h)
  end.
  assert (Hh : text_ok hint)
    by (unfold hint;
        match goal with |- text_ok (if ?c then _ else _) => destruct c end;
        reflexivity).
  destruct (method_override path m) as [o |] eqn:E.
  - assert (Hin : In (grp 3 m, o) entries).
    { unfold method_override in E.
      destruct (match_override path (grp 3 m) "method") as [o' |] eqn:E';
        [| discriminate].
      destruct (override_truthy o'); [| discriminate].
      injection E as <-. eapply match_override_entries; exact E'. }
    destruct (entries_unbroken _ _ Hin) as (H1 & H2 & H3).
    apply build_method_block_terminated; try assumption.
    apply py_or_unbroken; [exact H1 | apply guess_summary_plain].
  - apply build_method_block_terminated; try exact I; try assumption.
    apply guess_summary_plain.
Qed.


(** ** A line feed after the final carriage return *)

Section RunFacts.

Variable R : Type.

(** Running depends on the continuation through its values only. *)
Lemma run_ext (r : re) :
  forall prev s caps (k1 k2 : kont R),
    (forall p u c, k1 p u c = k2 p u c) ->
    run r prev s caps k1 = run r prev s caps k2.
Proof.
  induction r as [| p | a IHa b IHb | a IHa b IHb | a IHa | n a IHa | a IHa | | |];
    intros prev s caps k1 k2 H; cbn [run]; try (now rewrite H).
  - destruct s as [| c s']; [reflexivity |]. now rewrite H.
  - apply IHa. intros p u c. now apply IHb.
  - now rewrite (IHa _ _ _ k1 k2 H), (IHb _ _ _ k1 k2 H).
  - generalize (String.length s) as n. intros n. revert prev s caps.
    induction n as [| n IHn]; intros prev s caps; [apply H |].
    rewrite H.
    erewrite IHa; [reflexivity |].
    intros p u c. cbv beta. now rewrite IHn.
  - apply IHa. intros p u c. apply H.
Qed.

(** The repetition is its loop fuelled with the length of the subject. *)
Lemma run_star (a : re) prev s caps (k : kont R) :
  run (Star a) prev s caps k = star_loop a k (String.length s) prev s caps.
Proof.
  cbn [run]. generalize (String.length s) as n. intros n. revert prev s caps.
  induction n as [| n IHn]; intros prev s caps; [reflexivity |].
  cbn [star_loop].
  erewrite run_ext; [reflexivity |].
  intros p u c. cbv beta. now rewrite IHn.
Qed.


(** Whoever fails at the end still fails there behind any pattern. *)
Lemma run_fails_at_end (r : re) :
  forall k : kont R,
    (fails_at_end k -> fails_at_end (fun p s c => run r p s c k)) /\
    (fails_at_ends k -> fails_at_ends (fun p s c => run r p s c k)).
Proof.
  induction r as [| p | a IHa b IHb | a IHa b IHb | a IHa | n a IHa | a IHa | | |];
    intros k.
  - split; intros H c; apply H.
  - split; intros H c; cbn [run]; [reflexivity |].
    split; [| reflexivity].
    unfold Str.nl. destruct (p Char.LF); [apply H | reflexivity].
  - split; intros H.
    + apply (proj1 (IHa _)). apply (proj1 (IHb k)). exact H.
    + apply (proj2 (IHa _)). apply (proj2 (IHb k)). exact H.
  - split; intros H c; cbn [run].
    + now rewrite (proj1 (IHa k) H c), (proj1 (IHb k) H c).
    + destruct (proj2 (IHa k) H c) as [A1 A2].
      destruct (proj2 (IHb k) H c) as [B1 B2].
      now rewrite A1, A2, B1, B2.
  - split; intros H c; cbv beta.
    + rewrite run_star. apply H.
    + split; rewrite run_star; [| apply H].
      cbn [String.length Str.nl star_loop].
      match goal with
      | |- match run a _ _ _ ?K with _ => _ end = _ =>
          assert (HK : fails_at_ends K)
      end.
      { intros c'. split; [reflexivity |]. cbn. apply H. }
      rewrite (proj1 (proj2 (IHa _) HK c)). apply H.
  - split; intros H.
    + intros c. cbn [run].
      apply (proj1 (IHa (fun p' s' c' => k p' s' ((n, consumed "" s') :: c')))).
      intros c'. apply H.
    + intros c. cbn [run]. split.
      * apply (proj2 (IHa (fun p' s' c' => k p' s' ((n, consumed Str.nl s') :: c')))).
        intros c'. split; apply H.
      * apply (proj2 (IHa (fun p' s' c' => k p' s' ((n, consumed "" s') :: c')))).
        intros c'. split; apply H.
  - split; intros H c; cbn [run].
    + destruct (run a _ _ _ _); [reflexivity | apply H].
    + split; destruct (run a _ _ _ _); try reflexivity; apply H.
  - split; intros H c; cbn [run is_none]; [reflexivity | split; reflexivity].
  - split; intros H c; cbn [run].
    + cbn [at_eol]. apply H.
    + split.
      * change (at_eol Str.nl) with true. cbv iota. apply H.
      * cbn [at_eol]. apply H.
  - split; intros H c; cbn [run].
    + change (at_wordb (Some Char.CR) "") with false. reflexivity.
    + split.
      * change (at_wordb (Some Char.CR) Str.nl) with false. reflexivity.
      * change (at_wordb (Some Char.LF) "") with false. reflexivity.
Qed.

(** An anchored pattern fails at the end whatever follows. *)
Lemma anchored_fails (r : re) :
  anchored r = true ->
  forall k : kont R,
    fails_at_end (fun p s c => run r p s c k) /\
    fails_at_ends (fun p s c => run r p s c k).
Proof.
  induction r as [| p | a IHa b IHb | a IHa b IHb | a IHa | n a IHa | a IHa | | |];
    cbn [anchored]; intros Ha k; try discriminate.
  - unfold safe_cls in Ha. apply andb_true_iff in Ha. destruct Ha as [_ Hlf].
    apply negb_true_iff in Hlf.
    split; intros c; cbn [run]; [reflexivity |].
    split; [| reflexivity]. unfold Str.nl. now rewrite Hlf.
  - apply orb_true_iff in Ha. destruct Ha as [Ha | Hb].
    + destruct (IHa Ha (fun p s c => run b p s c k)) as [H1 H2].
      split; assumption.
    + destruct (IHb Hb k) as [H1 H2]. split.
      * apply (proj1 (run_fails_at_end a _)). exact H1.
      * apply (proj2 (run_fails_at_end a _)). exact H2.
  - apply andb_true_iff in Ha. destruct Ha as [Ha Hb].
    destruct (IHa Ha k) as [A1 A2]. destruct (IHb Hb k) as [B1 B2].
    split; intros c; cbn [run].
    + now rewrite (A1 c), (B1 c).
    + destruct (A2 c) as [A3 A4]. destruct (B2 c) as [B3 B4].
      cbv beta in *. now rewrite A3, A4, B3, B4.
  - split.
    + intros c. cbn [run]. apply (IHa Ha).
    + intros c. cbn [run]. split; apply (IHa Ha).
  - split; intros c; cbn [run is_none]; [reflexivity | split; reflexivity].
  - split; intros c; cbn [run].
    + change (at_wordb (Some Char.CR) "") with false. reflexivity.
    + split.
      * change (at_wordb (Some Char.CR) Str.nl) with false. reflexivity.
      * change (at_wordb (Some Char.LF) "") with false. reflexivity.
Qed.


Lemma ends_cr_cons c u :
  ends_cr (String c u) = true ->
  (u = EmptyString /\ c = Char.CR) \/
  (u <> EmptyString /\ Ascii.eqb c Char.CR = false /\
   Ascii.eqb c Char.LF = false /\ ends_cr u = true).
Proof.
  cbn [ends_cr]. destruct u as [| d u'].
  - intros H. left. split; [reflexivity |]. now apply Ascii.eqb_eq.
  - intros H. apply andb_true_iff in H. destruct H as [H Hu].
    apply andb_true_iff in H. destruct H as [H1 H2].
    apply negb_true_iff in H1, H2. right. repeat split; try assumption.
    discriminate.
Qed.

Lemma ends_cr_length u : ends_cr u = true -> 1 <= String.length u.
Proof. destruct u; [discriminate | simpl; lia]. Qed.

Lemma ends_cr_not_eol u :
  ends_cr u = true -> at_eol u = false /\ at_eol (u ++ Str.nl) = false.
Proof.
  destruct u as [| c u]; [discriminate |]. intros H.
  destruct (ends_cr_cons _ _ H) as [[-> ->] | (Hne & _ & _ & _)].
  - split; reflexivity.
  - destruct u as [| d u]; [congruence |]. split; reflexivity.
Qed.

Lemma ends_cr_wordb p u :
  ends_cr u = true -> at_wordb p (u ++ Str.nl) = at_wordb p u.
Proof. destruct u; [discriminate | reflexivity]. Qed.

Lemma take_append_le n (u t : string) :
  n <= String.length u -> take n (u ++ t) = take n u.
Proof.
  revert n. induction u as [| c u IH]; intros n H.
  - simpl in H. assert (n = 0) by lia. subst. destruct t; reflexivity.
  - destruct n as [| n]; [reflexivity |]. simpl in *. f_equal. apply IH. lia.
Qed.

Lemma consumed_both (u u2 t : string) :
  consumed (u ++ t) (u2 ++ t) = consumed u u2.
Proof.
  unfold consumed. rewrite !length_append.
  replace (String.length u + String.length t
           - (String.length u2 + String.length t))
    with (String.length u - String.length u2) by lia.
  apply take_append_le. lia.
Qed.

Lemma star_loop_S (a : re) (k : kont R) n prev s caps :
  star_loop a k (S n) prev s caps =
  match run a prev s caps
          (fun prev' s' caps' =>
             if (String.length s' <? String.length s)%nat
             then star_loop a k n prev' s' caps' else None) with
  | Some x => Some x
  | None => k prev s caps
  end.
Proof. reflexivity. Qed.

(** The loop of a repetition fails at the end when what follows does. *)
Lemma star_loop_fails_at_end (a : re) (k : kont R) :
  fails_at_end k ->
  forall m c, star_loop a k m (Some Char.CR) EmptyString c = None.
Proof.
  intros H m c. destruct m as [| m]; cbn [star_loop]; [apply H |].
  match goal with
  | |- match run a _ _ _ ?K with _ => _ end = _ =>
      assert (HK : fails_at_end K) by (intros c'; reflexivity)
  end.
  rewrite (proj1 (run_fails_at_end a _) HK c). apply H.
Qed.

Lemma star_loop_fails_at_ends (a : re) (k : kont R) :
  fails_at_ends k ->
  forall m c, star_loop a k m (Some Char.CR) Str.nl c = None /\
              star_loop a k m (Some Char.LF) EmptyString c = None.
Proof.
  intros H.
  assert (H2 : forall m c, star_loop a k m (Some Char.LF) EmptyString c = None).
  { intros m c. destruct m as [| m]; cbn [star_loop]; [apply H |].
    match goal with
    | |- match run a _ _ _ ?K with _ => _ end = _ =>
        assert (HK : fails_at_ends K) by (intros c'; split; reflexivity)
    end.
    rewrite (proj2 (proj2 (run_fails_at_end a _) HK c)). apply H. }
  intros m c. split; [| apply H2].
  destruct m as [| m]; cbn [star_loop]; [apply H |].
  match goal with
  | |- match run a _ _ _ ?K with _ => _ end = _ =>
      assert (HK : fails_at_ends K)
  end.
  { intros c'. split; [reflexivity |]. cbn. apply H2. }
  rewrite (proj1 (proj2 (run_fails_at_end a _) HK c)). apply H.
Qed.

(** Behind a continuation that fails at the end, a pattern without
    lookahead matches the two subjects alike from the inside. *)
Lemma sim_strict (r : re) :
  no_lookahead r = true ->
  forall k k' : kont R,
    agree_inside k k' -> fails_at_end k -> fails_at_ends k' ->
    agree_inside (fun p s c => run r p s c k) (fun p s c => run r p s c k').
Proof.
  induction r as [| cls | a IHa b IHb | a IHa b IHb | a IHa | n a IHa | a IHa | | |];
    cbn [no_lookahead]; intros Hr k k' HA HE HE'; try discriminate.
  - exact HA.
  - intros p u c Hu. cbn [run].
    destruct u as [| ch u]; [discriminate |]. cbn [append].
    destruct (ends_cr_cons _ _ Hu) as [[-> ->] | (Hne & _ & _ & Hu')].
    + cbn [append]. destruct (cls Char.CR); [| reflexivity].
      now rewrite (proj1 (HE' c)), (HE c).
    + destruct (cls ch); [| reflexivity]. now apply HA.
  - apply andb_true_iff in Hr. destruct Hr as [Hra Hrb].
    intros p u c Hu. cbn [run].
    apply (IHa Hra (fun p s c => run b p s c k) (fun p s c => run b p s c k'));
      [ apply IHb; assumption
      | apply (proj1 (run_fails_at_end b k)); assumption
      | apply (proj2 (run_fails_at_end b k')); assumption
      | exact Hu ].
  - apply andb_true_iff in Hr. destruct Hr as [Hra Hrb].
    intros p u c Hu. cbn [run].
    rewrite (IHa Hra k k' HA HE HE' p u c Hu).
    now rewrite (IHb Hrb k k' HA HE HE' p u c Hu).
  - assert (L : forall m p u c,
               ends_cr u = true -> String.length u <= m ->
               star_loop a k' (S m) p (u ++ Str.nl) c = star_loop a k m p u c).
    { induction m as [| m IHm]; intros p u c Hu Hlen.
      - pose proof (ends_cr_length _ Hu). lia.
      - rewrite (star_loop_S a k' (S m)), (star_loop_S a k m).
        match goal with
        | |- match run a _ _ _ ?K' with _ => _ end
             = match run a _ _ _ ?K with _ => _ end =>
            assert (HK : agree_inside K K');
            [| assert (HKe : fails_at_end K);
               [| assert (HKe' : fails_at_ends K')]]
        end.
        + intros p2 u2 c2 Hu2. cbv beta. rewrite !length_append.
          replace (String.length u2 + String.length Str.nl
                   <? String.length u + String.length Str.nl)%nat
            with (String.length u2 <? String.length u)%nat
            by (simpl; destruct (Nat.ltb_spec (String.length u2) (String.length u));
                symmetry; [apply Nat.ltb_lt | apply Nat.ltb_ge]; lia).
          destruct (Nat.ltb_spec (String.length u2) (String.length u));
            [| reflexivity].
          apply IHm; [exact Hu2 | lia].
        + intros c2. cbv beta.
          destruct (String.length "" <? String.length u)%nat; [| reflexivity].
          now apply star_loop_fails_at_end.
        + intros c2. cbv beta. split.
          * destruct (String.length Str.nl <? String.length (u ++ Str.nl))%nat;
              [| reflexivity].
            now apply star_loop_fails_at_ends.
          * destruct (String.length "" <? String.length (u ++ Str.nl))%nat;
              [| reflexivity].
            now apply star_loop_fails_at_ends.
        + rewrite (IHa Hr _ _ HK HKe HKe' p u c Hu).
          now rewrite (HA p u c Hu). }
    intros p u c Hu. rewrite !run_star, length_append.
    replace (String.length u + String.length Str.nl) with (S (String.length u))
      by (simpl; lia).
    now apply L.
  - intros p u c Hu. cbn [run].
    apply (IHa Hr
             (fun p' s' c' => k p' s' ((n, consumed u s') :: c'))
             (fun p' s' c' => k' p' s' ((n, consumed (u ++ Str.nl) s') :: c')));
      [ | | | exact Hu ].
    + intros p2 u2 c2 Hu2. rewrite consumed_both. now apply HA.
    + intros c2. apply HE.
    + intros c2. split; apply HE'.
  - intros p u c Hu. cbn [run]. destruct (is_none p); [now apply HA | reflexivity].
  - intros p u c Hu. cbn [run].
    destruct (ends_cr_not_eol _ Hu) as [E1 E2]. now rewrite E1, E2.
  - intros p u c Hu. cbn [run]. rewrite ends_cr_wordb by exact Hu.
    destruct (at_wordb p u); [now apply HA | reflexivity].
Qed.


(** The loop over one class at the end of the subject. *)
Lemma star_cls_at_empty cls (k : kont R) m p c :
  star_loop (Cls cls) k m p EmptyString c = k p EmptyString c.
Proof. destruct m; reflexivity. Qed.

Lemma star_cls_at_end cls (k k' : kont R) :
  agree_at_end k k' -> agree_past_end k k' ->
  forall m c,
    star_loop (Cls cls) k' (S m) (Some Char.CR) Str.nl c
    = k (Some Char.CR) EmptyString c.
Proof.
  intros HB HC m c. rewrite star_loop_S.
  assert (E : run (Cls cls) (Some Char.CR) Str.nl c
                (fun prev' s' caps' =>
                   if (String.length s' <? String.length Str.nl)%nat
                   then star_loop (Cls cls) k' m prev' s' caps' else None)
              = if cls Char.LF then k (Some Char.CR) "" c else None).
  { unfold Str.nl. cbn [run]. destruct (cls Char.LF); [| reflexivity].
    change (String.length "" <? String.length (String Char.LF ""))%nat with true.
    cbv iota. now rewrite star_cls_at_empty, HC. }
  rewrite E, (HB c).
  destruct (cls Char.LF); [| reflexivity].
  now destruct (k (Some Char.CR) "" c).
Qed.

Lemma star_cls_inside cls (k k' : kont R) :
  agree_inside k k' -> agree_at_end k k' -> agree_past_end k k' ->
  forall m p u c,
    ends_cr u = true -> String.length u <= m ->
    star_loop (Cls cls) k' (S m) p (u ++ Str.nl) c
    = star_loop (Cls cls) k m p u c.
Proof.
  intros HA HB HC. induction m as [| m IHm]; intros p u c Hu Hlen.
  - pose proof (ends_cr_length _ Hu). lia.
  - rewrite (star_loop_S (Cls cls) k' (S m)), (star_loop_S (Cls cls) k m).
    rewrite (HA p u c Hu).
    destruct u as [| ch u]; [discriminate |]. cbn [append run].
    destruct (cls ch); [| reflexivity].
    assert (L1 : (String.length (u ++ Str.nl)
                  <? String.length (String ch (u ++ Str.nl)))%nat = true)
      by (apply Nat.ltb_lt; simpl; lia).
    assert (L2 : (String.length u <? String.length (String ch u))%nat = true)
      by (apply Nat.ltb_lt; simpl; lia).
    rewrite L1, L2.
    destruct (ends_cr_cons _ _ Hu) as [[-> ->] | (Hne & _ & _ & Hu')].
    + cbn [append]. rewrite (star_cls_at_end cls k k' HB HC).
      now rewrite star_cls_at_empty.
    + rewrite IHm; [reflexivity | exact Hu' | simpl in Hlen; lia].
Qed.

(** A tolerant pattern keeps the three agreements. *)
Lemma sim_tolerant (r : re) :
  tolerant r = true ->
  forall k k' : kont R,
    agree_inside k k' -> agree_at_end k k' -> agree_past_end k k' ->
    agree_inside (fun p s c => run r p s c k) (fun p s c => run r p s c k') /\
    agree_at_end (fun p s c => run r p s c k) (fun p s c => run r p s c k') /\
    agree_past_end (fun p s c => run r p s c k) (fun p s c => run r p s c k').
Proof.
  induction r as [| cls | a IHa b IHb | a IHa b IHb | a IHa | n a IHa | a IHa | | |];
    cbn [tolerant]; intros Hr k k' HA HB HC; try discriminate.
  - repeat split; assumption.
  - unfold safe_cls in Hr. apply andb_true_iff in Hr. destruct Hr as [Hcr Hlf].
    apply negb_true_iff in Hcr, Hlf.
    split; [| split].
    + intros p u c Hu. cbn [run].
      destruct u as [| ch u]; [discriminate |]. cbn [append].
      destruct (ends_cr_cons _ _ Hu) as [[-> ->] | (Hne & _ & _ & Hu')].
      * now rewrite Hcr.
      * destruct (cls ch); [now apply HA | reflexivity].
    + intros c. cbn [run]. unfold Str.nl. now rewrite Hlf.
    + intros c. reflexivity.
  - apply andb_true_iff in Hr. destruct Hr as [Hra Hrb].
    destruct (IHb Hrb k k' HA HB HC) as (A1 & B1 & C1).
    exact (IHa Hra _ _ A1 B1 C1).
  - apply andb_true_iff in Hr. destruct Hr as [Hra Hrb].
    destruct (IHa Hra k k' HA HB HC) as (A1 & B1 & C1).
    destruct (IHb Hrb k k' HA HB HC) as (A2 & B2 & C2).
    split; [| split].
    + intros p u c Hu. cbn [run]. now rewrite (A1 p u c Hu), (A2 p u c Hu).
    + intros c. cbn [run]. now rewrite (B1 c), (B2 c).
    + intros c. cbn [run]. now rewrite (C1 c), (C2 c).
  - destruct a as [| cls | | | | | | | |]; try discriminate.
    split; [| split].
    + intros p u c Hu. cbv beta. rewrite !run_star, length_append.
      replace (String.length u + String.length Str.nl) with (S (String.length u))
        by (simpl; lia).
      now apply star_cls_inside.
    + intros c. cbv beta. rewrite !run_star.
      change (String.length Str.nl) with 1. change (String.length "") with 0.
      rewrite (star_cls_at_end cls k k' HB HC). reflexivity.
    + intros c. cbv beta. rewrite !run_star. cbn [String.length star_loop].
      apply HC.
  - split; [| split].
    + intros p u c Hu. cbn [run]. destruct (is_none p); [now apply HA | reflexivity].
    + intros c. reflexivity.
    + intros c. reflexivity.
  - split; [| split].
    + intros p u c Hu. cbn [run].
      destruct (ends_cr_not_eol _ Hu) as [E1 E2]. now rewrite E1, E2.
    + intros c. cbn [run]. change (at_eol Str.nl) with true.
      change (at_eol "") with true. cbv iota. apply HB.
    + intros c. cbn [run at_eol]. apply HC.
  - split; [| split].
    + intros p u c Hu. cbn [run]. rewrite ends_cr_wordb by exact Hu.
      destruct (at_wordb p u); [now apply HA | reflexivity].
    + intros c. cbn [run].
      change (at_wordb (Some Char.CR) Str.nl) with false.
      change (at_wordb (Some Char.CR) "") with false. reflexivity.
    + intros c. cbn [run].
      change (at_wordb (Some Char.LF) "") with false.
      change (at_wordb (Some Char.CR) "") with false. reflexivity.
Qed.

(** An insensitive pattern matches the two subjects alike. *)
Lemma sim_insensitive (r : re) :
  insensitive r = true ->
  forall k k' : kont R,
    agree_inside k k' -> agree_at_end k k' -> agree_past_end k k' ->
    agree_inside (fun p s c => run r p s c k) (fun p s c => run r p s c k').
Proof.
  induction r as [| cls | a IHa b IHb | a IHa b IHb | a IHa | n a IHa | a IHa | | |];
    intros Hr k k' HA HB HC;
    try (apply sim_tolerant; try assumption;
         cbn [insensitive] in Hr; now rewrite orb_false_r in Hr).
  cbn [insensitive] in Hr. apply orb_true_iff in Hr.
  destruct Hr as [Hr | Hr]; [now apply sim_tolerant |].
  apply andb_true_iff in Hr. destruct Hr as [Hr Hb].
  apply andb_true_iff in Hr. destruct Hr as [Hna Hab].
  intros p u c Hu. cbn [run].
  destruct (anchored_fails b Hab k) as [E1 _].
  destruct (anchored_fails b Hab k') as [_ E2].
  exact (sim_strict a Hna _ _ (IHb Hb k k' HA HB HC) E1 E2 p u c Hu).
Qed.

End RunFacts.

(** Mapping the result commutes with running. *)
Lemma run_map {R1 R2 : Type} (f : R1 -> R2) (r : re) :
  forall prev s caps (k : kont R1),
    run r prev s caps (fun p u c => option_map f (k p u c))
    = option_map f (run r prev s caps k).
Proof.
  induction r as [| cls | a IHa b IHb | a IHa b IHb | a IHa | n a IHa | a IHa | | |];
    intros prev s caps k; cbn [run]; try reflexivity.
  - destruct s as [| ch s]; [reflexivity |]. now destruct (cls ch).
  - rewrite <- IHa. apply run_ext. intros p u c. apply IHb.
  - rewrite IHa, IHb. now destruct (run a prev s caps k).
  - change (run (Star a) prev s caps (fun p u c => option_map f (k p u c))
            = option_map f (run (Star a) prev s caps k)).
    rewrite !run_star. generalize (String.length s) as m. intros m.
    revert prev s caps.
    induction m as [| m IHm]; intros prev s caps; [reflexivity |].
    rewrite !star_loop_S.
    set (K := fun prev' s' caps' =>
                if (String.length s' <? String.length s)%nat
                then star_loop a k m prev' s' caps' else None).
    match goal with
    | |- match run a prev s caps ?K2 with _ => _ end = _ =>
        assert (E : run a prev s caps K2 = option_map f (run a prev s caps K))
    end.
    { rewrite <- IHa. apply run_ext. intros p u c. unfold K.
      destruct (String.length u <? String.length s)%nat; [apply IHm | reflexivity]. }
    rewrite E. destruct (run a prev s caps K); reflexivity.
  - rewrite <- IHa. reflexivity.
  - now destruct (run a prev s caps (fun _ _ _ => Some tt)).
  - now destruct (is_none prev).
  - now destruct (at_eol s).
  - now destruct (at_wordb prev s).
Qed.

(** An insensitive pattern captures the same from a line that ends in a
    bare CR and from that line with a LF after it. *)
Lemma match_with_lf (r : re) (a : string) :
  insensitive r = true -> ends_cr a = true ->
  option_map snd (match_ r (a ++ Str.nl)) = option_map snd (match_ r a).
Proof.
  intros Hr Ha. unfold match_.
  rewrite <- !(run_map (@snd string captures)).
  cbn [option_map snd].
  apply (sim_insensitive captures r Hr
           (fun _ _ c => Some c) (fun _ _ c => Some c));
    [intros p u c _; reflexivity | intros c; reflexivity
     | intros c; reflexivity | exact Ha].
Qed.

Lemma patterns_insensitive :
  insensitive TYPE_PATTERN = true /\
  insensitive METHOD_PATTERN = true /\
  insensitive PROPERTY_PATTERN = true.
Proof. repeat split; reflexivity. Qed.

(** ** Splitting a joined buffer with bare carriage returns *)

Lemma terminated_not_bare_cr (l : string) :
  terminated l = true -> bare_cr l = false.
Proof.
  induction l as [| c l IH]; [reflexivity |]. cbn [terminated bare_cr].
  destruct (Char.is_linebreak c); [| exact IH].
  destruct (Ascii.eqb c Char.CR); [| reflexivity].
  intros H. apply String.eqb_eq in H. subst l. reflexivity.
Qed.

Lemma bare_cr_ends_cr (l : string) : bare_cr l = true -> ends_cr l = true.
Proof.
  induction l as [| c l IH]; [discriminate |]. cbn [bare_cr].
  destruct (Char.is_linebreak c) eqn:Eb.
  - intros H. apply andb_true_iff in H. destruct H as [Hc Hl].
    apply String.eqb_eq in Hl. subst l. exact Hc.
  - intros H. destruct (linebreak_not_cr_lf c Eb) as [E1 E2].
    destruct l as [| d l]; [discriminate |].
    cbn [ends_cr]. rewrite E1, E2. cbn [negb andb]. now apply IH.
Qed.

(** A line that ends in a bare CR takes a LF that follows it. *)
Lemma splitlines_bare_cr (l s : string) :
  bare_cr l = true ->
  Str.splitlines (l ++ s) =
  match s with
  | String d s' =>
      if Ascii.eqb d Char.LF then (l ++ Str.nl)%string :: Str.splitlines s'
      else l :: Str.splitlines s
  | EmptyString => [l]
  end.
Proof.
  induction l as [| c l IH]; [discriminate |].
  cbn [bare_cr append]. rewrite splitlines_step.
  destruct (Char.is_linebreak c) eqn:Eb.
  - intros H. apply andb_true_iff in H. destruct H as [Hc Hl].
    apply String.eqb_eq in Hl. subst l. cbn [append]. rewrite Hc.
    destruct s as [| d s']; [reflexivity |]. cbn [andb].
    destruct (Ascii.eqb d Char.LF) eqn:Ed; [| reflexivity].
    apply Ascii.eqb_eq in Ed. subst d. reflexivity.
  - intros H. rewrite (IH H).
    destruct s as [| d s']; [reflexivity |].
    destruct (Ascii.eqb d Char.LF); reflexivity.
Qed.

Lemma shaped_first_lf (b : string) d rest :
  b = String d rest -> shaped b = true -> Ascii.eqb d Char.LF = true -> b = Str.nl.
Proof.
  intros -> Hs Hd. apply Ascii.eqb_eq in Hd. subst d.
  unfold shaped in Hs. cbn in Hs. apply orb_true_iff in Hs.
  destruct Hs as [Hs | Hs]; [| discriminate].
  apply String.eqb_eq in Hs. now subst rest.
Qed.

Lemma merge_step (a b : string) (rest : list string) :
  merge (a :: b :: rest) =
  if bare_cr a && String.eqb b Str.nl
  then (a ++ b)%string :: merge rest
  else a :: merge (b :: rest).
Proof. reflexivity. Qed.

Lemma merge_cons_other (a : string) (tl : list string) :
  bare_cr a = false -> merge (a :: tl) = a :: merge tl.
Proof.
  intros H. cbn [merge]. destruct tl as [| b rest]; [reflexivity |].
  now rewrite H.
Qed.

(** Splitting a shaped buffer put end to end gives the buffer merged. *)
Lemma splitlines_cat_merge_fuel (n : nat) :
  forall ls, List.length ls <= n -> shaped_lines ls = true ->
    Str.splitlines (Str.cat ls) = merge ls.
Proof.
  induction n as [| n IH]; intros ls Hlen Hs.
  - destruct ls; [reflexivity | simpl in Hlen; lia].
  - destruct ls as [| a tl]; [reflexivity |]. simpl in Hlen.
    cbn [shaped_lines] in Hs. cbn [Str.cat].
    apply orb_true_iff in Hs. destruct Hs as [Hs | Hs].
    + apply andb_true_iff in Hs. destruct Hs as [Ha Htl].
      unfold shaped in Ha. apply orb_true_iff in Ha. destruct Ha as [Ha | Ha].
      * rewrite splitlines_terminated by exact Ha.
        rewrite merge_cons_other by (now apply terminated_not_bare_cr).
        f_equal. apply IH; [lia | exact Htl].
      * rewrite splitlines_bare_cr by exact Ha.
        destruct tl as [| b rest]; [reflexivity |].
        rewrite merge_step, Ha. cbn [andb Str.cat].
        cbn [shaped_lines] in Htl. simpl in Hlen.
        destruct b as [| d brest].
        -- exfalso. apply orb_true_iff in Htl.
           destruct Htl as [H | H]; apply andb_true_iff in H;
             destruct H as [H _]; [discriminate |].
           apply andb_true_iff in H. destruct H as [_ H]. discriminate.
        -- cbn [append].
           destruct (Ascii.eqb d Char.LF) eqn:Ed.
           ++ assert (Hb : String d brest = Str.nl).
              { apply orb_true_iff in Htl. destruct Htl as [H | H].
                - apply andb_true_iff in H. destruct H as [H _].
                  eapply shaped_first_lf; [reflexivity | exact H | exact Ed].
                - apply andb_true_iff in H. destruct H as [_ H].
                  unfold unbroken in H. cbn [Str.forallb] in H.
                  apply Ascii.eqb_eq in Ed. subst d. discriminate. }
              rewrite Hb. rewrite String.eqb_refl.
              injection Hb as -> ->. cbn [append].
              f_equal. apply IH; [lia |].
              apply orb_true_iff in Htl. destruct Htl as [H | H].
              ** apply andb_true_iff in H. tauto.
              ** apply andb_true_iff in H. destruct H as [H _].
                 apply andb_true_iff in H. destruct H as [H _].
                 destruct rest; [reflexivity | discriminate].
           ++ assert (Hb : String.eqb (String d brest) Str.nl = false).
              { unfold Str.nl. cbn [String.eqb]. rewrite Ed. reflexivity. }
              rewrite Hb. f_equal.
              change (String d (brest ++ Str.cat rest))
                with (Str.cat (String d brest :: rest)).
              apply IH; [simpl; lia | exact Htl].
    + apply andb_true_iff in Hs. destruct Hs as [Hs Hu].
      apply andb_true_iff in Hs. destruct Hs as [Hn Hne].
      destruct tl; [| discriminate]. cbn [Str.cat merge].
      rewrite append_nil_r. now apply splitlines_unbroken.
Qed.

Lemma splitlines_cat_merge (ls : list string) :
  shaped_lines ls = true -> Str.splitlines (Str.cat ls) = merge ls.
Proof. apply (splitlines_cat_merge_fuel (List.length ls)). apply le_n. Qed.

Lemma cat_merge_fuel (n : nat) :
  forall ls, List.length ls <= n -> Str.cat (merge ls) = Str.cat ls.
Proof.
  induction n as [| n IH]; intros ls Hlen.
  - destruct ls; [reflexivity | simpl in Hlen; lia].
  - destruct ls as [| a tl]; [reflexivity |]. simpl in Hlen.
    destruct tl as [| b rest]; [reflexivity |]. rewrite merge_step.
    simpl in Hlen.
    destruct (bare_cr a && String.eqb b Str.nl).
    + cbn [Str.cat]. rewrite IH by lia. now rewrite append_assoc.
    + cbn [Str.cat]. rewrite (IH (b :: rest)) by (simpl; lia). reflexivity.
Qed.

Lemma cat_merge (ls : list string) : Str.cat (merge ls) = Str.cat ls.
Proof. apply (cat_merge_fuel (List.length ls)). apply le_n. Qed.

(** ** The shape of the buffer *)

Lemma shaped_cons_unbroken c l ls :
  Char.is_linebreak c = false ->
  shaped_lines (l :: ls) = true -> shaped_lines (String c l :: ls) = true.
Proof.
  intros Hc. cbn [shaped_lines]. unfold shaped.
  cbn [terminated bare_cr Str.nonempty]. rewrite Hc.
  unfold unbroken. cbn [Str.forallb]. rewrite Hc. cbn [negb andb].
  intros H. apply orb_true_iff in H. apply orb_true_iff.
  destruct H as [H | H]; [now left | right].
  apply andb_true_iff in H. destruct H as [H Hu].
  apply andb_true_iff in H. destruct H as [Hn _].
  rewrite Hn. exact Hu.
Qed.

(** The lines of any text are shaped. *)
Lemma shaped_splitlines_fuel (n : nat) :
  forall text, String.length text <= n ->
    shaped_lines (Str.splitlines text) = true.
Proof.
  induction n as [| n IH]; intros text Hlen.
  - destruct text; [reflexivity | simpl in Hlen; lia].
  - destruct text as [| c s]; [reflexivity |]. simpl in Hlen.
    rewrite splitlines_step.
    destruct (Char.is_linebreak c) eqn:Eb.
    + destruct s as [| d s''].
      * cbn [shaped_lines]. unfold shaped. cbn [terminated bare_cr].
        rewrite Eb. destruct (Ascii.eqb c Char.CR); reflexivity.
      * simpl in Hlen.
        destruct (Ascii.eqb c Char.CR) eqn:Ec;
          [destruct (Ascii.eqb d Char.LF) eqn:Ed |];
          cbn [andb shaped_lines]; unfold shaped; cbn [terminated bare_cr];
          rewrite Eb, Ec; rewrite IH by (simpl; lia).
        -- apply Ascii.eqb_eq in Ed. subst d. reflexivity.
        -- reflexivity.
        -- reflexivity.
    + assert (Hok : shaped_lines (Str.splitlines s) = true)
        by (apply IH; lia).
      destruct (Str.splitlines s) as [| l ls].
      * cbn [shaped_lines is_nil Str.nonempty]. unfold shaped, unbroken.
        cbn [terminated bare_cr Str.forallb]. rewrite Eb. reflexivity.
      * now apply shaped_cons_unbroken.
Qed.

Lemma shaped_splitlines (text : string) :
  shaped_lines (Str.splitlines text) = true.
Proof. apply (shaped_splitlines_fuel (String.length text)). apply le_n. Qed.

Lemma shaped_lines_app (A ls : list string) :
  Forall (fun l => shaped l = true) A ->
  shaped_lines ls = true -> shaped_lines (A ++ ls)%list = true.
Proof.
  induction 1 as [| a A Ha _ IH]; intros H; [exact H |].
  cbn [app shaped_lines]. now rewrite Ha, IH.
Qed.

Lemma shaped_lines_split (A : list string) x (ls : list string) :
  shaped_lines (A ++ x :: ls)%list = true ->
  Forall (fun l => shaped l = true) A /\ shaped_lines (x :: ls) = true.
Proof.
  induction A as [| a A IH]; [now split |].
  cbn [app shaped_lines]. intros H.
  apply orb_true_iff in H. destruct H as [H | H].
  - apply andb_true_iff in H. destruct H as [Ha Hr].
    destruct (IH Hr). split; [now constructor | assumption].
  - destruct A; discriminate.
Qed.

Lemma terminated_shaped (A : list string) :
  Forall (fun l => terminated l = true) A ->
  Forall (fun l => shaped l = true) A.
Proof.
  apply Forall_impl. intros l H. unfold shaped. now rewrite H.
Qed.

(** The first run leaves a shaped buffer. *)
Lemma segments_shaped (path text : string) (T : list string) :
  forall Q ct,
    shaped_lines (Q ++ T)%list = true ->
    shaped_lines (segments path text ct Q T) = true.
Proof.
  induction T as [| x T IH]; intros Q ct H; cbn [segments].
  - now rewrite app_nil_r in H.
  - destruct (classify x) as [d |] eqn:Ex.
    + destruct (shaped_lines_split Q x T H) as [FQ Hx].
      apply shaped_lines_app.
      * pose proof (terminated_shaped _ (new_block_terminated path text ct d))
          as FG.
        unfold above_after. destruct (locate (rev Q)) as [[m b] |].
        -- destruct (wants_replace path d _); [| exact FQ].
           apply Forall_app. split; [now apply Forall_firstn_skipn |].
           apply Forall_app. split; [now apply Forall_firstn_skipn | exact FG].
        -- apply Forall_app. now split.
      * destruct T as [| y T']; [exact Hx |].
        cbn [shaped_lines] in Hx |- *. apply orb_true_iff in Hx.
        destruct Hx as [Hx | Hx].
        -- apply andb_true_iff in Hx. destruct Hx as [Ht Hr].
           rewrite Ht. cbn [andb]. apply orb_true_iff. left.
           apply (IH [] (next_type ct d)). exact Hr.
        -- apply andb_true_iff in Hx. destruct Hx as [Hx _].
           apply andb_true_iff in Hx. destruct Hx as [Hx _]. discriminate.
    + apply IH. now rewrite <- app_assoc.
Qed.

(** ** A line that took the LF below it *)

Lemma startswith_with_lf (p x : string) :
  Str.mem_char Char.LF p = false ->
  Str.startswith p (x ++ Str.nl) = Str.startswith p x.
Proof.
  revert x. induction p as [| c p IH]; intros x H; [now destruct x |].
  cbn [Str.mem_char] in H. apply orb_false_iff in H. destruct H as [Hc Hp].
  destruct x as [| d x]; cbn [append Str.startswith Str.nl].
  - rewrite Ascii.eqb_sym, Hc. reflexivity.
  - now rewrite IH.
Qed.

Lemma lstrip_with_lf (a : string) :
  Str.lstrip (a ++ Str.nl) =
  if Str.forallb Char.is_space a then EmptyString
  else (Str.lstrip a ++ Str.nl)%string.
Proof.
  induction a as [| c a IH]; [reflexivity |].
  cbn [append Str.lstrip Str.forallb].
  destruct (Char.is_space c); [exact IH | reflexivity].
Qed.

Lemma is_doc_line_with_lf (a : string) :
  is_doc_line (a ++ Str.nl) = is_doc_line a.
Proof.
  unfold is_doc_line. rewrite lstrip_with_lf.
  destruct (Str.forallb Char.is_space a) eqn:E.
  - apply lstrip_empty_iff in E. now rewrite E.
  - now apply startswith_with_lf.
Qed.

Lemma is_blank_spaces_iff (s : string) :
  is_blank s = Str.forallb Char.is_space s.
Proof.
  destruct (Str.forallb Char.is_space s) eqn:E.
  - apply lstrip_empty_iff in E. unfold is_blank. now rewrite E.
  - destruct (is_blank s) eqn:B; [| reflexivity].
    apply is_blank_spaces in B. congruence.
Qed.

Lemma is_skippable_with_lf (a : string) :
  is_skippable (a ++ Str.nl) = is_skippable a.
Proof.
  unfold is_skippable. cbv zeta.
  change (String.eqb (Str.strip (Str.lstrip (a ++ Str.nl))) "")
    with (is_blank (a ++ Str.nl)).
  change (String.eqb (Str.strip (Str.lstrip a)) "") with (is_blank a).
  rewrite !is_blank_spaces_iff, forallb_append.
  change (Str.forallb Char.is_space Str.nl) with true. rewrite andb_true_r.
  rewrite lstrip_with_lf.
  destruct (Str.forallb Char.is_space a) eqn:E; [reflexivity |].
  now rewrite !startswith_with_lf.
Qed.

Lemma mem_char_with_lf (c : ascii) (a : string) :
  Ascii.eqb c Char.LF = false ->
  Str.mem_char c (a ++ Str.nl) = Str.mem_char c a.
Proof.
  intros H. induction a as [| d a IH]; cbn [append Str.mem_char Str.nl].
  - now rewrite H.
  - now rewrite IH.
Qed.

(** The line reads as the same declaration, or as none, as before. *)
Lemma classify_with_lf (a : string) :
  ends_cr a = true ->
  match classify a, classify (a ++ Str.nl) with
  | Some d, Some d' => same_decl d d'
  | None, None => True
  | _, _ => False
  end.
Proof.
  intros H. destruct patterns_insensitive as (IT & IM & IP).
  pose proof (match_with_lf TYPE_PATTERN a IT H) as ET.
  pose proof (match_with_lf METHOD_PATTERN a IM H) as EM.
  pose proof (match_with_lf PROPERTY_PATTERN a IP H) as EP.
  unfold classify.
  rewrite (mem_char_with_lf "(" a eq_refl).
  destruct (match_ TYPE_PATTERN a) as [m1 |],
           (match_ TYPE_PATTERN (a ++ Str.nl)) as [m1' |];
    try discriminate; [injection ET as ET; exact (eq_sym ET) |].
  destruct (match_ METHOD_PATTERN a) as [m2 |],
           (match_ METHOD_PATTERN (a ++ Str.nl)) as [m2' |];
    try discriminate; [injection EM as EM; exact (eq_sym EM) |].
  destruct (match_ PROPERTY_PATTERN a) as [m3 |],
           (match_ PROPERTY_PATTERN (a ++ Str.nl)) as [m3' |];
    try discriminate; [| exact I].
  destruct (negb (Str.mem_char "(" a)); [| exact I].
  injection EP as EP. exact (eq_sym EP).
Qed.

Lemma same_decl_next_type d d' ct :
  same_decl d d' -> next_type ct d' = next_type ct d.
Proof.
  destruct d as [[s c] | [s c] | [s c]], d' as [[s' c'] | [s' c'] | [s' c']];
    cbn [same_decl snd]; intros H; try contradiction; subst c'; reflexivity.
Qed.

Lemma same_decl_new_block path text ct d d' :
  same_decl d d' -> new_block path text ct d' = new_block path text ct d.
Proof.
  destruct d as [[s c] | [s c] | [s c]], d' as [[s' c'] | [s' c'] | [s' c']];
    cbn [same_decl snd]; intros H; try contradiction; subst c'; reflexivity.
Qed.

Lemma same_decl_wants_replace path d d' bt :
  same_decl d d' -> wants_replace path d' bt = wants_replace path d bt.
Proof.
  destruct d as [[s c] | [s c] | [s c]], d' as [[s' c'] | [s' c'] | [s' c']];
    cbn [same_decl snd]; intros H; try contradiction; subst c'; reflexivity.
Qed.

Lemma same_decl_above_after path text ct d d' Q :
  same_decl d d' ->
  above_after path text ct d' Q = above_after path text ct d Q.
Proof.
  intros H. unfold above_after.
  rewrite (same_decl_new_block path text ct d d' H).
  destruct (locate (rev Q)) as [[m b] |]; [| reflexivity].
  now rewrite (same_decl_wants_replace path d d' _ H).
Qed.

(** ** Buffers that a scan leaves as they are *)

Lemma locate_cons (l : string) (r : list string) :
  locate (l :: r) =
  if is_doc_line l then Some (0, S (doc_run r))
  else if is_skippable l then shift 1 (locate r) else None.
Proof. reflexivity. Qed.

(** The locator either meets the line [y] that is no [///] line, or it
    has settled before. *)
Lemma locate_through (r : list string) y rest :
  is_doc_line y = false ->
  locate (r ++ y :: rest)%list =
  if forallb is_stepped_over r
  then shift (List.length r) (locate (y :: rest))
  else locate r.
Proof.
  intros Hy. set (o := locate (y :: rest)).
  induction r as [| l r IH].
  - change (o = shift 0 o). now destruct o as [[m b] |].
  - cbn [app forallb List.length]. rewrite !locate_cons, IH.
    assert (Es : is_stepped_over l = negb (is_doc_line l) && is_skippable l)
      by reflexivity.
    rewrite Es. clear Es.
    destruct (is_doc_line l) eqn:Ed.
    + cbn [negb andb]. now rewrite doc_run_barrier.
    + cbn [negb andb]. destruct (is_skippable l); [| reflexivity].
      destruct (forallb is_stepped_over r); [| reflexivity].
      now destruct o as [[m b] |].
Qed.

Lemma block_of_low (P S : list string) m b :
  m + b <= List.length S -> block_of (P ++ S)%list m b = block_of S m b.
Proof.
  intros H. unfold block_of. rewrite length_app, skipn_app.
  rewrite (skipn_all2 P) by lia. cbn [app]. f_equal. f_equal. lia.
Qed.

Lemma block_of_high (Z S : list string) m b :
  m + b <= List.length Z ->
  block_of (Z ++ S)%list (List.length S + m) b = block_of Z m b.
Proof.
  intros H. unfold block_of. rewrite length_app, skipn_app.
  replace (List.length Z + List.length S - (List.length S + m) - b)
    with (List.length Z - m - b) by lia.
  replace (List.length Z - m - b - List.length Z) with 0 by lia.
  cbn [skipn]. rewrite firstn_app, length_skipn.
  replace (b - (List.length Z - (List.length Z - m - b))) with 0 by lia.
  cbn [firstn]. apply app_nil_r.
Qed.

(** When the lines above a declaration stay: a block is found, and it is
    kept, or it sits right above the declaration and is the new one. *)
Lemma above_after_unmoved path text ct d (D : list string) :
  above_after path text ct d D = D <->
  exists m b,
    locate (rev D) = Some (m, b) /\
    (wants_replace path d (Str.cat (block_of D m b)) = false \/
     (m = 0 /\ new_block path text ct d = block_of D m b)).
Proof.
  destruct (locate (rev D)) as [[m b] |] eqn:EL.
  - destruct (locate_cut _ _ _ EL) as (Q1 & B & M & -> & Lm & Lb & Hb & FM & FB).
    subst m b.
    assert (EB : block_of (Q1 ++ B ++ M)%list (List.length M) (List.length B) = B).
    { unfold block_of. rewrite !length_app.
      replace (List.length Q1 + (List.length B + List.length M)
               - List.length M - List.length B) with (List.length Q1) by lia.
      now rewrite skipn_length_app, firstn_length_app. }
    rewrite (above_after_cut path text ct d Q1 B M EL). split.
    + intros H. exists (List.length M), (List.length B).
      split; [reflexivity |]. rewrite EB.
      destruct (wants_replace path d (Str.cat B)); [right | now left].
      apply app_inv_head in H. destruct M as [| l M'].
      * split; [reflexivity |]. cbn [app] in H. now rewrite app_nil_r in H.
      * exfalso. destruct B as [| l' B']; [simpl in Hb; lia |].
        injection H as Hl _. subst l'.
        inversion FM as [| ? ? H1 _]; inversion FB as [| ? ? H2 _]; subst.
        unfold is_stepped_over in H1. rewrite H2 in H1. discriminate.
    + intros (m & b & E & H). injection E as <- <-. rewrite EB in H.
      destruct H as [H | [Hm HG]]; [now rewrite H |].
      destruct (wants_replace path d (Str.cat B)); [| reflexivity].
      destruct M; [| discriminate]. rewrite HG. cbn [app].
      now rewrite app_nil_r.
  - split.
    + intros H. unfold above_after in H. rewrite EL in H. exfalso.
      apply (f_equal (@List.length string)) in H. rewrite length_app in H.
      pose proof (new_block_nonempty path text ct d) as N.
      destruct (new_block path text ct d); [congruence | simpl in H; lia].
    + intros (m & b & E & _). discriminate.
Qed.

(** A blank line at the top of the pending lines can go. *)
Lemma stays_blank path text : stays_with path text [Str.nl] [].
Proof.
  intros W ct d H. apply above_after_unmoved in H.
  destruct H as (m & b & EL & H). apply above_after_unmoved.
  rewrite rev_app_distr in EL. cbn [rev app] in EL.
  rewrite locate_through in EL by reflexivity.
  destruct (forallb is_stepped_over (rev W)) eqn:EF.
  - change (locate [Str.nl]) with (@None (nat * nat)) in EL. discriminate.
  - exists m, b. cbn [app]. split; [exact EL |].
    destruct (locate_bounds _ _ _ EL) as [_ Hb]. rewrite length_rev in Hb.
    rewrite block_of_low in H by exact Hb. exact H.
Qed.

(** A line that is no [///] line can take the LF line below it. *)
Lemma stays_joined path text (Z : list string) (a : string) :
  is_doc_line a = false ->
  stays_with path text (Z ++ [a; Str.nl])%list (Z ++ [(a ++ Str.nl)%string])%list.
Proof.
  intros Ha W ct d H. apply above_after_unmoved in H.
  destruct H as (m & b & EL & H). apply above_after_unmoved.
  assert (E1 : rev ((Z ++ [a; Str.nl]) ++ W)%list
               = (rev W ++ Str.nl :: a :: rev Z)%list)
    by (rewrite !rev_app_distr; reflexivity).
  assert (E2 : rev ((Z ++ [(a ++ Str.nl)%string]) ++ W)%list
               = (rev W ++ (a ++ Str.nl)%string :: rev Z)%list)
    by (rewrite !rev_app_distr; reflexivity).
  rewrite E1, locate_through in EL by reflexivity.
  rewrite E2, locate_through by (now rewrite is_doc_line_with_lf).
  destruct (forallb is_stepped_over (rev W)) eqn:EF.
  - rewrite (locate_cons Str.nl), (locate_cons a), Ha in EL.
    change (is_doc_line Str.nl) with false in EL.
    change (is_skippable Str.nl) with true in EL. cbv iota in EL.
    rewrite (locate_cons (a ++ Str.nl)), is_doc_line_with_lf,
      is_skippable_with_lf, Ha.
    destruct (is_skippable a); [| discriminate].
    destruct (locate (rev Z)) as [[m0 b0] |] eqn:EZ; [| discriminate].
    cbn [shift] in EL |- *. injection EL as Em Eb. subst b.
    assert (Em' : m = List.length ([a; Str.nl] ++ W)%list + m0)
      by (rewrite <- Em, length_rev, length_app; simpl; lia).
    exists (List.length ([(a ++ Str.nl)%string] ++ W)%list + m0), b0. split.
    { f_equal. f_equal. rewrite length_rev, length_app. simpl. lia. }
    left. destruct H as [H | [Hm _]]; [| lia].
    destruct (locate_bounds _ _ _ EZ) as [_ Hb]. rewrite length_rev in Hb.
    rewrite <- app_assoc in H |- *. rewrite Em' in H.
    rewrite block_of_high in H by exact Hb.
    rewrite block_of_high by exact Hb. exact H.
  - exists m, b. split; [exact EL |].
    destruct (locate_bounds _ _ _ EL) as [_ Hb]. rewrite length_rev in Hb.
    rewrite block_of_low in H by exact Hb.
    rewrite block_of_low by exact Hb. exact H.
Qed.

Lemma stable_cons path text ct Q x T :
  stable path text ct Q (x :: T) =
  match classify x with
  | Some d =>
      above_after path text ct d Q = Q /\ stable path text (next_type ct d) [] T
  | None => stable path text ct (Q ++ [x])%list T
  end.
Proof. reflexivity. Qed.

Lemma stable_segments path text (T : list string) :
  forall Q ct,
    stable path text ct Q T -> segments path text ct Q T = (Q ++ T)%list.
Proof.
  induction T as [| x T IH]; intros Q ct H.
  - cbn [segments]. now rewrite app_nil_r.
  - rewrite stable_cons in H. cbn [segments].
    destruct (classify x) as [d |].
    + destruct H as [H1 H2]. now rewrite H1, (IH _ _ H2).
    + rewrite (IH _ _ H). now rewrite <- app_assoc.
Qed.

Lemma stable_pending path text (A : list string) :
  Forall (fun l => classify l = None) A ->
  forall Q R ct,
    stable path text ct (Q ++ A)%list R -> stable path text ct Q (A ++ R)%list.
Proof.
  induction 1 as [| a A Ha _ IH]; intros Q R ct H.
  - now rewrite app_nil_r in H.
  - cbn [app]. rewrite stable_cons, Ha. apply IH.
    now rewrite <- app_assoc.
Qed.

Lemma stable_stays path text (Q1 Q2 : list string) :
  stays_with path text Q1 Q2 ->
  forall X W ct,
    stable path text ct (Q1 ++ W)%list X -> stable path text ct (Q2 ++ W)%list X.
Proof.
  intros Hs. induction X as [| x X IH]; intros W ct H; [exact I |].
  rewrite stable_cons in H |- *. destruct (classify x) as [d |].
  - destruct H as [H1 H2]. split; [now apply Hs | exact H2].
  - rewrite <- app_assoc in H |- *. now apply IH.
Qed.

(** The buffer of the first run is stable for the second. *)
Lemma first_run_stable path text text' (T : list string) :
  (forall x d ct, In x T -> classify x = Some d -> same_block path text text' ct d) ->
  forall Q ct,
    Forall (fun l => classify l = None) Q ->
    stable path text' ct [] (segments path text ct Q T).
Proof.
  induction T as [| x T IH]; intros Hsame Q ct FQ; cbn [segments].
  - pose proof (stable_pending path text' Q FQ [] [] ct I) as H.
    now rewrite app_nil_r in H.
  - destruct (classify x) as [d |] eqn:Ex.
    + apply (stable_pending path text' _
               (above_after_no_decl path text ct d Q FQ) []).
      cbn [app]. rewrite stable_cons, Ex. split.
      * apply above_after_again. eapply Hsame; [now left | exact Ex].
      * apply IH; [| constructor].
        intros y d' ct' Hy. apply Hsame. now right.
    + apply IH.
      * intros y d' ct' Hy. apply Hsame. now right.
      * apply Forall_app. split; [exact FQ |]. now repeat constructor.
Qed.

(** ** Where a bare CR meets a LF line *)

Lemma neighbours_cons (P : string -> string -> bool) a (tl : list string) :
  neighbours P (a :: tl) =
  match tl with
  | [] => true
  | b :: _ => P a b
  end && neighbours P tl.
Proof. destruct tl; reflexivity. Qed.

Lemma neighbours_split P (X Y : list string) :
  neighbours P (X ++ Y)%list = true ->
  neighbours P X = true /\ neighbours P Y = true.
Proof.
  induction X as [| a X IH]; [now split |].
  cbn [app]. rewrite !neighbours_cons. intros H.
  apply andb_true_iff in H. destruct H as [Ha Hr].
  destruct (IH Hr) as [HX HY]. split; [| exact HY].
  rewrite HX, andb_true_r. destruct X as [| b X]; [reflexivity | exact Ha].
Qed.

Lemma neighbours_app P (X Y : list string) :
  neighbours P X = true -> neighbours P Y = true ->
  (forall X' lx y Y', X = (X' ++ [lx])%list -> Y = y :: Y' -> P lx y = true) ->
  neighbours P (X ++ Y)%list = true.
Proof.
  induction X as [| a X IH]; intros HX HY Hb; [exact HY |].
  cbn [app]. rewrite neighbours_cons in HX |- *.
  apply andb_true_iff in HX. destruct HX as [Ha HX].
  apply andb_true_iff. split.
  - destruct X as [| b X].
    + destruct Y as [| y Y']; [reflexivity |].
      apply (Hb [] a y Y'); reflexivity.
    + exact Ha.
  - apply IH; [exact HX | exact HY |].
    intros X' lx y Y' -> ->. apply (Hb (a :: X') lx y Y'); reflexivity.
Qed.

Lemma neighbours_all P (G : list string) :
  Forall (fun a => forall b, P a b = true) G -> neighbours P G = true.
Proof.
  induction 1 as [| a G Ha _ IH]; [reflexivity |].
  rewrite neighbours_cons, IH, andb_true_r. now destruct G.
Qed.

Lemma neighbours_weaken (P P' : string -> string -> bool) (X : list string) :
  (forall a b, P a b = true -> P' a b = true) ->
  neighbours P X = true -> neighbours P' X = true.
Proof.
  intros HP. induction X as [| a X IH]; [reflexivity |].
  rewrite !neighbours_cons. intros H.
  apply andb_true_iff in H. destruct H as [Ha HX].
  rewrite (IH HX), andb_true_r.
  destruct X as [| b X]; [reflexivity | now apply HP].
Qed.

Lemma joined_never a b :
  never_joined a b = true -> joined_below_text a b = true.
Proof.
  unfold never_joined, joined_below_text. intros H.
  apply negb_true_iff in H. now rewrite H.
Qed.

Lemma joined_plain a b : is_doc_line a = false -> joined_below_text a b = true.
Proof.
  unfold joined_below_text. intros ->. now rewrite andb_false_r.
Qed.

Lemma joined_terminated a b :
  terminated a = true -> joined_below_text a b = true.
Proof.
  unfold joined_below_text. intros H.
  now rewrite (terminated_not_bare_cr a H).
Qed.

Lemma joined_above_other a b :
  String.eqb b Str.nl = false -> joined_below_text a b = true.
Proof.
  unfold joined_below_text. intros ->. now rewrite andb_false_r.
Qed.

Lemma joined_above_doc a b :
  is_doc_line b = true -> joined_below_text a b = true.
Proof.
  intros H. apply joined_above_other.
  destruct (String.eqb b Str.nl) eqn:E; [| reflexivity].
  apply String.eqb_eq in E. subst b. discriminate.
Qed.

Lemma joined_above_decl a b d :
  classify b = Some d -> joined_below_text a b = true.
Proof.
  intros H. apply joined_above_other.
  destruct (String.eqb b Str.nl) eqn:E; [| reflexivity].
  apply String.eqb_eq in E. subst b. discriminate.
Qed.

Lemma doc_run_zero_last (X : list string) lx :
  doc_run (rev (X ++ [lx])%list) = 0 -> is_doc_line lx = false.
Proof.
  rewrite rev_app_distr. cbn [rev app doc_run].
  destruct (is_doc_line lx); [discriminate | reflexivity].
Qed.

(** The lines above a declaration, once it was processed. *)
Lemma above_after_joined path text ct d (Q : list string) :
  neighbours never_joined Q = true ->
  neighbours joined_below_text (above_after path text ct d Q) = true.
Proof.
  intros HQ.
  pose proof (new_block_doc path text ct d) as FG.
  assert (NG : neighbours joined_below_text (new_block path text ct d) = true).
  { apply neighbours_all.
    eapply Forall_impl; [| apply new_block_terminated].
    intros a Ha b. now apply joined_terminated. }
  assert (HG : forall y Y', new_block path text ct d = y :: Y' ->
                 forall a, joined_below_text a y = true).
  { intros y Y' E a. apply joined_above_doc.
    rewrite E in FG. now inversion FG. }
  destruct (locate (rev Q)) as [[m b] |] eqn:EL.
  - destruct (locate_cut _ _ _ EL) as (Q1 & B & M & -> & Lm & Lb & _ & FM & FB).
    subst m b. rewrite (above_after_cut path text ct d Q1 B M EL).
    destruct (wants_replace path d (Str.cat B)).
    + destruct (neighbours_split _ _ _ HQ) as [H1 H2].
      destruct (neighbours_split _ _ _ H2) as [_ H3].
      apply neighbours_app.
      * eapply neighbours_weaken; [apply joined_never | exact H1].
      * apply neighbours_app; [| exact NG |].
        -- eapply neighbours_weaken; [apply joined_never | exact H3].
        -- intros X' lx y Y' _ E. now apply (HG y Y').
      * intros X' lx y Y' -> _. apply joined_plain.
        apply (doc_run_zero_last X').
        eapply locate_cut_top; eassumption.
    + eapply neighbours_weaken; [apply joined_never | exact HQ].
  - unfold above_after. rewrite EL. apply neighbours_app; [| exact NG |].
    + eapply neighbours_weaken; [apply joined_never | exact HQ].
    + intros X' lx y Y' _ E. now apply (HG y Y').
Qed.

(** In the buffer of the first run, a line that ends in a bare CR right
    above a LF line is no [///] line. *)
Lemma segments_joined path text (T : list string) :
  forall Q ct,
    neighbours never_joined (Q ++ T)%list = true ->
    neighbours joined_below_text (segments path text ct Q T) = true.
Proof.
  induction T as [| x T IH]; intros Q ct H; cbn [segments].
  - rewrite app_nil_r in H.
    eapply neighbours_weaken; [apply joined_never | exact H].
  - destruct (classify x) as [d |] eqn:Ex.
    + destruct (neighbours_split _ _ _ H) as [HQ Hx].
      apply neighbours_app.
      * now apply above_after_joined.
      * rewrite neighbours_cons. apply andb_true_iff. split.
        -- destruct (segments path text (next_type ct d) [] T); [reflexivity |].
           apply joined_plain. eapply classify_not_doc. exact Ex.
        -- apply (IH [] (next_type ct d)).
           rewrite neighbours_cons in Hx. apply andb_true_iff in Hx. tauto.
      * intros X' lx y Y' _ [= <- _]. eapply joined_above_decl. exact Ex.
    + apply IH. now rewrite <- app_assoc.
Qed.

Lemma splitlines_head d s l (ls : list string) :
  Str.splitlines (String d s) = l :: ls -> exists l', l = String d l'.
Proof.
  rewrite splitlines_step. destruct (Char.is_linebreak d).
  - destruct s as [| e s'']; [intros [= <- _]; eauto |].
    destruct (Ascii.eqb d Char.CR && Ascii.eqb e Char.LF);
      intros [= <- _]; eauto.
  - destruct (Str.splitlines s); intros [= <- _]; eauto.
Qed.

(** Among the lines of a text, no bare CR is right above a LF line. *)
Lemma splitlines_never_joined_fuel (n : nat) :
  forall text, String.length text <= n ->
    neighbours never_joined (Str.splitlines text) = true.
Proof.
  induction n as [| n IH]; intros text Hlen.
  - destruct text; [reflexivity | simpl in Hlen; lia].
  - destruct text as [| c s]; [reflexivity |]. simpl in Hlen.
    rewrite splitlines_step.
    destruct (Char.is_linebreak c) eqn:Eb.
    + destruct s as [| d s'']; [reflexivity |]. simpl in Hlen.
      destruct (Ascii.eqb c Char.CR) eqn:Ec;
        [destruct (Ascii.eqb d Char.LF) eqn:Ed |]; cbn [andb];
        rewrite neighbours_cons, IH by (simpl; lia); rewrite andb_true_r.
      * destruct (Str.splitlines s''); [reflexivity |].
        unfold never_joined. cbn [bare_cr]. rewrite Eb, Ec. reflexivity.
      * destruct (Str.splitlines (String d s'')) as [| l ls] eqn:El;
          [reflexivity |].
        destruct (splitlines_head _ _ _ _ El) as [l' ->].
        unfold never_joined, Str.nl. cbn [String.eqb]. rewrite Ed.
        now rewrite andb_false_r.
      * destruct (Str.splitlines (String d s'')); [reflexivity |].
        unfold never_joined. cbn [bare_cr]. rewrite Eb, Ec. reflexivity.
    + pose proof (IH s ltac:(lia)) as Hs.
      destruct (Str.splitlines s) as [| l ls]; [reflexivity |].
      rewrite neighbours_cons in Hs |- *.
      replace (never_joined (String c l)) with (never_joined l); [exact Hs |].
      unfold never_joined. cbn [bare_cr]. now rewrite Eb.
Qed.

Lemma splitlines_never_joined (text : string) :
  neighbours never_joined (Str.splitlines text) = true.
Proof.
  apply (splitlines_never_joined_fuel (String.length text)). apply le_n.
Qed.

(** ** The second scan reads the buffer merged *)

Lemma stable_merge_fuel path text (n : nat) :
  forall X, List.length X <= n ->
    forall Q ct,
      neighbours joined_below_text X = true ->
      stable path text ct Q X -> stable path text ct Q (merge X).
Proof.
  induction n as [| n IH]; intros X Hlen Q ct HN HS.
  - destruct X; [exact I | simpl in Hlen; lia].
  - destruct X as [| a tl]; [exact I |].
    destruct tl as [| b rest]; [exact HS |].
    simpl in Hlen. rewrite merge_step.
    rewrite neighbours_cons in HN. apply andb_true_iff in HN.
    destruct HN as [Hab HN]. rewrite stable_cons in HS.
    destruct (bare_cr a && String.eqb b Str.nl) eqn:E.
    + apply andb_true_iff in E. destruct E as [Hcr Hb].
      apply String.eqb_eq in Hb. subst b.
      assert (Ha : is_doc_line a = false).
      { unfold joined_below_text in Hab. rewrite Hcr in Hab.
        cbn in Hab. now apply negb_true_iff in Hab. }
      assert (HR : neighbours joined_below_text rest = true)
        by (rewrite neighbours_cons in HN; apply andb_true_iff in HN; tauto).
      pose proof (classify_with_lf a (bare_cr_ends_cr a Hcr)) as HC.
      rewrite stable_cons.
      destruct (classify a) as [d |], (classify (a ++ Str.nl)) as [d' |];
        try contradiction.
      * destruct HS as [H1 H2]. split.
        -- now rewrite (same_decl_above_after path text ct d d' Q HC).
        -- rewrite (same_decl_next_type d d' ct HC).
           apply IH; [lia | exact HR |].
           rewrite stable_cons in H2.
           change (classify Str.nl) with (@None decl) in H2.
           exact (stable_stays path text [Str.nl] [] (stays_blank path text)
                    rest [] (next_type ct d) H2).
      * rewrite stable_cons in HS.
        change (classify Str.nl) with (@None decl) in HS.
        apply IH; [lia | exact HR |].
        rewrite <- app_assoc in HS.
        pose proof (stable_stays path text _ _ (stays_joined path text Q a Ha)
                      rest [] ct) as HJ.
        rewrite !app_nil_r in HJ. now apply HJ.
    + rewrite stable_cons. destruct (classify a) as [d |].
      * destruct HS as [H1 H2]. split; [exact H1 |].
        apply IH; [simpl; lia | exact HN | exact H2].
      * apply IH; [simpl; lia | exact HN | exact HS].
Qed.

Lemma stable_merge path text (X : list string) :
  neighbours joined_below_text X = true ->
  stable path text None [] X -> stable path text None [] (merge X).
Proof.
  apply (stable_merge_fuel path text (List.length X)). apply le_n.
Qed.

(** A second run on the text of the first reads the buffer merged and
    leaves it. *)
Lemma second_scan path text :
  (forall x d ct, In x (Str.splitlines text) -> classify x = Some d ->
     same_block path text
       (Str.cat (segments path text None [] (Str.splitlines text))) ct d) ->
  let O := segments path text None [] (Str.splitlines text) in
  reconcile path (Str.cat O) None [] (Str.splitlines (Str.cat O)) = merge O /\
  Str.cat (merge O) = Str.cat O.
Proof.
  intros Hsame O. split; [| apply cat_merge].
  rewrite reconcile_from_top.
  rewrite splitlines_cat_merge
    by (apply segments_shaped; apply shaped_splitlines).
  apply stable_segments. apply stable_merge.
  - apply segments_joined. apply splitlines_never_joined.
  - apply first_run_stable; [exact Hsame | constructor].
Qed.

(** ** Idempotence *)

(** C2, within its limit: when the converter cue ("IValueConverter" or
    "System.Windows.Data" in the file text) reads the same in the
    once-processed text as in the input, or no line is a method named
    Convert or ConvertBack: the buffer of a second run, put end to end, is
    the once-processed text, and the file stays as the first run left
    it. *)
Theorem C2_second_run_changes_nothing (path text text1 : string) :
  file_after path text = Ok text1 ->
  conv_cue text1 = conv_cue text \/
  Forall (fun l => is_converter_method l = false) (Str.splitlines text) ->
  (exists flag buffer,
      process_file path text1 = Ok (flag, buffer) /\ Str.cat buffer = text1) /\
  file_after path text1 = Ok text1.
Proof.
  intros Hrun Hcue. unfold file_after in Hrun.
  destruct (process_file_spec path text) as [ch [E Hlow]].
  rewrite E in Hrun. cbn [bind fst snd] in Hrun.
  assert (Hbuf : exists flag buffer,
             process_file path text1 = Ok (flag, buffer) /\
             Str.cat buffer = text1).
  { destruct ch.
    - injection Hrun as Hrun. rewrite reconcile_from_top in Hrun.
      destruct (second_scan path text) as [Hagain Hcat].
      { rewrite Hrun. intros x d ct Hx Hd. apply same_block_holds.
        destruct d as [m | m | m]; try exact I.
        destruct Hcue as [Hcue | Hcue]; [now left | right].
        rewrite Forall_forall in Hcue. specialize (Hcue x Hx).
        unfold is_converter_method in Hcue. now rewrite Hd in Hcue. }
      rewrite Hrun in Hagain, Hcat.
      destruct (process_file_spec path text1) as [ch2 [E2 _]].
      exists ch2, (merge (segments path text None [] (Str.splitlines text))).
      split; [| exact Hcat]. now rewrite E2, Hagain.
    - injection Hrun as <-.
      exists false, (Str.splitlines text). split; [| apply cat_splitlines].
      now rewrite E, (Hlow eq_refl). }
  split; [exact Hbuf |].
  destruct Hbuf as (flag & buffer & E2 & Hcat).
  unfold file_after. rewrite E2. cbn [bind fst snd].
  rewrite Hcat. now destruct flag.
Qed.

Lemma C2_second_run_changes_nothing_witness :
  exists text1,
    file_after "Converters/BoolConverter.cs" converter_file = Ok text1 /\
    conv_cue text1 = conv_cue converter_file /\
    text1 <> converter_file /\
    (exists flag buffer,
        process_file "Converters/BoolConverter.cs" text1 = Ok (flag, buffer) /\
        Str.cat buffer = text1) /\
    file_after "Converters/BoolConverter.cs" text1 = Ok text1.
Proof.
  destruct (file_after "Converters/BoolConverter.cs" converter_file)
    as [text1 | |] eqn:E; try (vm_compute in E; discriminate).
  exists text1.
  assert (Hc : conv_cue text1 = conv_cue converter_file)
    by (vm_compute in E; injection E as <-; reflexivity).
  assert (Hn : text1 <> converter_file).
  { vm_compute in E. injection E as <-. intros H.
    apply (f_equal String.length) in H. vm_compute in H. discriminate. }
  split; [reflexivity |]. split; [exact Hc |]. split; [exact Hn |].
  exact (C2_second_run_changes_nothing
           "Converters/BoolConverter.cs" converter_file text1
           E (or_introl Hc)).
Defined.

(** C2 as stated fails: the first run drops the placeholder block, and
    with it the only occurrence of the converter cue, so the second run
    renders the block of ConvertBack anew with another summary. *)
Lemma C2_counterexample :
  exists text1,
    file_after "Converter.cs" convert_back_file = Ok text1 /\
    file_after "Converter.cs" text1 <> Ok text1.
Proof.
  destruct (file_after "Converter.cs" convert_back_file)
    as [text1 | |] eqn:E; try (vm_compute in E; discriminate).
  exists text1. split; [reflexivity |].
  vm_compute in E. injection E as <-. intros H.
  apply (f_equal (fun r => match r with
                           | Ok s => Str.contains "Back로" s
                           | _ => false
                           end)) in H.
  vm_compute in H. discriminate.
Qed.

(** * Further properties *)

(** ** Comment Block Locator: what it returns *)

Lemma scan_up_out_of_range (lines : list string) (idx : nat) :
  List.length lines < idx -> scan_up lines idx = IndexError.
Proof.
  intros H. destruct idx as [| j]; [lia |].
  cbn [scan_up]. unfold getitem.
  assert (E : nth_error lines j = None) by (apply nth_error_None; lia).
  now rewrite E.
Qed.

Lemma find_preceding_xml_block_returns (lines : list string) (idx : nat) r :
  find_preceding_xml_block lines idx = Ok r ->
  idx <= List.length lines /\
  r = span_of idx (locate (rev (firstn idx lines))).
Proof.
  intros H.
  assert (Hle : idx <= List.length lines).
  { destruct (Nat.le_gt_cases idx (List.length lines)) as [Hle | Hgt];
      [exact Hle |].
    unfold find_preceding_xml_block in H.
    rewrite scan_up_out_of_range in H by exact Hgt. discriminate. }
  split; [exact Hle |].
  pose proof (find_preceding_xml_block_spec (firstn idx lines) (skipn idx lines))
    as E.
  rewrite firstn_skipn, length_firstn, Nat.min_l in E by exact Hle.
  congruence.
Qed.

(** What [locate] did not find: it stepped over lines up to the top, or
    up to a line that stops it. *)
Lemma locate_none_cut (r : list string) :
  locate r = None ->
  exists skip rest,
    r = (skip ++ rest)%list /\
    Forall (fun l => is_stepped_over l = true) skip /\
    match rest with
    | [] => True
    | y :: _ => is_barrier y = true
    end.
Proof.
  induction r as [| l r IH]; intros H.
  - exists [], []. now repeat split.
  - rewrite locate_cons in H.
    destruct (is_doc_line l) eqn:Ed; [discriminate |].
    destruct (is_skippable l) eqn:Es.
    + destruct (locate r) as [[m b] |]; [discriminate |].
      destruct (IH eq_refl) as (skip & rest & -> & Fs & Hr).
      exists (l :: skip), rest. split; [reflexivity |]. split; [| exact Hr].
      constructor; [| exact Fs]. unfold is_stepped_over. now rewrite Ed, Es.
    + exists [], (l :: r). split; [reflexivity |]. split; [constructor |].
      unfold is_barrier. now rewrite Ed, Es.
Qed.

Lemma nth_error_In_app_mid {A} (P B S : list A) k l :
  nth_error (P ++ B ++ S)%list k = Some l ->
  List.length P <= k < List.length P + List.length B -> In l B.
Proof.
  intros H Hk. rewrite nth_error_app2 in H by lia.
  rewrite nth_error_app1 in H by lia. eapply nth_error_In. exact H.
Qed.

(** X1: when the locator returns a span [(start, end)] for the line at
    [idx], the span lies above [idx] inside the buffer, all its lines are
    [///] lines, the lines between it and [idx] are blank or attribute
    lines, and the line above it, if any, is no [///] line. *)
Theorem locator_span_is_nearest_whole_run
    (lines : list string) (idx start end_ : nat) :
  find_preceding_xml_block lines idx = Ok (Some (start, end_)) ->
  (start <= end_ /\ end_ < idx /\ idx <= List.length lines) /\
  (forall k l, start <= k <= end_ -> nth_error lines k = Some l ->
               is_doc_line l = true) /\
  (forall k l, end_ < k < idx -> nth_error lines k = Some l ->
               is_doc_line l = false /\ is_skippable l = true) /\
  (forall l, 0 < start -> nth_error lines (start - 1) = Some l ->
             is_doc_line l = false).
Proof.
  intros H. destruct (find_preceding_xml_block_returns _ _ _ H) as [Hle E].
  assert (HD : List.length (firstn idx lines) = idx)
    by (rewrite length_firstn; lia).
  assert (HL : lines = (firstn idx lines ++ skipn idx lines)%list)
    by (now rewrite firstn_skipn).
  set (X := skipn idx lines) in *. clearbody X.
  destruct (locate (rev (firstn idx lines))) as [[m b] |] eqn:EL;
    [| discriminate].
  destruct (locate_cut _ _ _ EL) as (Q1 & B & M & EQ & Lm & Lb & Hb & FM & FB).
  rewrite EQ in HD, HL, EL. clear EQ. subst m b.
  rewrite !length_app in HD. cbn [span_of] in E. injection E as Es Ee.
  assert (Hs : start = List.length Q1) by lia.
  assert (He : end_ = List.length Q1 + List.length B - 1) by lia.
  clear Es Ee. split; [lia |]. split; [| split].
  - intros k l Hk Hn. rewrite HL, <- !app_assoc in Hn.
    assert (Hin : In l B)
      by (apply (nth_error_In_app_mid Q1 B (M ++ X)%list k); [exact Hn | lia]).
    rewrite Forall_forall in FB. now apply FB.
  - intros k l Hk Hn. rewrite HL, <- !app_assoc in Hn.
    rewrite (app_assoc Q1 B) in Hn.
    assert (Hin : In l M).
    { apply (nth_error_In_app_mid (Q1 ++ B)%list M X k); [exact Hn |].
      rewrite length_app. lia. }
    rewrite Forall_forall in FM. specialize (FM l Hin).
    unfold is_stepped_over in FM. apply andb_true_iff in FM.
    destruct FM as [F1 F2]. now apply negb_true_iff in F1.
  - intros l Hpos Hn.
    assert (HT : doc_run (rev Q1) = 0) by (eapply locate_cut_top; eassumption).
    destruct (exists_last (l := Q1)) as (Q1' & lx & EQ1);
      [intros ->; simpl in Hs; lia |].
    rewrite EQ1 in HT, Hs, HL. apply doc_run_zero_last in HT.
    rewrite length_app in Hs. cbn [List.length] in Hs.
    rewrite HL, <- !app_assoc in Hn.
    rewrite nth_error_app2 in Hn by lia.
    replace (start - 1 - List.length Q1') with 0 in Hn by lia.
    cbn in Hn. injection Hn as <-. exact HT.
Qed.

Lemma locator_span_is_nearest_whole_run_witness :
  find_preceding_xml_block documented_count_buffer 4 = Ok (Some (0, 2)) /\
  ((0 <= 2 /\ 2 < 4 /\ 4 <= List.length documented_count_buffer) /\
   (forall k l, 0 <= k <= 2 -> nth_error documented_count_buffer k = Some l ->
                is_doc_line l = true) /\
   (forall k l, 2 < k < 4 -> nth_error documented_count_buffer k = Some l ->
                is_doc_line l = false /\ is_skippable l = true) /\
   (forall l, 0 < 0 -> nth_error documented_count_buffer (0 - 1) = Some l ->
              is_doc_line l = false)).
Proof.
  split; [reflexivity |].
  apply (locator_span_is_nearest_whole_run documented_count_buffer 4 0 2).
  reflexivity.
Defined.

(** X2: when the locator returns [None] for the line at [idx], every line
    from some [j] up to [idx] is a blank or attribute line, and [j] is the
    top of the buffer or the line above [j] is neither such a line nor a
    [///] line. *)
Theorem locator_none_is_blocked_or_top (lines : list string) (idx : nat) :
  find_preceding_xml_block lines idx = Ok None ->
  exists j,
    j <= idx /\ idx <= List.length lines /\
    (forall k l, j <= k < idx -> nth_error lines k = Some l ->
                 is_doc_line l = false /\ is_skippable l = true) /\
    (0 < j ->
     exists l, nth_error lines (j - 1) = Some l /\
               is_doc_line l = false /\ is_skippable l = false).
Proof.
  intros H. destruct (find_preceding_xml_block_returns _ _ _ H) as [Hle E].
  assert (HD : List.length (firstn idx lines) = idx)
    by (rewrite length_firstn; lia).
  assert (HL : lines = (firstn idx lines ++ skipn idx lines)%list)
    by (now rewrite firstn_skipn).
  set (X := skipn idx lines) in *. clearbody X.
  destruct (locate (rev (firstn idx lines))) as [[m b] |] eqn:EL;
    [discriminate |].
  destruct (locate_none_cut _ EL) as (skip & rest & ER & Fs & Hr).
  assert (EQ : firstn idx lines = (rev rest ++ rev skip)%list)
    by (rewrite <- rev_app_distr, <- ER; now rewrite rev_involutive).
  rewrite EQ in HD, HL. rewrite length_app, !length_rev in HD.
  exists (List.length rest). split; [lia |]. split; [exact Hle |]. split.
  - intros k l Hk Hn. rewrite HL, <- app_assoc in Hn.
    assert (Hin : In l (rev skip)).
    { apply (nth_error_In_app_mid (rev rest) (rev skip) X k); [exact Hn |].
      rewrite !length_rev. lia. }
    apply In_rev in Hin. rewrite Forall_forall in Fs. specialize (Fs l Hin).
    unfold is_stepped_over in Fs. apply andb_true_iff in Fs.
    destruct Fs as [F1 F2]. now apply negb_true_iff in F1.
  - intros Hpos. destruct rest as [| y rest']; [simpl in Hpos; lia |].
    exists y. cbn [rev List.length] in HL |- *.
    rewrite HL, <- !app_assoc. rewrite nth_error_app2 by (rewrite length_rev; lia).
    rewrite length_rev.
    replace (S (List.length rest') - 1 - List.length rest') with 0 by lia.
    split; [reflexivity |].
    unfold is_barrier in Hr. apply andb_true_iff in Hr.
    destruct Hr as [H1 H2]. now apply negb_true_iff in H1, H2.
Qed.

Lemma locator_none_is_blocked_or_top_witness :
  find_preceding_xml_block
    [ln "using System;"; ln ""; ln "[Serializable]"; ln "public class A"] 3
  = Ok None /\
  exists j,
    j <= 3 /\
    3 <= List.length
           [ln "using System;"; ln ""; ln "[Serializable]"; ln "public class A"] /\
    (forall k l, j <= k < 3 ->
       nth_error
         [ln "using System;"; ln ""; ln "[Serializable]"; ln "public class A"] k
       = Some l ->
       is_doc_line l = false /\ is_skippable l = true) /\
    (0 < j ->
     exists l,
       nth_error
         [ln "using System;"; ln ""; ln "[Serializable]"; ln "public class A"]
         (j - 1) = Some l /\
       is_doc_line l = false /\ is_skippable l = false).
Proof.
  split; [reflexivity |].
  apply (locator_none_is_blocked_or_top
           [ln "using System;"; ln ""; ln "[Serializable]"; ln "public class A"] 3).
  reflexivity.
Defined.

(** X3: the locator returns for every index up to the length of the
    buffer, and raises [IndexError] for every index beyond it. *)
Theorem locator_raises_beyond_buffer_only (lines : list string) (idx : nat) :
  ((exists r, find_preceding_xml_block lines idx = Ok r)
   <-> idx <= List.length lines) /\
  (find_preceding_xml_block lines idx = IndexError
   <-> List.length lines < idx).
Proof.
  split; split.
  - intros [r H]. now destruct (find_preceding_xml_block_returns _ _ _ H).
  - apply find_preceding_xml_block_total.
  - intros H. destruct (Nat.le_gt_cases idx (List.length lines)) as [Hle | Hgt];
      [| exact Hgt].
    destruct (find_preceding_xml_block_total lines idx Hle) as [r E].
    congruence.
  - apply scan_up_out_of_range.
Qed.

(** ** Declaration lines and comment lines *)

Lemma access_head_barrier (x : string) c t :
  Str.lstrip x = String c t ->
  Str.mem_char c "publicinternal" = true ->
  is_barrier x = true.
Proof.
  intros E Hc.
  unfold is_barrier, is_doc_line, is_skippable. rewrite E.
  destruct (access_letter_not_slash _ Hc) as [Hsl Hbr].
  assert (H1 : Str.startswith "///" (String c t) = false)
    by (cbn [Str.startswith]; now rewrite Hsl).
  assert (H2 : Str.startswith "[" (String c t) = false)
    by (cbn [Str.startswith]; now rewrite Hbr).
  assert (H3 : String.eqb (Str.strip (String c t)) "" = false).
  { destruct (String.eqb (Str.strip (String c t)) "") eqn:Eb; [| reflexivity].
    exfalso.
    assert (Hb : is_blank x = true) by (unfold is_blank; now rewrite E).
    apply is_blank_spaces in Hb. apply lstrip_empty_iff in Hb.
    rewrite Hb in E. discriminate. }
  rewrite H1, H2, H3. reflexivity.
Qed.

Lemma with_access_barrier (tail : re) (x : string) r :
  match_ (with_access tail) x = Some r -> is_barrier x = true.
Proof.
  intros H. destruct (with_access_head _ _ _ H) as (c & t & E & Hc).
  eapply access_head_barrier; eassumption.
Qed.

(** X4: a [///] line, a blank line and a line that opens with a bracket
    match none of the three declaration patterns. *)
Theorem comment_and_attribute_lines_match_no_pattern (x : string) :
  is_doc_line x = true \/ is_skippable x = true ->
  match_ TYPE_PATTERN x = None /\
  match_ METHOD_PATTERN x = None /\
  match_ PROPERTY_PATTERN x = None.
Proof.
  intros H.
  assert (Hb : is_barrier x = false).
  { unfold is_barrier. destruct H as [-> | ->]; [reflexivity |].
    apply andb_false_r. }
  destruct TYPE_PATTERN_head as [t1 ->].
  destruct METHOD_PATTERN_head as [t2 ->].
  destruct PROPERTY_PATTERN_head as [t3 ->].
  repeat split;
    match goal with
    | |- ?m = None =>
        destruct m as [r |] eqn:E; [| reflexivity];
        apply with_access_barrier in E; congruence
    end.
Qed.

Lemma comment_and_attribute_lines_match_no_pattern_witness :
  (is_doc_line "    /// public class Widget" = true \/
   is_skippable "    /// public class Widget" = true) /\
  match_ TYPE_PATTERN "    /// public class Widget" = None /\
  match_ METHOD_PATTERN "    /// public class Widget" = None /\
  match_ PROPERTY_PATTERN "    /// public class Widget" = None.
Proof.
  split; [left; reflexivity |].
  apply (comment_and_attribute_lines_match_no_pattern
           "    /// public class Widget").
  left. reflexivity.
Defined.

(** ** The changed flag *)

(** The loop ends with the flag raised exactly when it spliced. *)
Lemma process_loop_flag (path text : string) (T : list string) :
  forall fuel D ct ch, List.length T <= fuel ->
    exists ct',
      process_loop fuel path text (mkState (D ++ T)%list (List.length D) ct ch)
      = Ok (mkState (reconcile path text ct D T)
              (List.length (reconcile path text ct D T)) ct'
              (ch || spliced path text ct D T)).
Proof.
  induction T as [| x T IH]; intros fuel D ct ch Hfuel.
  - exists ct. rewrite app_nil_r. cbn [reconcile spliced]. rewrite orb_false_r.
    destruct fuel; simpl; rewrite Nat.ltb_irrefl; reflexivity.
  - destruct fuel as [| fuel]; [simpl in Hfuel; lia |].
    simpl process_loop. simpl lines. simpl i.
    assert (Hlt : (List.length D <? List.length (D ++ x :: T)%list)%nat = true)
      by (apply Nat.ltb_lt; rewrite length_app; simpl; lia).
    rewrite Hlt. rewrite process_line_spec. simpl bind.
    cbn [reconcile spliced]. simpl in Hfuel.
    destruct (classify x) as [d |].
    + destruct (IH fuel (above_after path text ct d D ++ [x])%list
                  (next_type ct d) (ch || splices path d D) ltac:(lia))
        as (ct' & E).
      rewrite <- app_assoc, length_app, Nat.add_comm in E. simpl in E.
      exists ct'. rewrite E. now rewrite orb_assoc.
    + destruct (IH fuel (D ++ [x])%list ct ch ltac:(lia)) as (ct' & E).
      rewrite <- app_assoc, length_app, Nat.add_comm in E. simpl in E.
      exists ct'. exact E.
Qed.

Lemma process_file_flag (path text : string) :
  process_file path text
  = Ok (spliced path text None [] (Str.splitlines text),
        reconcile path text None [] (Str.splitlines text)).
Proof.
  unfold process_file, initial.
  destruct (process_loop_flag path text (Str.splitlines text)
              (List.length (Str.splitlines text)) [] None false (le_n _))
    as (ct' & E).
  simpl in E. rewrite E. reflexivity.
Qed.

(** No splice: at every declaration the lines above were left. *)
Lemma spliced_false_iff (path text : string) (T : list string) :
  forall D ct,
    spliced path text ct D T = false <->
    (forall T1 x T2 d,
        T = (T1 ++ x :: T2)%list -> classify x = Some d ->
        splices path d (D ++ T1)%list = false).
Proof.
  induction T as [| x0 T IH]; intros D ct; cbn [spliced].
  - split; [| reflexivity]. intros _ T1 x T2 d E. now destruct T1.
  - destruct (classify x0) as [d0 |] eqn:E0.
    + split.
      * intros H. apply orb_false_iff in H. destruct H as [H1 H2].
        rewrite (splices_false path text ct d0 D H1) in H2.
        intros T1 x T2 d E Hd. destruct T1 as [| y T1]; cbn [app] in E.
        -- injection E as <- <-. rewrite app_nil_r.
           rewrite E0 in Hd. now injection Hd as <-.
        -- injection E as <- ->.
           pose proof (proj1 (IH _ _) H2 T1 x T2 d eq_refl Hd) as H.
           now rewrite <- app_assoc in H.
      * intros H.
        assert (H1 : splices path d0 D = false).
        { pose proof (H [] x0 T d0 eq_refl E0) as H1.
          now rewrite app_nil_r in H1. }
        rewrite H1, (splices_false path text ct d0 D H1). cbn [orb].
        apply IH. intros T1 x T2 d -> Hd. rewrite <- app_assoc.
        apply (H (x0 :: T1) x T2 d eq_refl Hd).
    + split.
      * intros H2 T1 x T2 d E Hd. destruct T1 as [| y T1]; cbn [app] in E.
        -- injection E as <- <-. congruence.
        -- injection E as <- ->.
           pose proof (proj1 (IH _ _) H2 T1 x T2 d eq_refl Hd) as H.
           now rewrite <- app_assoc in H.
      * intros H. apply IH. intros T1 x T2 d -> Hd. rewrite <- app_assoc.
        apply (H (x0 :: T1) x T2 d eq_refl Hd).
Qed.

(** No splice at a declaration, in the terms of the script: the locator
    finds a block, and nothing asks for its replacement. *)
Lemma splices_false_iff (path : string) d (D X : list string) :
  splices path d D = false <->
  exists start end_,
    find_preceding_xml_block (D ++ X)%list (List.length D)
    = Ok (Some (start, end_)) /\
    wants_replace path d (Str.cat (slice (D ++ X)%list start end_)) = false.
Proof.
  rewrite find_preceding_xml_block_spec. unfold splices.
  destruct (locate (rev D)) as [[m b] |] eqn:EL; cbn [span_of].
  - destruct (locate_bounds _ _ _ EL) as [Hb Hn]. rewrite length_rev in Hn.
    split.
    + intros H. eexists _, _. split; [reflexivity |].
      now rewrite slice_above by assumption.
    + intros (s & e & [= <- <-] & H).
      now rewrite slice_above in H by assumption.
  - split; [discriminate |]. intros (s & e & E & _). discriminate.
Qed.

Lemma nth_error_cut {A} (L : list A) i x :
  nth_error L i = Some x <->
  exists T1 T2, L = (T1 ++ x :: T2)%list /\ List.length T1 = i.
Proof.
  split.
  - intros H. destruct (nth_error_split L i H) as (T1 & T2 & E & Hl). eauto.
  - intros (T1 & T2 & -> & <-). rewrite nth_error_app2 by lia.
    now rewrite Nat.sub_diag.
Qed.

(** X5: [process_file] returns [False], with the lines of the file as its
    buffer, exactly when every declaration line of the file has a block
    that the locator finds and nothing asks for its replacement. *)
Theorem unchanged_iff_every_declaration_documented (path text : string) :
  process_file path text = Ok (false, Str.splitlines text) <->
  (forall i x d,
      nth_error (Str.splitlines text) i = Some x -> classify x = Some d ->
      exists start end_,
        find_preceding_xml_block (Str.splitlines text) i
        = Ok (Some (start, end_)) /\
        wants_replace path d
          (Str.cat (slice (Str.splitlines text) start end_)) = false).
Proof.
  rewrite process_file_flag. set (L := Str.splitlines text).
  assert (HS : spliced path text None [] L = false <->
               (forall i x d,
                   nth_error L i = Some x -> classify x = Some d ->
                   exists start end_,
                     find_preceding_xml_block L i = Ok (Some (start, end_)) /\
                     wants_replace path d (Str.cat (slice L start end_)) = false)).
  { rewrite spliced_false_iff. split.
    - intros H i x d Hn Hd. apply nth_error_cut in Hn.
      destruct Hn as (T1 & T2 & E & <-).
      specialize (H T1 x T2 d E Hd). cbn [app] in H.
      rewrite E. now apply splices_false_iff.
    - intros H T1 x T2 d E Hd. cbn [app].
      apply (splices_false_iff path d T1 (x :: T2)). rewrite <- E.
      apply (H (List.length T1) x d); [| exact Hd].
      apply nth_error_cut. eauto. }
  split.
  - intros [= Hf _]. now apply HS.
  - intros H. apply HS in H.
    destruct (process_file_spec path text) as [ch [E Hlow]].
    rewrite process_file_flag in E. injection E as <-.
    fold L in Hlow. now rewrite H, (Hlow H).
Qed.

(** X6: when [process_file] returns [False], its buffer is the lines of
    the file as they were read. *)
Theorem unchanged_flag_means_untouched_buffer
    (path text : string) (buffer : list string) :
  process_file path text = Ok (false, buffer) -> buffer = Str.splitlines text.
Proof.
  intros H. destruct (process_file_spec path text) as [ch [E Hlow]].
  rewrite E in H. injection H as -> <-. now apply Hlow.
Qed.

Lemma unchanged_flag_means_untouched_buffer_witness :
  process_file "Counter.cs" (Str.cat (firstn 5 documented_count_buffer))
  = Ok (false, firstn 5 documented_count_buffer) /\
  firstn 5 documented_count_buffer
  = Str.splitlines (Str.cat (firstn 5 documented_count_buffer)).
Proof.
  split; [reflexivity |].
  apply (unchanged_flag_means_untouched_buffer
           "Counter.cs" (Str.cat (firstn 5 documented_count_buffer))).
  reflexivity.
Defined.

(** X7: a file that holds an interface declaration makes [process_file]
    return [True], whatever stands above the declaration. *)
Theorem interface_always_reported_changed
    (path text x : string) (m : string * captures) :
  In x (Str.splitlines text) ->
  match_ TYPE_PATTERN x = Some m ->
  grp 2 m = "interface" ->
  exists buffer, process_file path text = Ok (true, buffer).
Proof.
  intros Hin Hm Hk. rewrite process_file_flag. eexists.
  destruct (spliced path text None [] (Str.splitlines text)) eqn:E;
    [reflexivity |].
  exfalso. apply In_nth_error in Hin. destruct Hin as [i Hi].
  apply nth_error_cut in Hi. destruct Hi as (T1 & T2 & EL & _).
  assert (Hd : classify x = Some (TypeDecl m))
    by (unfold classify; now rewrite Hm).
  pose proof (proj1 (spliced_false_iff path text _ _ _) E T1 x T2 _ EL Hd) as H.
  unfold splices in H.
  destruct (locate (rev ([] ++ T1)%list)) as [[k b] |]; [| discriminate].
  cbn [wants_replace] in H. rewrite Hk in H.
  rewrite orb_true_r in H. discriminate.
Qed.

Lemma interface_always_reported_changed_witness :
  exists buffer,
    process_file "IShape.cs"
      (ln "/// <summary>" ++ ln "/// Shape 인터페이스를 정의합니다."
       ++ ln "/// </summary>" ++ ln "public interface IShape")%string
    = Ok (true, buffer) /\
    Str.cat buffer
    = (ln "/// <summary>" ++ ln "/// Shape 인터페이스를 정의합니다."
       ++ ln "/// </summary>" ++ ln "public interface IShape")%string.
Proof.
  destruct (interface_always_reported_changed "IShape.cs"
              (ln "/// <summary>" ++ ln "/// Shape 인터페이스를 정의합니다."
               ++ ln "/// </summary>" ++ ln "public interface IShape")%string
              (ln "public interface IShape")
              (Str.nl, [(3, "IShape"); (2, "interface"); (1, "public")]))
    as [buffer E].
  - vm_compute. tauto.
  - reflexivity.
  - reflexivity.
  - exists buffer. split; [exact E |].
    vm_compute in E. injection E as <-. reflexivity.
Defined.

(** ** After a run every declaration is documented *)

Lemma all_documented_nil : all_documented [].
Proof. intros i x d H. now destruct i. Qed.

Lemma firstn_app_short {A} (n : nat) (a b : list A) :
  n <= List.length a -> firstn n (a ++ b)%list = firstn n a.
Proof.
  intros H. rewrite firstn_app.
  replace (n - List.length a) with 0 by lia. cbn [firstn]. apply app_nil_r.
Qed.

Lemma all_documented_prefix (A R : list string) :
  all_documented (A ++ R)%list -> all_documented A.
Proof.
  intros H i x d Hn Hd.
  assert (Hi : i < List.length A) by (apply nth_error_Some; congruence).
  rewrite <- (firstn_app_short i A R) by lia.
  apply (H i x d); [| exact Hd]. now rewrite nth_error_app1.
Qed.

Lemma all_documented_app_plain (A N : list string) :
  all_documented A -> Forall (fun l => classify l = None) N ->
  all_documented (A ++ N)%list.
Proof.
  intros HA FN i x d Hn Hd.
  destruct (Nat.lt_ge_cases i (List.length A)) as [Hi | Hi].
  - rewrite nth_error_app1 in Hn by exact Hi.
    rewrite firstn_app_short by lia. now apply (HA i x d).
  - rewrite nth_error_app2 in Hn by exact Hi. apply nth_error_In in Hn.
    rewrite Forall_forall in FN. rewrite (FN x Hn) in Hd. discriminate.
Qed.

Lemma all_documented_snoc (A : list string) x :
  all_documented A -> locate (rev A) <> None ->
  all_documented (A ++ [x])%list.
Proof.
  intros HA HL i y d Hn Hd.
  destruct (Nat.lt_ge_cases i (List.length A)) as [Hi | Hi].
  - rewrite nth_error_app1 in Hn by exact Hi.
    rewrite firstn_app_short by lia. now apply (HA i y d).
  - assert (i < List.length (A ++ [x])%list)
      by (apply nth_error_Some; congruence).
    rewrite length_app in H. cbn [List.length] in H.
    assert (i = List.length A) by lia. subst i.
    now rewrite firstn_length_app.
Qed.

Lemma stepped_not_classified (l : string) :
  is_stepped_over l = true -> classify l = None.
Proof.
  intros H. destruct (classify l) as [d |] eqn:E; [| reflexivity].
  apply classify_barrier in E. unfold is_barrier in E.
  unfold is_stepped_over in H.
  destruct (is_doc_line l), (is_skippable l); discriminate.
Qed.

Lemma locate_below_block (A G : list string) :
  G <> [] -> Forall (fun l => is_doc_line l = true) G ->
  locate (rev (A ++ G)%list) <> None.
Proof.
  intros NG FG. rewrite rev_app_distr.
  destruct (rev G) as [| g r] eqn:E.
  - exfalso. apply NG. rewrite <- (rev_involutive G), E. reflexivity.
  - assert (Hg : is_doc_line g = true).
    { assert (Hin : In g (rev G)) by (rewrite E; now left).
      apply In_rev in Hin. rewrite Forall_forall in FG. now apply FG. }
    cbn [app]. rewrite locate_cons, Hg. discriminate.
Qed.

(** Processing a declaration leaves the declarations above it documented
    and a block in reach of the declaration itself. *)
Lemma above_after_documented path text ct d (D : list string) :
  all_documented D ->
  all_documented (above_after path text ct d D) /\
  locate (rev (above_after path text ct d D)) <> None.
Proof.
  intros HD.
  pose proof (new_block_doc path text ct d) as FG.
  pose proof (new_block_nonempty path text ct d) as NG.
  assert (PG : Forall (fun l => classify l = None) (new_block path text ct d)).
  { eapply Forall_impl; [| exact FG]. intros l. apply doc_line_not_classified. }
  destruct (locate (rev D)) as [[m b] |] eqn:EL.
  - destruct (locate_cut _ _ _ EL) as (Q1 & B & M & -> & Lm & Lb & _ & FM & FB).
    subst m b. rewrite (above_after_cut path text ct d Q1 B M EL).
    destruct (wants_replace path d (Str.cat B)).
    + split.
      * apply all_documented_app_plain.
        -- now apply all_documented_prefix in HD.
        -- apply Forall_app. split; [| exact PG].
           eapply Forall_impl; [| exact FM]. intros l.
           apply stepped_not_classified.
      * rewrite app_assoc. now apply locate_below_block.
    + split; [exact HD | congruence].
  - unfold above_after. rewrite EL. split.
    + now apply all_documented_app_plain.
    + now apply locate_below_block.
Qed.

Lemma reconcile_documented path text (T : list string) :
  forall D ct,
    all_documented D -> all_documented (reconcile path text ct D T).
Proof.
  induction T as [| x T IH]; intros D ct HD; cbn [reconcile]; [exact HD |].
  destruct (classify x) as [d |] eqn:Ex.
  - apply IH. destruct (above_after_documented path text ct d D HD) as [H1 H2].
    now apply all_documented_snoc.
  - apply IH. apply all_documented_app_plain; [exact HD |].
    now repeat constructor.
Qed.

(** X8: in the buffer that [process_file] ends with, the locator finds a
    block above every declaration line. *)
Theorem every_declaration_documented_after_run
    (path text : string) (flag : bool) (buffer : list string) :
  process_file path text = Ok (flag, buffer) ->
  forall i x d,
    nth_error buffer i = Some x -> classify x = Some d ->
    exists start end_,
      find_preceding_xml_block buffer i = Ok (Some (start, end_)).
Proof.
  intros H i x d Hn Hd.
  rewrite process_file_flag in H. injection H as _ <-.
  pose proof (reconcile_documented path text (Str.splitlines text) [] None
                all_documented_nil i x d Hn Hd) as HL.
  set (buffer := reconcile path text None [] (Str.splitlines text)) in *.
  assert (Hi : i <= List.length buffer)
    by (apply Nat.lt_le_incl; apply nth_error_Some; congruence).
  pose proof (find_preceding_xml_block_spec (firstn i buffer) (skipn i buffer))
    as E.
  rewrite firstn_skipn, length_firstn, Nat.min_l in E by exact Hi.
  rewrite E. destruct (locate (rev (firstn i buffer))) as [[m b] |];
    [| congruence].
  cbn [span_of]. eauto.
Qed.

Lemma every_declaration_documented_after_run_witness :
  exists buffer,
    process_file "Widget.cs" widget_file = Ok (true, buffer) /\
    forall i x d,
      nth_error buffer i = Some x -> classify x = Some d ->
      exists start end_,
        find_preceding_xml_block buffer i = Ok (Some (start, end_)).
Proof.
  destruct (process_file "Widget.cs" widget_file) as [[flag buffer] | |] eqn:E;
    try (vm_compute in E; discriminate).
  exists buffer. split.
  - vm_compute in E. injection E as <- <-. reflexivity.
  - exact (every_declaration_documented_after_run
             "Widget.cs" widget_file flag buffer E).
Defined.

(** ** More on texts *)

Lemma rev_acc_append (s acc : string) :
  Str.rev_acc s acc = (Str.rev s ++ acc)%string.
Proof.
  unfold Str.rev. revert acc.
  induction s as [| c s IH]; intros acc; cbn [Str.rev_acc]; [reflexivity |].
  rewrite (IH (String c acc)), (IH (String c "")).
  now rewrite append_assoc.
Qed.

Lemma rev_cons c (s : string) :
  Str.rev (String c s) = (Str.rev s ++ String c "")%string.
Proof. unfold Str.rev at 1. cbn [Str.rev_acc]. apply rev_acc_append. Qed.

Lemma rev_append (a b : string) :
  Str.rev (a ++ b) = (Str.rev b ++ Str.rev a)%string.
Proof.
  induction a as [| c a IH]; cbn [append].
  - now rewrite append_nil_r.
  - now rewrite !rev_cons, IH, append_assoc.
Qed.

Lemma rev_rev (s : string) : Str.rev (Str.rev s) = s.
Proof.
  induction s as [| c s IH]; [reflexivity |].
  now rewrite rev_cons, rev_append, IH.
Qed.

Lemma startswith_iff (p s : string) :
  Str.startswith p s = true <-> exists rest, s = (p ++ rest)%string.
Proof.
  revert s. induction p as [| c p IH]; intros s.
  - split; [intros _; now exists s | reflexivity].
  - destruct s as [| d s]; cbn [Str.startswith].
    + split; [discriminate | intros [rest E]; discriminate].
    + rewrite andb_true_iff, Ascii.eqb_eq, IH. split.
      * intros [-> [rest ->]]. now exists rest.
      * intros [rest [= -> ->]]. split; [reflexivity | now exists rest].
Qed.

(** [s.endswith(p)]: [p] is a suffix of [s]. *)
Lemma endswith_iff (p s : string) :
  Str.endswith p s = true <-> exists front, s = (front ++ p)%string.
Proof.
  unfold Str.endswith. rewrite startswith_iff. split.
  - intros [rest E]. exists (Str.rev rest).
    rewrite <- (rev_rev s), E, rev_append. now rewrite rev_rev.
  - intros [front ->]. exists (Str.rev front). apply rev_append.
Qed.

Lemma lstrip_no_space (s : string) :
  Str.forallb (fun c => negb (Char.is_space c)) s = true -> Str.lstrip s = s.
Proof.
  destruct s as [| c s]; [reflexivity |]. cbn [Str.forallb Str.lstrip].
  intros H. apply andb_true_iff in H. destruct H as [Hc _].
  apply negb_true_iff in Hc. now rewrite Hc.
Qed.

(** A text without whitespace is its own [strip()]. *)
Lemma strip_no_space (s : string) :
  Str.forallb (fun c => negb (Char.is_space c)) s = true -> Str.strip s = s.
Proof.
  intros H. unfold Str.strip, Str.rstrip.
  rewrite (lstrip_no_space s H).
  rewrite lstrip_no_space by (now rewrite rev_forallb).
  apply rev_rev.
Qed.

Lemma split_ws_nonempty (s : string) :
  Forall (fun w => Str.nonempty w = true) (Str.split_ws s).
Proof.
  induction s as [| c s IH]; [constructor |].
  cbn [Str.split_ws]. destruct (Char.is_space c); [exact IH |].
  destruct s as [| d s']; [now repeat constructor |].
  destruct (Char.is_space d); [now constructor |].
  destruct (Str.split_ws (String d s')) as [| w ws]; [now repeat constructor |].
  inversion IH; subst. now constructor.
Qed.

Lemma split_on_length (c : ascii) (s : string) :
  1 <= List.length (Str.split_on c s).
Proof.
  induction s as [| d s IH]; cbn [Str.split_on]; [simpl; lia |].
  destruct (Ascii.eqb d c); [simpl; lia |].
  destruct (Str.split_on c s); simpl in *; lia.
Qed.

(** ** Block Builder: layout, lines and parameter names *)

Lemma last_Forall_nonempty {A} (P : A -> Prop) (l : list A) d :
  Forall P l -> l <> [] -> P (List.last l d).
Proof.
  induction 1 as [| a l Ha Hl IH]; intros N; [congruence |].
  destruct l as [| b l]; [exact Ha |]. apply IH. discriminate.
Qed.

(** The line of a parameter, when there is one. *)
Lemma param_line_inv po p l :
  param_line po p = Some l ->
  exists name desc,
    l = ("/// <param name=" ++ Str.dquote ++ name ++ Str.dquote ++ ">"
         ++ desc ++ "</param>" ++ Str.nl)%string /\
    Str.nonempty name = true /\
    Str.forallb (fun c => negb (Char.is_space c)) name = true /\
    str_in name param_modifiers = false /\
    desc = match po with
           | Some d =>
               match dict_get name d with
               | Some v => v
               | None => param_korean_desc name
               end
           | None => param_korean_desc name
           end.
Proof.
  unfold param_line. destruct (negb (Str.nonempty p)); [discriminate |].
  set (left := Str.strip (hd EmptyString (Str.split_on "=" _))).
  set (parts := List.filter _ (Str.split_ws left)).
  assert (FP : Forall (fun w => Str.nonempty w = true /\
                                Str.forallb (fun c => negb (Char.is_space c)) w = true /\
                                str_in w param_modifiers = false) parts).
  { apply Forall_forall. intros w Hw. unfold parts in Hw.
    apply filter_In in Hw. destruct Hw as [Hin Hf].
    pose proof (split_ws_nonempty left) as F1.
    pose proof (split_ws_tokens left) as F2.
    rewrite Forall_forall in F1, F2.
    repeat split; [now apply F1 | now apply F2 | now apply negb_true_iff in Hf]. }
  destruct parts as [| w ws] eqn:EP; [discriminate |].
  assert (N : w :: ws <> []) by discriminate.
  pose proof (last_Forall_nonempty _ (w :: ws) EmptyString FP N) as HL.
  cbv beta in HL. destruct HL as (H1 & H2 & H3).
  rewrite (strip_no_space _ H2).
  set (name := List.last (w :: ws) EmptyString) in *.
  intros [= <-]. exists name. eexists. split; [reflexivity |].
  repeat split; try assumption.
  destruct po as [d |]; [| reflexivity].
  destruct d as [| kv d]; reflexivity.
Qed.

(** The parameter lines of a block, in the order of the pieces. *)
Lemma fold_param_lines po (ps acc : list string) :
  fold_left
    (fun block p =>
       match param_line po p with
       | Some l => (block ++ [l])%list
       | None => block
       end) ps acc
  = (acc ++ flat_map (fun p => match param_line po p with
                               | Some l => [l]
                               | None => []
                               end) ps)%list.
Proof.
  revert acc. induction ps as [| p ps IH]; intros acc; cbn [fold_left flat_map].
  - now rewrite app_nil_r.
  - rewrite IH. destruct (param_line po p); [now rewrite <- app_assoc | reflexivity].
Qed.

Lemma flat_map_option_length {A B} (f : A -> option B) (l : list A) :
  List.length (flat_map (fun a => match f a with Some b => [b] | None => [] end) l)
  <= List.length l.
Proof.
  induction l as [| a l IH]; [apply le_n |]. cbn [flat_map].
  rewrite length_app. destruct (f a); simpl; lia.
Qed.

Lemma method_block_split summary ret params hint po ro :
  build_method_block summary ret params hint po ro
  = (build_summary_block summary
     ++ flat_map (fun p => match param_line po p with
                           | Some l => [l]
                           | None => []
                           end)
          (if Str.nonempty (Str.strip params)
           then List.map Str.strip (Str.split_on "," params) else [])
     ++ (if String.eqb ret "" || String.eqb ret "void" then []
         else [("/// <returns>"
                ++ py_or ro (py_or hint (return_korean_desc_by_name summary))
                ++ "</returns>" ++ Str.nl)%string]))%list.
Proof.
  unfold build_method_block. rewrite fold_param_lines.
  assert (E : Str.nonempty ret && negb (String.eqb ret "void")
              = negb (String.eqb ret "" || String.eqb ret "void")).
  { destruct ret as [| c r]; [reflexivity |]. cbn [Str.nonempty andb].
    now destruct (String.eqb (String c r) "void"). }
  rewrite E. destruct (String.eqb ret "" || String.eqb ret "void"); cbn [negb].
  - now rewrite app_nil_r.
  - now rewrite <- app_assoc.
Qed.

(** X9: the block of a method is the summary block, then at most one
    parameter line for each comma-separated piece of the parameter text
    (none when that text is blank), then the returns line, which is there
    unless the return type is empty or [void]. *)
Theorem method_block_layout summary ret params hint po ro :
  exists ps rs,
    build_method_block summary ret params hint po ro
    = (build_summary_block summary ++ ps ++ rs)%list /\
    Forall (fun l => Str.startswith ("/// <param name=" ++ Str.dquote) l = true) ps /\
    List.length ps <= List.length (Str.split_on "," params) /\
    (Str.strip params = EmptyString -> ps = []) /\
    rs = if String.eqb ret "" || String.eqb ret "void" then []
         else [("/// <returns>"
                ++ py_or ro (py_or hint (return_korean_desc_by_name summary))
                ++ "</returns>" ++ Str.nl)%string].
Proof.
  rewrite method_block_split. eexists _, _. split; [reflexivity |].
  split; [| split; [| split; [| reflexivity]]].
  - apply Forall_forall. intros l Hl. apply in_flat_map in Hl.
    destruct Hl as (p & _ & Hl).
    destruct (param_line po p) as [l' |] eqn:E; [| contradiction].
    destruct Hl as [<- | []].
    destruct (param_line_inv _ _ _ E) as (name & desc & -> & _). reflexivity.
  - etransitivity; [apply flat_map_option_length |].
    destruct (Str.nonempty (Str.strip params)).
    + now rewrite length_map.
    + cbn [List.length]. pose proof (split_on_length "," params). lia.
  - intros ->. reflexivity.
Qed.

(** X11: a parameter line names a non-empty word without whitespace that
    is none of the modifiers, and describes it by the override for that
    name when there is one, else by [param_korean_desc]. *)
Theorem param_line_names_last_plain_word po p l :
  param_line po p = Some l ->
  exists name desc,
    l = ("/// <param name=" ++ Str.dquote ++ name ++ Str.dquote ++ ">"
         ++ desc ++ "</param>" ++ Str.nl)%string /\
    Str.nonempty name = true /\
    Str.forallb (fun c => negb (Char.is_space c)) name = true /\
    str_in name param_modifiers = false /\
    desc = match po with
           | Some d =>
               match dict_get name d with
               | Some v => v
               | None => param_korean_desc name
               end
           | None => param_korean_desc name
           end.
Proof. apply param_line_inv. Qed.

Lemma param_line_names_last_plain_word_witness :
  param_line (Some [("color", "색상 값")])
    "[NotNull] this  ref Color color = default"
  = Some ("/// <param name=" ++ Str.dquote ++ "color" ++ Str.dquote ++ ">"
          ++ "색상 값" ++ "</param>" ++ Str.nl)%string /\
  exists name desc,
    ("/// <param name=" ++ Str.dquote ++ "color" ++ Str.dquote ++ ">"
     ++ "색상 값" ++ "</param>" ++ Str.nl)%string
    = ("/// <param name=" ++ Str.dquote ++ name ++ Str.dquote ++ ">"
       ++ desc ++ "</param>" ++ Str.nl)%string /\
    Str.nonempty name = true /\
    Str.forallb (fun c => negb (Char.is_space c)) name = true /\
    str_in name param_modifiers = false /\
    desc = match dict_get name [("color", "색상 값")] with
           | Some v => v
           | None => param_korean_desc name
           end.
Proof.
  split; [reflexivity |].
  apply (param_line_names_last_plain_word
           (Some [("color", "색상 값")])
           "[NotNull] this  ref Color color = default").
  reflexivity.
Defined.

(** The lines of the block of a method are comment lines. *)
Lemma method_block_comment_lines summary ret params hint po ro :
  unbroken summary = true -> text_ok hint -> params_ok po -> text_ok ro ->
  Forall comment_line (build_method_block summary ret params hint po ro).
Proof.
  intros Hs Hh Hpo Hro. unfold comment_line. rewrite method_block_split.
  apply Forall_app. split; [| apply Forall_app; split].
  - unfold build_summary_block. repeat constructor.
    + now exists " <summary>".
    + exists (" " ++ summary)%string. split; [reflexivity |].
      now rewrite unbroken_append, Hs.
    + now exists " </summary>".
  - apply Forall_forall. intros l Hl. apply in_flat_map in Hl.
    destruct Hl as (p & _ & Hl).
    destruct (param_line po p) as [l' |] eqn:E; [| contradiction].
    destruct Hl as [<- | []].
    destruct (param_line_inv _ _ _ E) as (name & desc & -> & _ & Hn & _ & Hd).
    assert (Un : unbroken name = true).
    { unfold unbroken. eapply forallb_weaken; [| exact Hn].
      apply not_space_not_linebreak. }
    assert (Ud : unbroken desc = true).
    { subst desc. destruct po as [d |]; [| apply param_korean_desc_unbroken].
      destruct (dict_get name d) as [v |] eqn:Ev;
        [| apply param_korean_desc_unbroken].
      revert Ev. apply (dict_get_value (fun v => unbroken v = true)). exact Hpo. }
    exists (" <param name=" ++ Str.dquote ++ name ++ Str.dquote ++ ">"
            ++ desc ++ "</param>")%string.
    split.
    + rewrite !append_assoc. reflexivity.
    + now rewrite !unbroken_append, Un, Ud.
  - destruct (String.eqb ret "" || String.eqb ret "void"); constructor;
      [| constructor].
    set (desc := py_or ro (py_or hint (return_korean_desc_by_name summary))).
    assert (Ud : unbroken desc = true).
    { apply py_or_unbroken; [exact Hro |].
      apply py_or_unbroken; [exact Hh | apply return_desc_unbroken]. }
    exists (" <returns>" ++ desc ++ "</returns>")%string. split.
    + rewrite !append_assoc. reflexivity.
    + now rewrite !unbroken_append, Ud.
Qed.


(** X10: when the summary, the return hint and the override texts hold no
    line boundary, every line of the block of a method is one comment
    line: three slashes, a text without line boundary, one line feed;
    whatever the parameter text is. *)
Theorem method_block_lines_are_single_comment_lines
    summary ret params hint po ro :
  unbroken summary = true -> text_ok hint -> params_ok po -> text_ok ro ->
  Forall (fun l => exists body,
              l = ("///" ++ body ++ Str.nl)%string /\ unbroken body = true)
         (build_method_block summary ret params hint po ro).
Proof. apply method_block_comment_lines. Qed.

Lemma method_block_lines_are_single_comment_lines_witness :
  (unbroken "값을 더합니다." = true /\ text_ok None /\
   params_ok (Some [("a", "첫째 값")]) /\ text_ok (Some "합계")) /\
  Forall (fun l => exists body,
              l = ("///" ++ body ++ Str.nl)%string /\ unbroken body = true)
         (build_method_block "값을 더합니다." "int" "int a, List<int, int> b"
            None (Some [("a", "첫째 값")]) (Some "합계")).
Proof.
  assert (H : unbroken "값을 더합니다." = true /\ text_ok None /\
              params_ok (Some [("a", "첫째 값")]) /\ text_ok (Some "합계"))
    by (repeat split; repeat constructor).
  split; [exact H |]. destruct H as (H1 & H2 & H3 & H4).
  exact (method_block_lines_are_single_comment_lines
           "값을 더합니다." "int" "int a, List<int, int> b"
           None (Some [("a", "첫째 값")]) (Some "합계") H1 H2 H3 H4).
Defined.

(** ** Override Resolver: which files an entry applies to *)

Lemma table_kinds key spec kind members :
  In (key, spec) DOC_OVERRIDES -> dict_get kind spec = Some members ->
  kind = "method".
Proof.
  intros Hin Hk. apply dict_get_In in Hk. simpl in Hin.
  repeat destruct Hin as [Hin | Hin]; try contradiction;
    injection Hin as <- <-; simpl in Hk;
    destruct Hk as [Hk | []]; now injection Hk as <- _.
Qed.

Lemma lookup3_method key spec kind name o :
  In (key, spec) DOC_OVERRIDES -> lookup3 spec kind name = Some o ->
  kind = "method" /\ In (key, (name, o)) method_entries.
Proof.
  intros Hin H. unfold lookup3 in H.
  destruct (dict_get kind spec) as [members |] eqn:Ek; [| discriminate].
  assert (kind = "method") by (eapply table_kinds; eassumption). subst kind.
  split; [reflexivity |]. apply dict_get_In in H.
  unfold method_entries. apply in_flat_map. exists (key, spec).
  split; [exact Hin |]. cbn [fst snd]. rewrite Ek.
  apply in_map_iff. now exists (name, o).
Qed.

Lemma method_entries_lookup key name o :
  In (key, (name, o)) method_entries ->
  exists spec,
    In (key, spec) DOC_OVERRIDES /\ lookup3 spec "method" name = Some o.
Proof.
  intros H. simpl in H.
  repeat destruct H as [H | H]; try contradiction;
    injection H as <- <- <-; unfold DOC_OVERRIDES; eexists;
    (split;
     [ first [ left; reflexivity
             | right; left; reflexivity
             | right; right; left; reflexivity ]
     | reflexivity ]).
Qed.

(** No member name occurs twice in the table. *)
Lemma method_entries_unique k1 k2 name o1 o2 :
  In (k1, (name, o1)) method_entries -> In (k2, (name, o2)) method_entries ->
  k1 = k2 /\ o1 = o2.
Proof.
  intros H1 H2. simpl in H1, H2.
  repeat destruct H1 as [H1 | H1]; try contradiction;
    repeat destruct H2 as [H2 | H2]; try contradiction;
    injection H1 as <- <- <-; try discriminate H2;
    injection H2 as <- <-; now split.
Qed.

Lemma match_suffix_sound table fname kind name o :
  match_suffix table fname kind name = Some o ->
  exists key spec,
    In (key, spec) table /\ Str.endswith fname key = true /\
    lookup3 spec kind name = Some o.
Proof.
  induction table as [| [key spec] table IH]; cbn [match_suffix];
    [discriminate |].
  destruct (Str.endswith fname key) eqn:Ee.
  - destruct (lookup3 spec kind name) as [o' |] eqn:El.
    + intros [= ->]. exists key, spec. repeat split; [now left | assumption..].
    + intros H. destruct (IH H) as (k & s & Hin & He & Hl).
      exists k, s. repeat split; [now right | assumption..].
  - intros H. destruct (IH H) as (k & s & Hin & He & Hl).
    exists k, s. repeat split; [now right | assumption..].
Qed.

Lemma match_suffix_finds table fname kind name key spec o :
  In (key, spec) table -> Str.endswith fname key = true ->
  lookup3 spec kind name = Some o ->
  match_suffix table fname kind name <> None.
Proof.
  induction table as [| [k s] table IH]; intros Hin He Hl; [contradiction |].
  cbn [match_suffix]. destruct Hin as [[= -> ->] | Hin].
  - now rewrite He, Hl.
  - destruct (if Str.endswith fname k then lookup3 s kind name else None);
      [discriminate | now apply IH].
Qed.

Lemma split_on_no_sep (c : ascii) (s : string) :
  Forall (fun piece => Str.mem_char c piece = false) (Str.split_on c s).
Proof.
  induction s as [| d s IH]; cbn [Str.split_on]; [now repeat constructor |].
  destruct (Ascii.eqb d c) eqn:E; [now constructor |].
  destruct (Str.split_on c s) as [| p ps]; cbn [Str.mem_char].
  - repeat constructor. cbn [Str.mem_char]. rewrite Ascii.eqb_sym, E. reflexivity.
  - inversion IH as [| ? ? Hp Hps]; subst. constructor; [| exact Hps].
    cbn [Str.mem_char]. now rewrite Ascii.eqb_sym, E, Hp.
Qed.

Lemma last_two_cases {A} (l : list A) :
  l = [] \/ (exists a, l = [a] /\ last_two l = [a]) \/
  (exists pre a b, l = (pre ++ [a; b])%list /\ last_two l = [a; b]).
Proof.
  destruct l as [| x l]; [now left | right].
  destruct (exists_last (l := x :: l)) as (l1 & b & E); [discriminate |].
  destruct l1 as [| y l1].
  - left. exists b. cbn [app] in E. rewrite E. now split.
  - right. destruct (exists_last (l := y :: l1)) as (pre & a & E1);
      [discriminate |].
    exists pre, a, b. rewrite E, E1, <- app_assoc. split; [reflexivity |].
    unfold last_two. rewrite length_app. cbn [List.length app].
    replace (List.length pre + 2 - 2) with (List.length pre) by lia.
    apply skipn_length_app.
Qed.

Lemma cut_at_sep (c : ascii) (a a' b b' : string) :
  Str.mem_char c a = false -> Str.mem_char c a' = false ->
  (a ++ String c b)%string = (a' ++ String c b')%string -> a = a' /\ b = b'.
Proof.
  revert a'. induction a as [| x a IH]; intros a' Ha Ha' E.
  - destruct a' as [| y a']; cbn [append] in E.
    + now injection E as <-.
    + injection E as <- _. cbn [Str.mem_char] in Ha'.
      rewrite Ascii.eqb_refl in Ha'. discriminate.
  - cbn [Str.mem_char] in Ha. apply orb_false_iff in Ha. destruct Ha as [Hx Ha].
    destruct a' as [| y a']; cbn [append] in E.
    + injection E as -> _. rewrite Ascii.eqb_refl in Hx. discriminate.
    + injection E as <- E. cbn [Str.mem_char] in Ha'.
      apply orb_false_iff in Ha'. destruct Ha' as [_ Ha'].
      destruct (IH a' Ha Ha' E) as [-> ->]. now split.
Qed.

Lemma last_filter_snoc {A} (f : A -> bool) (l : list A) b d :
  f b = true -> List.last (List.filter f (l ++ [b])%list) d = b.
Proof.
  intros H. rewrite filter_app. cbn [List.filter]. rewrite H.
  apply last_last.
Qed.

(** A path whose last two segments spell a key is named by the last
    segment of the key. *)
Lemma name_of_keyed_path (path dir file : string) :
  Str.mem_char "/" dir = false -> Str.mem_char "/" file = false ->
  Str.nonempty file = true -> String.eqb file "." = false ->
  Str.join "/" (last_two (Str.split_on "/" path)) = (dir ++ "/" ++ file)%string ->
  path_name path = file.
Proof.
  intros Hd Hf Hn Hdot E.
  pose proof (split_on_no_sep "/" path) as F.
  pose proof (split_on_length "/" path) as L.
  destruct (last_two_cases (Str.split_on "/" path))
    as [E0 | [(a & El & E2) | (pre & a & b & El & E2)]].
  - rewrite E0 in L. simpl in L. lia.
  - exfalso. rewrite E2 in E. cbn [Str.join] in E. rewrite El in F.
    inversion F as [| ? ? Ha _]; subst.
    rewrite mem_char_append in Ha. cbn [append Str.mem_char] in Ha.
    rewrite Ascii.eqb_refl in Ha. cbn [orb] in Ha.
    rewrite orb_true_r in Ha. discriminate.
  - rewrite E2 in E. cbn [Str.join] in E. rewrite El in F.
    apply Forall_app in F. destruct F as [_ F].
    inversion F as [| ? ? Ha F']; subst. inversion F' as [| ? ? Hb _]; subst.
    cbn [append] in E.
    destruct (cut_at_sep "/" a dir b file Ha Hd E) as [-> ->].
    unfold path_name, path_segments. rewrite El.
    change (pre ++ [dir; file])%list with (pre ++ [dir] ++ [file])%list.
    rewrite app_assoc. apply last_filter_snoc. now rewrite Hn, Hdot.
Qed.

Lemma keyed_path_name (path rel : string) spec :
  rel = (if (2 <=? List.length (path_parts path))%nat
         then Str.join "/" (last_two (Str.split_on "/" path))
         else path) ->
  dict_get rel DOC_OVERRIDES = Some spec ->
  Str.endswith (path_name path) rel = true.
Proof.
  intros Er H. apply dict_get_In in H.
  assert (K : exists file,
             rel = ("Helpers" ++ "/" ++ file)%string /\
             Str.mem_char "/" file = false /\ Str.nonempty file = true /\
             String.eqb file "." = false /\
             path_name rel = file).
  { simpl in H. repeat destruct H as [H | H]; try contradiction;
      injection H as <- _; eexists; repeat split. }
  destruct K as (file & Ek & Hf & Hn & Hdot & Hname).
  assert (Hp : path_name path = file).
  { destruct (2 <=? List.length (path_parts path))%nat.
    - apply (name_of_keyed_path path "Helpers" file);
        [reflexivity | assumption.. | congruence].
    - congruence. }
  rewrite Hp, Ek. apply endswith_iff. now exists "Helpers/".
Qed.

Lemma match_override_sound path name kind o :
  match_override path name kind = Some o ->
  kind = "method" /\
  exists key, In (key, (name, o)) method_entries /\
              Str.endswith (path_name path) key = true.
Proof.
  unfold match_override.
  set (rel := if (2 <=? _)%nat then _ else _).
  assert (Step1 : forall spec, dict_get rel DOC_OVERRIDES = Some spec ->
                    lookup3 spec kind name = Some o ->
                    kind = "method" /\
                    exists key, In (key, (name, o)) method_entries /\
                                Str.endswith (path_name path) key = true).
  { intros spec E1 E2.
    destruct (lookup3_method rel spec kind name o
                (dict_get_In _ _ _ E1) E2) as [Hk Hin].
    split; [exact Hk |]. exists rel. split; [exact Hin |].
    eapply keyed_path_name; [reflexivity | exact E1]. }
  assert (Step2 : forall spec,
                    dict_get (path_name path) DOC_OVERRIDES = Some spec ->
                    lookup3 spec kind name = Some o ->
                    kind = "method" /\
                    exists key, In (key, (name, o)) method_entries /\
                                Str.endswith (path_name path) key = true).
  { intros spec E1 E2.
    destruct (lookup3_method _ spec kind name o (dict_get_In _ _ _ E1) E2)
      as [Hk Hin].
    split; [exact Hk |]. exists (path_name path). split; [exact Hin |].
    apply endswith_iff. now exists "". }
  assert (Step3 : match_suffix DOC_OVERRIDES (path_name path) kind name = Some o ->
                  kind = "method" /\
                  exists key, In (key, (name, o)) method_entries /\
                              Str.endswith (path_name path) key = true).
  { intros H. destruct (match_suffix_sound _ _ _ _ _ H)
      as (key & spec & Hin & He & Hl).
    destruct (lookup3_method key spec kind name o Hin Hl) as [Hk Hm].
    split; [exact Hk |]. now exists key. }
  destruct (dict_get rel DOC_OVERRIDES) as [spec |] eqn:E1.
  - destruct (lookup3 spec kind name) as [o' |] eqn:E2.
    + intros [= ->]. now apply (Step1 spec).
    + destruct (dict_get (path_name path) DOC_OVERRIDES) as [spec' |] eqn:E3;
        [| exact Step3].
      destruct (lookup3 spec' kind name) as [o' |] eqn:E4; [| exact Step3].
      intros [= ->]. now apply (Step2 spec').
  - destruct (dict_get (path_name path) DOC_OVERRIDES) as [spec' |] eqn:E3;
      [| exact Step3].
    destruct (lookup3 spec' kind name) as [o' |] eqn:E4; [| exact Step3].
    intros [= ->]. now apply (Step2 spec').
Qed.

Lemma match_override_complete (path name : string) key o :
  In (key, (name, o)) method_entries ->
  Str.endswith (path_name path) key = true ->
  match_override path name "method" = Some o.
Proof.
  intros Hin He.
  destruct (method_entries_lookup _ _ _ Hin) as (spec & Hs & Hl).
  destruct (match_override path name "method") as [o' |] eqn:E.
  - destruct (match_override_sound _ _ _ _ E) as [_ (key' & Hin' & _)].
    now destruct (method_entries_unique _ _ _ _ _ Hin' Hin) as [_ ->].
  - exfalso. unfold match_override in E.
    destruct (match dict_get _ DOC_OVERRIDES with
              | Some spec0 => lookup3 spec0 "method" name
              | None => None
              end); [discriminate |].
    destruct (match dict_get (path_name path) DOC_OVERRIDES with
              | Some spec0 => lookup3 spec0 "method" name
              | None => None
              end); [discriminate |].
    now apply (match_suffix_finds DOC_OVERRIDES (path_name path) "method" name
                 key spec o Hs He Hl).
Qed.

(** X12: the resolver returns an entry exactly for the kind ["method"], a
    member name of the table, and a path whose file name is a suffix of
    the key the entry stands under; the directory of the path plays no
    part. *)
Theorem override_applies_by_file_name_suffix (path name kind : string) o :
  match_override path name kind = Some o <->
  kind = "method" /\
  exists key, In (key, (name, o)) method_entries /\
              Str.endswith (path_name path) key = true.
Proof.
  split; [apply match_override_sound |].
  intros [-> (key & Hin & He)]. eapply match_override_complete; eassumption.
Qed.

(** Two paths with the same file name resolve alike. *)
Lemma match_override_by_name (path path' name kind : string) :
  path_name path = path_name path' ->
  match_override path name kind = match_override path' name kind.
Proof.
  intros En.
  assert (Half : forall p p' o, path_name p = path_name p' ->
                   match_override p name kind = Some o ->
                   match_override p' name kind = Some o).
  { intros p p' o E H.
    destruct (match_override_sound _ _ _ _ H) as [-> (key & Hin & He)].
    rewrite E in He. eapply match_override_complete; eassumption. }
  destruct (match_override path name kind) as [o |] eqn:E1.
  - symmetry. now apply (Half path path').
  - destruct (match_override path' name kind) as [o' |] eqn:E2; [| reflexivity].
    rewrite (Half path' path o' (eq_sym En) E2) in E1. discriminate.
Qed.

Lemma process_loop_by_name (path path' text : string) :
  path_name path = path_name path' ->
  forall fuel st,
    process_loop fuel path text st = process_loop fuel path' text st.
Proof.
  intros En.
  assert (L : forall st, process_line path text st = process_line path' text st).
  { intros st. unfold process_line.
    destruct (getitem (lines st) (i st)) as [line | |]; cbn [bind];
      try reflexivity.
    destruct (match_ TYPE_PATTERN line); [reflexivity |].
    destruct (match_ METHOD_PATTERN line) as [m |]; [| reflexivity].
    unfold on_method.
    now rewrite (match_override_by_name path path' (grp 3 m) "method" En). }
  induction fuel as [| fuel IH]; intros st; cbn [process_loop]; [reflexivity |].
  destruct (i st <? List.length (lines st))%nat; [| reflexivity].
  rewrite L. destruct (process_line path' text st); cbn [bind];
    [apply IH | reflexivity..].
Qed.

(** X19: [process_file] reads the path through its file name only: on the
    same text, two paths with the same file name give the same flag and
    the same buffer. *)
Theorem process_file_reads_the_file_name_only (path path' text : string) :
  path_name path = path_name path' ->
  process_file path text = process_file path' text.
Proof.
  intros En. unfold process_file.
  now rewrite (process_loop_by_name path path' text En).
Qed.

Lemma process_file_reads_the_file_name_only_witness :
  path_name "Helpers/ColorHelper.cs" = path_name "Legacy/Ui/ColorHelper.cs" /\
  process_file "Helpers/ColorHelper.cs" (Str.cat color_helper_buffer)
  = process_file "Legacy/Ui/ColorHelper.cs" (Str.cat color_helper_buffer).
Proof.
  split; [reflexivity |].
  apply (process_file_reads_the_file_name_only
           "Helpers/ColorHelper.cs" "Legacy/Ui/ColorHelper.cs"
           (Str.cat color_helper_buffer)).
  reflexivity.
Defined.

(** ** Heuristic Classifier: what a generated summary never is *)

(** X13: whatever the name, the kind and the file text, the summary that
    the classifier returns holds no line boundary and no slash, and the
    summary block built from it is no placeholder block: a later run does
    not take a generated summary block for a placeholder. *)
Theorem generated_summary_block_is_no_placeholder
    (name kind file_text : string) (return_type decl_kind : option string) :
  unbroken
    (guess_summary_for_member name kind file_text return_type decl_kind) = true /\
  Str.mem_char "/"
    (guess_summary_for_member name kind file_text return_type decl_kind) = false /\
  is_placeholder
    (Str.cat (build_summary_block
                (guess_summary_for_member name kind file_text
                   return_type decl_kind))) = false.
Proof.
  pose proof (guess_summary_plain name kind file_text return_type decl_kind)
    as H.
  split; [apply H |]. split; [apply H |].
  now apply summary_block_not_placeholder.
Qed.

(** X18: the classifier reads the file text through four substring tests
    only, and never reads the return type: on two texts that agree on the
    four tests it gives the same summary, whatever the return types. *)
Theorem summary_reads_the_file_text_through_four_cues
    (name kind text text' : string) (rt rt' decl_kind : option string) :
  Str.contains "Converters" text' = Str.contains "Converters" text ->
  Str.contains "IValueConverter" text' = Str.contains "IValueConverter" text ->
  Str.contains "Helpers" text' = Str.contains "Helpers" text ->
  Str.contains "System.Windows.Data" text'
  = Str.contains "System.Windows.Data" text ->
  guess_summary_for_member name kind text' rt' decl_kind
  = guess_summary_for_member name kind text rt decl_kind.
Proof.
  intros H1 H2 H3 H4. cbv beta zeta delta [guess_summary_for_member].
  now rewrite H1, H2, H3, H4.
Qed.

Lemma summary_reads_the_file_text_through_four_cues_witness :
  guess_summary_for_member "ColorPicker" "type" "// see Helpers" (Some "int") None
  = guess_summary_for_member "ColorPicker" "type" "namespace App.Helpers"
      None None.
Proof.
  apply (summary_reads_the_file_text_through_four_cues
           "ColorPicker" "type" "namespace App.Helpers" "// see Helpers"
           None (Some "int") None); reflexivity.
Defined.

(** ** The access modifier of a declaration line *)

Lemma run_lit (R : Type) (w : string) :
  forall prev x caps (k : option ascii -> string -> captures -> option R) r,
    run (Lit w) prev x caps k = Some r ->
    exists prev' rest, x = (w ++ rest)%string /\ k prev' rest caps = Some r.
Proof.
  induction w as [| c w IH]; intros prev x caps k r H.
  - exists prev, x. now split.
  - assert (Hc : forall (k' : option ascii -> string -> captures -> option R),
               run (Chr c) prev x caps k' = Some r ->
               exists rest, x = String c rest /\ k' (Some c) rest caps = Some r).
    { intros k' Hk. unfold Chr in Hk. cbn [run] in Hk.
      destruct x as [| d rest]; [discriminate |].
      destruct (Ascii.eqb c d) eqn:E; [| discriminate].
      apply Ascii.eqb_eq in E. subst d. now exists rest. }
    destruct w as [| c' w'].
    + destruct (Hc k H) as (rest & -> & Hk). now exists (Some c), rest.
    + change (Lit (String c (String c' w')))
        with (Seq (Chr c) (Lit (String c' w'))) in H.
      cbn [run] in H.
      destruct (Hc _ H) as (rest & -> & Hk).
      destruct (IH _ _ _ _ _ Hk) as (prev' & rest' & -> & Hk').
      now exists prev', rest'.
Qed.

Lemma run_grp_alt (R : Type) n a b prev x caps
    (k : option ascii -> string -> captures -> option R) r :
  run (Grp n (Alt a b)) prev x caps k = Some r ->
  run a prev x caps
    (fun prev' s' caps' => k prev' s' ((n, consumed x s') :: caps')) = Some r \/
  run b prev x caps
    (fun prev' s' caps' => k prev' s' ((n, consumed x s') :: caps')) = Some r.
Proof.
  cbn [run]. intros H.
  destruct (run a prev x caps
              (fun prev' s' caps' => k prev' s' ((n, consumed x s') :: caps')))
    eqn:E; [left | right]; assumption.
Qed.

Lemma run_ws_first (R : Type) tail prev x caps
    (k : option ascii -> string -> captures -> option R) r :
  run (Seq (Plus ws) tail) prev x caps k = Some r ->
  exists c rest, x = String c rest /\ Char.is_space c = true.
Proof.
  unfold Plus, ws. cbn [run]. intros H.
  destruct x as [| c rest]; [discriminate |].
  destruct (Char.is_space c) eqn:E; [| discriminate]. now exists c, rest.
Qed.

(** A line that one of the patterns matches opens, after its indentation,
    with the word of the access modifier and a whitespace character. *)
Lemma with_access_word (tail : re) (x : string) r :
  match_ (with_access (Seq (Plus ws) tail)) x = Some r ->
  exists c rest,
    Char.is_space c = true /\
    (Str.lstrip x = ("public" ++ String c rest)%string \/
     Str.lstrip x = ("internal" ++ String c rest)%string).
Proof.
  unfold match_, with_access. intros H.
  change (run (Star ws) None x []
            (fun p1 s1 c1 =>
               run (Grp 1 (Alt (Lit "public") (Lit "internal"))) p1 s1 c1
                 (fun p2 s2 c2 =>
                    run (Seq (Plus ws) tail) p2 s2 c2
                      (fun _ s' caps => Some (s', caps))))
          = Some r) in H.
  apply run_sound in H.
  destruct H as (p1 & s1 & c1 & m1 & -> & F1 & _ & H).
  rewrite lstrip_spaces by exact F1.
  apply run_grp_alt in H.
  destruct H as [H | H]; apply run_lit in H;
    destruct H as (p2 & s2 & -> & H); apply run_ws_first in H;
    destruct H as (c & rest & -> & Hc); exists c, rest;
    (split; [exact Hc |]); [left | right]; reflexivity.
Qed.

Lemma patterns_open_with_access :
  (exists tail, TYPE_PATTERN = with_access (Seq (Plus ws) tail)) /\
  (exists tail, METHOD_PATTERN = with_access (Seq (Plus ws) tail)) /\
  (exists tail, PROPERTY_PATTERN = with_access (Seq (Plus ws) tail)).
Proof. repeat split; eexists; reflexivity. Qed.

(** X21: a line that one of the three patterns matches opens, after its
    indentation, with [public] or [internal] and a whitespace character:
    a declaration with another first word, or with none, is never
    documented. *)
Theorem only_public_and_internal_lines_match (x : string) :
  match_ TYPE_PATTERN x <> None \/ match_ METHOD_PATTERN x <> None \/
  match_ PROPERTY_PATTERN x <> None ->
  exists c rest,
    Char.is_space c = true /\
    (Str.lstrip x = ("public" ++ String c rest)%string \/
     Str.lstrip x = ("internal" ++ String c rest)%string).
Proof.
  destruct patterns_open_with_access as ([t1 E1] & [t2 E2] & [t3 E3]).
  rewrite E1, E2, E3.
  intros [H | [H | H]];
    match type of H with
    | ?m <> None => destruct m as [r |] eqn:E; [| congruence]
    end;
    eapply with_access_word; exact E.
Qed.

Lemma only_public_and_internal_lines_match_witness :
  (match_ TYPE_PATTERN "  internal static class Tools" <> None \/
   match_ METHOD_PATTERN "  internal static class Tools" <> None \/
   match_ PROPERTY_PATTERN "  internal static class Tools" <> None) /\
  exists c rest,
    Char.is_space c = true /\
    (Str.lstrip "  internal static class Tools"
     = ("public" ++ String c rest)%string \/
     Str.lstrip "  internal static class Tools"
     = ("internal" ++ String c rest)%string).
Proof.
  assert (H : match_ TYPE_PATTERN "  internal static class Tools" <> None)
    by (vm_compute; discriminate).
  split; [now left |].
  apply (only_public_and_internal_lines_match "  internal static class Tools").
  now left.
Defined.

(** ** What a run writes and what it keeps *)

Lemma edited_code_lines (L L' : list string) :
  edited L L' ->
  List.filter (fun l => negb (is_doc_line l)) L'
  = List.filter (fun l => negb (is_doc_line l)) L.
Proof.
  assert (Hdoc : forall G, Forall (fun g => is_doc_line g = true) G ->
                   List.filter (fun l => negb (is_doc_line l)) G = []).
  { induction 1 as [| g G Hg _ IH]; [reflexivity |].
    cbn [List.filter]. now rewrite Hg. }
  induction 1 as [| x l l' _ IH | G x l l' _ FG _ IH
                  | B M G x l l' _ FB _ FG _ IH].
  - reflexivity.
  - cbn [List.filter]. now rewrite IH.
  - rewrite filter_app, (Hdoc G FG). cbn [app List.filter]. now rewrite IH.
  - rewrite !filter_app, (Hdoc G FG), (Hdoc B FB). cbn [app List.filter].
    now rewrite IH.
Qed.

Lemma summary_block_comment_lines (summary : string) :
  unbroken summary = true ->
  Forall comment_line (build_summary_block summary).
Proof.
  intros Hs. unfold build_summary_block, comment_line. repeat constructor.
  - now exists " <summary>".
  - exists (" " ++ summary)%string. split; [reflexivity |].
    now rewrite unbroken_append, Hs.
  - now exists " </summary>".
Qed.

(** The block built for a declaration is made of comment lines. *)
Lemma new_block_comment_lines (path text : string) ct d :
  Forall comment_line (new_block path text ct d).
Proof.
  destruct d as [m | m | m]; cbn [new_block];
    try (apply summary_block_comment_lines; apply guess_summary_plain).
  unfold method_block.
  match goal with
  | |- context [build_method_block _ _ _ ?h _ _] => set (hint := h)
  end.
  assert (Hh : text_ok hint)
    by (unfold hint;
        match goal with |- text_ok (if ?c then _ else _) => destruct c end;
        reflexivity).
  destruct (method_override path m) as [o |] eqn:E.
  - assert (Hin : In (grp 3 m, o) entries).
    { unfold method_override in E.
      destruct (match_override path (grp 3 m) "method") as [o' |] eqn:E';
        [| discriminate].
      destruct (override_truthy o'); [| discriminate].
      injection E as <-. eapply match_override_entries; exact E'. }
    destruct (entries_unbroken _ _ Hin) as (H1 & H2 & H3).
    apply method_block_comment_lines; try assumption.
    apply py_or_unbroken; [exact H1 | apply guess_summary_plain].
  - apply method_block_comment_lines; try exact I; try assumption.
    apply guess_summary_plain.
Qed.

Lemma above_after_lines path text ct d (Q : list string) l :
  In l (above_after path text ct d Q) -> In l Q \/ comment_line l.
Proof.
  pose proof (new_block_comment_lines path text ct d) as FG.
  rewrite Forall_forall in FG.
  unfold above_after. destruct (locate (rev Q)) as [[m b] |].
  - destruct (wants_replace path d _); [| now left].
    intros H. apply in_app_or in H. destruct H as [H | H].
    + left. rewrite <- (firstn_skipn (List.length Q - m - b) Q).
      apply in_or_app. now left.
    + apply in_app_or in H. destruct H as [H | H]; [| right; now apply FG].
      left. rewrite <- (firstn_skipn (List.length Q - m) Q).
      apply in_or_app. now right.
  - intros H. apply in_app_or in H. destruct H as [H | H];
      [now left | right; now apply FG].
Qed.

Lemma segments_lines path text (T : list string) :
  forall Q ct l,
    In l (segments path text ct Q T) ->
    In l (Q ++ T)%list \/ comment_line l.
Proof.
  induction T as [| x T IH]; intros Q ct l H; cbn [segments] in H.
  - left. now rewrite app_nil_r.
  - destruct (classify x) as [d |].
    + apply in_app_or in H. destruct H as [H | [<- | H]].
      * destruct (above_after_lines _ _ _ _ _ _ H) as [HQ | HC];
          [left; apply in_or_app; now left | now right].
      * left. apply in_or_app. right. now left.
      * destruct (IH [] _ l H) as [HT | HC]; [| now right].
        left. apply in_or_app. right. now right.
    + destruct (IH _ _ l H) as [HT | HC]; [| now right].
      left. now rewrite <- app_assoc in HT.
Qed.

(** ** Tokenizer: the shape of the fragments *)

Lemma run_opt_cls_seq (R : Type) p b prev s caps
    (k : option ascii -> string -> captures -> option R) x :
  run (Seq (Opt (Cls p)) b) prev s caps k = Some x ->
  (exists c s', s = String c s' /\ p c = true /\
                run b (Some c) s' caps k = Some x) \/
  run b prev s caps k = Some x.
Proof.
  unfold Opt. cbn [run]. destruct s as [| c s']; [now right |].
  destruct (p c) eqn:Ep; [| now right].
  destruct (run b (Some c) s' caps k) as [y |] eqn:E; [| now right].
  intros [= <-]. left. now exists c, s'.
Qed.

Lemma run_alt_cases (R : Type) a b prev s caps
    (k : option ascii -> string -> captures -> option R) x :
  run (Alt a b) prev s caps k = Some x ->
  run a prev s caps k = Some x \/ run b prev s caps k = Some x.
Proof.
  cbn [run]. destruct (run a prev s caps k); [left | right]; assumption.
Qed.

(** A match of [IDENT_PART] consumes a fragment of one of the three
    shapes. *)
Lemma match_at_IDENT_PART_shape prev s prev' rest :
  match_at IDENT_PART prev s = Some (prev', rest) ->
  exists m, s = (m ++ rest)%string /\ token_shape m = true.
Proof.
  unfold match_at, IDENT_PART, Alts. intros H.
  apply run_alt_cases in H. destruct H as [H | H].
  - apply run_opt_cls_seq in H.
    destruct H as [(c & s' & -> & Hc & H) | H]; apply run_sound in H;
      destruct H as (p1 & s1 & c1 & m & -> & F & N & H);
      injection H as _ ->; cbn [re_alphabet Plus] in F.
    + exists (String c m). split; [reflexivity |].
      cbn [token_shape]. rewrite Hc.
      assert (Hm : Str.forallb Char.is_lower m = true).
      { eapply forallb_weaken; [| exact F]. intros d Hd. unfold Plus in Hd. cbn [re_alphabet] in Hd.
        destruct (Char.is_lower d); [reflexivity | cbn in Hd; discriminate]. }
      rewrite Hm. destruct m as [| d m]; [exfalso; now apply N |].
      cbn [Str.nonempty andb orb]. now rewrite !orb_true_r.
    + exists m. split; [reflexivity |].
      assert (Hm : Str.forallb Char.is_lower m = true).
      { eapply forallb_weaken; [| exact F]. intros d Hd. unfold Plus in Hd. cbn [re_alphabet] in Hd.
        destruct (Char.is_lower d); [reflexivity | cbn in Hd; discriminate]. }
      destruct m as [| d m]; [exfalso; now apply N |].
      cbn [token_shape]. cbn [Str.forallb] in Hm.
      apply andb_true_iff in Hm. destruct Hm as [Hd Hm].
      rewrite Hd, Hm. now rewrite !orb_true_r.
  - apply run_alt_cases in H. destruct H as [H | H]; apply run_sound in H;
      destruct H as (p1 & s1 & c1 & m & -> & F & N & H);
      injection H as _ ->; cbn [re_alphabet Plus] in F;
      exists m; (split; [reflexivity |]);
      (destruct m as [| d m]; [exfalso; now apply N |]).
    + assert (Hm : Str.forallb Char.is_upper (String d m) = true).
      { eapply forallb_weaken; [| exact F]. intros e He. unfold Plus in He. cbn [re_alphabet] in He.
        destruct (Char.is_upper e); [reflexivity | cbn in He; discriminate]. }
      cbn [token_shape]. cbn [Str.forallb] in Hm.
      apply andb_true_iff in Hm. destruct Hm as [Hd Hm].
      rewrite Hd, Hm. cbn [andb]. now rewrite orb_true_r.
    + assert (Hm : Str.forallb Char.is_digit (String d m) = true).
      { eapply forallb_weaken; [| exact F]. intros e He. unfold Plus in He. cbn [re_alphabet] in He.
        destruct (Char.is_digit e); [reflexivity | cbn in He; discriminate]. }
      cbn [token_shape]. cbn [Str.forallb] in Hm.
      apply andb_true_iff in Hm. destruct Hm as [Hd Hm].
      now rewrite Hd, Hm.
Qed.

Lemma findall_IDENT_PART_shape fuel :
  forall prev s,
    Forall (fun t => token_shape t = true)
           (findall_from fuel IDENT_PART prev s).
Proof.
  induction fuel as [| fuel IH]; intros prev s; [constructor |].
  destruct s as [| c s']; [constructor |].
  rewrite findall_from_step.
  destruct (match_at IDENT_PART prev (String c s')) as [[prev' rest] |] eqn:E;
    [| apply IH].
  destruct (String.length rest <? String.length (String c s'))%nat; [| apply IH].
  constructor; [| apply IH].
  destruct (match_at_IDENT_PART_shape _ _ _ _ E) as (m & Es & F).
  rewrite Es, consumed_append. exact F.
Qed.

(** X24: every fragment that [split_identifier] returns is non-empty and
    is a run of digits, a run of capitals, or a run of small letters
    behind at most one capital; the filter of line 75 drops nothing. *)
Theorem identifier_fragments_have_three_shapes (name : string) :
  Forall (fun t => token_shape t = true) (split_identifier name) /\
  split_identifier name = findall IDENT_PART name.
Proof.
  pose proof (findall_IDENT_PART_shape (String.length name) None name) as F.
  fold (findall IDENT_PART name) in F. unfold split_identifier.
  assert (E : List.filter Str.nonempty (findall IDENT_PART name)
              = findall IDENT_PART name).
  { induction F as [| t l Ht _ IH]; [reflexivity |].
    cbn [List.filter]. destruct t as [| c t]; [discriminate |].
    cbn [Str.nonempty]. now rewrite IH. }
  rewrite E. now split.
Qed.

(** ** The line endings of the file *)

Lemma universal_newlines_step c s :
  universal_newlines (String c s) =
  if Ascii.eqb c Char.CR then
    match s with
    | String d s'' =>
        if Ascii.eqb d Char.LF
        then String Char.LF (universal_newlines s'')
        else String Char.LF (universal_newlines s)
    | EmptyString => String Char.LF EmptyString
    end
  else String c (universal_newlines s).
Proof. reflexivity. Qed.

Lemma no_cr_cons c s :
  no_cr (String c s) = negb (Ascii.eqb c Char.CR) && no_cr s.
Proof. reflexivity. Qed.

(** What [read_text] returns holds no CR. *)
Lemma universal_newlines_no_cr_fuel (n : nat) :
  forall s, String.length s <= n -> no_cr (universal_newlines s) = true.
Proof.
  induction n as [| n IH]; intros s Hlen.
  - destruct s; [reflexivity | simpl in Hlen; lia].
  - destruct s as [| c s]; [reflexivity |]. simpl in Hlen.
    rewrite universal_newlines_step.
    destruct (Ascii.eqb c Char.CR) eqn:Ec.
    + destruct s as [| d s'']; [reflexivity |]. simpl in Hlen.
      destruct (Ascii.eqb d Char.LF); rewrite no_cr_cons;
        rewrite IH by (simpl; lia); reflexivity.
    + rewrite no_cr_cons, Ec, IH by lia. reflexivity.
Qed.

Lemma universal_newlines_no_cr (s : string) :
  no_cr (universal_newlines s) = true.
Proof. apply (universal_newlines_no_cr_fuel (String.length s)). apply le_n. Qed.

(** A text without CR is read as it is. *)
Lemma universal_newlines_id (s : string) :
  no_cr s = true -> universal_newlines s = s.
Proof.
  induction s as [| c s IH]; [reflexivity |].
  rewrite no_cr_cons. intros H. apply andb_true_iff in H.
  destruct H as [Hc Hs]. apply negb_true_iff in Hc.
  rewrite universal_newlines_step, Hc. now rewrite IH.
Qed.

(** A text without CR that was written is read back as it was, on either
    platform. *)
Lemma read_back (pf : platform) (s : string) :
  no_cr s = true -> universal_newlines (os_newlines pf s) = s.
Proof.
  induction s as [| c s IH]; [reflexivity |].
  rewrite no_cr_cons. intros H. apply andb_true_iff in H.
  destruct H as [Hc Hs]. apply negb_true_iff in Hc.
  cbn [os_newlines]. destruct (Ascii.eqb c Char.LF) eqn:El.
  - apply Ascii.eqb_eq in El. subst c.
    destruct pf; cbn [linesep Str.nl append]; rewrite universal_newlines_step.
    + cbn [Ascii.eqb]. change (Ascii.eqb Char.LF Char.CR) with false.
      cbv iota. now rewrite IH.
    + change (Ascii.eqb Char.CR Char.CR) with true. cbv iota.
      change (Ascii.eqb Char.LF Char.LF) with true. cbv iota.
      now rewrite IH.
  - rewrite universal_newlines_step, Hc. now rewrite IH.
Qed.

Lemma splitlines_lf (s : string) :
  Str.splitlines (String Char.LF s) = Str.nl :: Str.splitlines s.
Proof. destruct s; reflexivity. Qed.

(** The lines of the text read are the lines of the content of the file,
    each with its CR LF or CR read as LF. *)
Lemma splitlines_universal_fuel (n : nat) :
  forall s, String.length s <= n ->
    Str.splitlines (universal_newlines s)
    = List.map universal_newlines (Str.splitlines s).
Proof.
  induction n as [| n IH]; intros s Hlen.
  - destruct s; [reflexivity | simpl in Hlen; lia].
  - destruct s as [| c s]; [reflexivity |]. simpl in Hlen.
    rewrite universal_newlines_step, (splitlines_step c s).
    destruct (Ascii.eqb c Char.CR) eqn:Ec.
    + apply Ascii.eqb_eq in Ec. subst c.
      change (Char.is_linebreak Char.CR) with true. cbv iota.
      change (Ascii.eqb Char.CR Char.CR) with true. cbn [andb].
      destruct s as [| d s'']; [reflexivity |]. simpl in Hlen.
      destruct (Ascii.eqb d Char.LF) eqn:Ed.
      * apply Ascii.eqb_eq in Ed. subst d.
        rewrite splitlines_lf, IH by lia. reflexivity.
      * rewrite splitlines_lf, IH by (simpl; lia). cbn [List.map].
        f_equal.
    + destruct (Char.is_linebreak c) eqn:Eb.
      * assert (E : Str.splitlines (String c (universal_newlines s))
                    = String c EmptyString
                      :: Str.splitlines (universal_newlines s)).
        { rewrite splitlines_step, Eb, Ec. cbn [andb].
          now destruct (universal_newlines s). }
        rewrite E, IH by lia.
        assert (E' : (match s with
                      | String d s'' =>
                          if false && Ascii.eqb d Char.LF
                          then String c (String d EmptyString) :: Str.splitlines s''
                          else String c EmptyString :: Str.splitlines s
                      | EmptyString => [String c EmptyString]
                      end) = String c EmptyString :: Str.splitlines s)
          by (now destruct s).
        rewrite E'. cbn [List.map]. rewrite universal_newlines_step, Ec.
        reflexivity.
      * rewrite splitlines_step, Eb, IH by lia.
        destruct (Str.splitlines s) as [| l ls]; cbn [List.map];
          rewrite universal_newlines_step, Ec; reflexivity.
Qed.

Lemma splitlines_universal (content : string) :
  Str.splitlines (universal_newlines content)
  = List.map universal_newlines (Str.splitlines content).
Proof.
  apply (splitlines_universal_fuel (String.length content)). apply le_n.
Qed.

Lemma no_cr_append (a b : string) : no_cr (a ++ b) = no_cr a && no_cr b.
Proof. apply forallb_append. Qed.

Lemma no_cr_cat (ls : list string) :
  no_cr (Str.cat ls) = true <-> Forall (fun l => no_cr l = true) ls.
Proof.
  induction ls as [| l ls IH]; cbn [Str.cat].
  - split; [constructor | reflexivity].
  - rewrite no_cr_append, andb_true_iff, IH. split.
    + intros [H1 H2]. now constructor.
    + intros H. inversion H. now split.
Qed.

Lemma comment_line_no_cr (l : string) : comment_line l -> no_cr l = true.
Proof.
  intros (body & -> & Hb). rewrite !no_cr_append, andb_true_iff. split;
    [reflexivity |].
  rewrite andb_true_iff. split; [| reflexivity].
  eapply forallb_weaken; [| exact Hb]. intros c Hc.
  apply negb_true_iff in Hc. apply negb_true_iff.
  destruct (Ascii.eqb c Char.CR) eqn:E; [| reflexivity].
  apply Ascii.eqb_eq in E. subst c. discriminate.
Qed.

(** On a text without CR the final buffer holds none. *)
Lemma process_file_no_cr (path text : string) (flag : bool) (buffer : list string) :
  no_cr text = true ->
  process_file path text = Ok (flag, buffer) ->
  no_cr (Str.cat buffer) = true.
Proof.
  intros Ht H. destruct (process_file_spec path text) as [ch [E _]].
  rewrite E in H. injection H as _ <-. rewrite reconcile_from_top.
  apply no_cr_cat. apply Forall_forall. intros l Hl.
  destruct (segments_lines path text (Str.splitlines text) [] None l Hl)
    as [Hin | Hc]; [| now apply comment_line_no_cr].
  rewrite <- (cat_splitlines text) in Ht. apply no_cr_cat in Ht.
  rewrite Forall_forall in Ht. now apply Ht.
Qed.

(** ** The lines of the file and the lines of the buffer *)

(** C10, as amended: [process_file] returns, and its buffer is the lines
    of the file, each with a CR LF or CR ending read as LF, edited in the
    ways of [edited] only: [///] blocks located above recognised
    declarations dropped, new [///] lines put right above declarations,
    every other line kept in order. *)
Theorem C10_only_doc_blocks_change (path content : string) :
  exists flag buffer,
    process_file path (universal_newlines content) = Ok (flag, buffer) /\
    edited (List.map universal_newlines (Str.splitlines content)) buffer.
Proof.
  destruct (process_file_edited path (universal_newlines content))
    as (flag & buffer & E & H).
  exists flag, buffer. split; [exact E |].
  now rewrite <- splitlines_universal.
Qed.

(** C10, as claimed, fails on a file with CR LF line endings: the one line
    of the file belongs to no comment block, and the buffer does not hold
    it unchanged. *)
Lemma C10_counterexample :
  exists flag buffer,
    read_text [("A.cs", plain_file crlf_class_file)] "A.cs"
    = Finished (universal_newlines crlf_class_file) /\
    process_file "A.cs" (universal_newlines crlf_class_file)
    = Ok (flag, buffer) /\
    In crlf_class_file (Str.splitlines crlf_class_file) /\
    is_doc_line crlf_class_file = false /\
    ~ In crlf_class_file buffer.
Proof.
  destruct (process_file "A.cs" (universal_newlines crlf_class_file))
    as [[flag buffer] | |] eqn:E; try (vm_compute in E; discriminate).
  exists flag, buffer. split; [reflexivity |]. split; [reflexivity |].
  split; [now left |]. split; [reflexivity |].
  vm_compute in E. injection E as _ <-.
  intros [H | [H | [H | [H | []]]]]; discriminate.
Qed.

(** X22: the lines of the final buffer that are no [///] lines are the
    lines of the file that are no [///] lines, read with a CR LF or CR
    ending as LF, in the same order: [process_file] adds and removes
    comment lines only. *)
Theorem code_lines_are_kept_in_order
    (path content : string) (flag : bool) (buffer : list string) :
  process_file path (universal_newlines content) = Ok (flag, buffer) ->
  List.filter (fun l => negb (is_doc_line l)) buffer
  = List.filter (fun l => negb (is_doc_line l))
      (List.map universal_newlines (Str.splitlines content)).
Proof.
  intros H. rewrite process_file_flag in H. injection H as _ <-.
  rewrite reconcile_from_top, <- splitlines_universal.
  apply edited_code_lines.
  exact (segments_edited path (universal_newlines content)
           (Str.splitlines (universal_newlines content)) [] None).
Qed.

Lemma code_lines_are_kept_in_order_witness :
  exists buffer,
    process_file "A.cs" (universal_newlines crlf_class_file)
    = Ok (true, buffer) /\
    buffer <> Str.splitlines crlf_class_file /\
    List.filter (fun l => negb (is_doc_line l)) buffer
    = [ln "public class A"].
Proof.
  destruct (process_file "A.cs" (universal_newlines crlf_class_file))
    as [[flag buffer] | |] eqn:E; try (vm_compute in E; discriminate).
  exists buffer.
  assert (Hf : flag = true /\ buffer <> Str.splitlines crlf_class_file).
  { vm_compute in E. injection E as <- <-. split; [reflexivity | discriminate]. }
  destruct Hf as [Hf Hb]. split; [now rewrite Hf |]. split; [exact Hb |].
  exact (code_lines_are_kept_in_order "A.cs" crlf_class_file flag buffer E).
Defined.

(** X23: every line of the final buffer is a line of the file, read with
    a CR LF or CR ending as LF, or a comment line of the form three
    slashes, a text without line boundary, one line feed: what
    [process_file] puts into the buffer is never indented and always ends
    in a line feed, whatever the lines of the file look like. *)
Theorem written_lines_are_plain_comment_lines
    (path content : string) (flag : bool) (buffer : list string) :
  process_file path (universal_newlines content) = Ok (flag, buffer) ->
  forall l, In l buffer ->
    In l (List.map universal_newlines (Str.splitlines content)) \/
    exists body, l = ("///" ++ body ++ Str.nl)%string /\ unbroken body = true.
Proof.
  intros H l Hl. rewrite process_file_flag in H. injection H as _ <-.
  rewrite reconcile_from_top in Hl. rewrite <- splitlines_universal.
  exact (segments_lines path (universal_newlines content)
           (Str.splitlines (universal_newlines content)) [] None l Hl).
Qed.

Lemma written_lines_are_plain_comment_lines_witness :
  exists buffer,
    process_file "A.cs" (universal_newlines crlf_class_file)
    = Ok (true, buffer) /\
    forall l, In l buffer ->
      In l [ln "public class A"] \/
      exists body, l = ("///" ++ body ++ Str.nl)%string /\ unbroken body = true.
Proof.
  destruct (process_file "A.cs" (universal_newlines crlf_class_file))
    as [[flag buffer] | |] eqn:E; try (vm_compute in E; discriminate).
  exists buffer. split.
  - vm_compute in E. injection E as <- <-. reflexivity.
  - exact (written_lines_are_plain_comment_lines
             "A.cs" crlf_class_file flag buffer E).
Defined.

(** ** Entry point *)

Lemma dict_get_store_same (fs : files) p f :
  dict_get p (store fs p f) = Some f.
Proof.
  induction fs as [| [q g] fs IH]; cbn [store dict_get].
  - now rewrite String.eqb_refl.
  - destruct (String.eqb p q) eqn:E; cbn [dict_get]; rewrite E;
      [reflexivity | exact IH].
Qed.

Lemma dict_get_store_other (fs : files) p q f :
  q <> p -> dict_get q (store fs p f) = dict_get q fs.
Proof.
  intros N. induction fs as [| [r g] fs IH]; cbn [store dict_get].
  - apply String.eqb_neq in N. now rewrite N.
  - destruct (String.eqb p r) eqn:E; cbn [dict_get].
    + apply String.eqb_eq in E. subst r.
      apply String.eqb_neq in N. now rewrite N.
    + now rewrite IH.
Qed.

(** Storing the file that is there changes nothing. *)
Lemma store_same (fs : files) p f :
  dict_get p fs = Some f -> store fs p f = fs.
Proof.
  induction fs as [| [q g] fs IH]; cbn [store dict_get]; [discriminate |].
  destruct (String.eqb p q) eqn:E.
  - now intros [= ->].
  - intros H. now rewrite IH.
Qed.

(** One file that can be read: the scan runs on the text read, and the
    file is written when the flag is raised. *)
Lemma process_file_in_read (pf : platform) (fs : files) p f c :
  dict_get p fs = Some f -> read_fault f = None -> content f = Some c ->
  exists flag buffer,
    process_file p (universal_newlines c) = Ok (flag, buffer) /\
    process_file_in pf fs p =
    if flag then
      match write_fault f with
      | Some e => Raised e p
      | None => Finished (true, store fs p (written pf f (Str.cat buffer)))
      end
    else Finished (false, fs).
Proof.
  intros Hp Hr Hc. unfold process_file_in, read_text, write_text.
  rewrite Hp, Hr, Hc.
  destruct (process_file_spec p (universal_newlines c)) as [ch [E _]].
  rewrite E. eexists ch, _. split; [reflexivity |].
  destruct ch; [| reflexivity]. now destruct (write_fault f).
Qed.

Lemma process_file_in_finished (pf : platform) (fs fs' : files) p flag :
  process_file_in pf fs p = Finished (flag, fs') ->
  exists f c buffer,
    dict_get p fs = Some f /\ read_fault f = None /\ content f = Some c /\
    process_file p (universal_newlines c) = Ok (flag, buffer) /\
    (flag = true -> write_fault f = None) /\
    fs' = if flag then store fs p (written pf f (Str.cat buffer)) else fs.
Proof.
  intros H.
  destruct (dict_get p fs) as [f |] eqn:Hp;
    [| unfold process_file_in, read_text in H; rewrite Hp in H; discriminate].
  destruct (read_fault f) as [e |] eqn:Hr;
    [unfold process_file_in, read_text in H; rewrite Hp, Hr in H;
     discriminate |].
  destruct (content f) as [c |] eqn:Hc;
    [| unfold process_file_in, read_text in H; rewrite Hp, Hr, Hc in H;
       discriminate].
  destruct (process_file_in_read pf fs p f c Hp Hr Hc)
    as (fl & buffer & E & Ein).
  rewrite Ein in H. exists f, c, buffer. destruct fl.
  - destruct (write_fault f) eqn:Hw; [discriminate |].
    injection H as <- <-. repeat split; auto.
  - injection H as <- <-. repeat split; auto. discriminate.
Qed.

Lemma process_file_in_raised (pf : platform) (fs : files) p e q :
  process_file_in pf fs p = Raised e q -> q = p /\ stops_at fs e p.
Proof.
  intros H. unfold stops_at.
  destruct (dict_get p fs) as [f |] eqn:Hp;
    [| unfold process_file_in, read_text in H; rewrite Hp in H;
       injection H as <- <-; now split].
  destruct (read_fault f) as [e' |] eqn:Hr;
    [unfold process_file_in, read_text in H; rewrite Hp, Hr in H;
     injection H as <- <-; split; [reflexivity | now left] |].
  destruct (content f) as [c |] eqn:Hc;
    [| unfold process_file_in, read_text in H; rewrite Hp, Hr, Hc in H;
       injection H as <- <-; split; [reflexivity | right; left; now repeat split]].
  destruct (process_file_in_read pf fs p f c Hp Hr Hc)
    as (fl & buffer & E & Ein).
  rewrite Ein in H. destruct fl; [| discriminate].
  destruct (write_fault f) eqn:Hw; [| discriminate].
  injection H as <- <-. split; [reflexivity |]. right. right.
  repeat split; try reflexivity; discriminate.
Qed.

(** The scan never makes [process_file] fail. *)
Lemma process_file_in_scans (pf : platform) (fs : files) p b :
  process_file_in pf fs p <> ScanFailed b.
Proof.
  intros H.
  destruct (dict_get p fs) as [f |] eqn:Hp;
    [| unfold process_file_in, read_text in H; rewrite Hp in H; discriminate].
  destruct (read_fault f) as [e' |] eqn:Hr;
    [unfold process_file_in, read_text in H; rewrite Hp, Hr in H;
     discriminate |].
  destruct (content f) as [c |] eqn:Hc;
    [| unfold process_file_in, read_text in H; rewrite Hp, Hr, Hc in H;
       discriminate].
  destruct (process_file_in_read pf fs p f c Hp Hr Hc)
    as (fl & buffer & E & Ein).
  rewrite Ein in H. destruct fl; [| discriminate].
  destruct (write_fault f); discriminate.
Qed.

(** A step leaves the other files. *)
Lemma process_file_in_frame (pf : platform) (fs fs' : files) p flag :
  process_file_in pf fs p = Finished (flag, fs') ->
  forall q, q <> p -> dict_get q fs' = dict_get q fs.
Proof.
  intros H q N.
  destruct (process_file_in_finished _ _ _ _ _ H)
    as (f & c & buffer & _ & _ & _ & _ & _ & ->).
  destruct flag; [now apply dict_get_store_other | reflexivity].
Qed.

(** A step leaves a sound file sound. *)
Lemma process_file_in_sound (pf : platform) (fs fs' : files) p flag :
  process_file_in pf fs p = Finished (flag, fs') ->
  forall q, sound_file fs q -> sound_file fs' q.
Proof.
  intros H q (g & d & Hq & Hd & Hr & Hw).
  destruct (process_file_in_finished _ _ _ _ _ H)
    as (f & c & buffer & Hp & Hfr & Hc & _ & Hfw & ->).
  destruct flag; [| now exists g, d].
  destruct (String.eqb_spec q p) as [-> | N].
  - eexists _, _. rewrite dict_get_store_same. split; [reflexivity |].
    cbn [written content read_fault write_fault].
    assert (g = f) by congruence. subst g. now repeat split.
  - exists g, d. now rewrite dict_get_store_other.
Qed.

(** What makes a file raise after a step made it raise before. *)
Lemma process_file_in_faults (pf : platform) (fs fs' : files) p flag :
  process_file_in pf fs p = Finished (flag, fs') ->
  forall e q, stops_at fs' e q -> stops_at fs e q.
Proof.
  intros H e q.
  destruct (process_file_in_finished _ _ _ _ _ H)
    as (f & c & buffer & Hp & Hfr & Hc & _ & Hfw & ->).
  destruct flag; [| auto].
  unfold stops_at. destruct (String.eqb_spec q p) as [-> | N].
  - rewrite dict_get_store_same, Hp.
    cbn [written content read_fault write_fault].
    intros [Hs | [(_ & Hs & _) | (Hr & _ & Hw)]];
      [now left | discriminate |].
    right. right. repeat split; [exact Hr | now rewrite Hc | exact Hw].
  - now rewrite dict_get_store_other.
Qed.

Lemma sound_file_runs (pf : platform) (fs : files) p :
  sound_file fs p -> exists flag fs', process_file_in pf fs p = Finished (flag, fs').
Proof.
  intros (f & c & Hp & Hc & Hr & Hw).
  destruct (process_file_in_read pf fs p f c Hp Hr Hc)
    as (fl & buffer & _ & Ein).
  rewrite Ein, Hw. destruct fl; eauto.
Qed.

(** The loop returns when every file is sound, with the counter of files
    raised by their number and the counter of changes by no more. *)
Lemma main_loop_returns (pf : platform) (cs : list string) :
  forall fs total changed,
    (forall p, In p cs -> sound_file fs p) ->
    exists fs' changed',
      main_loop pf cs fs total changed
      = Finished (fs', total + List.length cs, changed') /\
      changed <= changed' <= changed + List.length cs.
Proof.
  induction cs as [| p cs IH]; intros fs total changed Hall; cbn [main_loop].
  - exists fs, changed. rewrite Nat.add_0_r. split; [reflexivity | simpl; lia].
  - destruct (sound_file_runs pf fs p (Hall p (or_introl eq_refl)))
      as (flag & fs1 & E).
    rewrite E.
    destruct (IH fs1 (S total) (if flag then S changed else changed))
      as (fs' & changed' & E' & Hc).
    { intros q Hin. apply (process_file_in_sound _ _ _ _ _ E). apply Hall.
      now right. }
    exists fs', changed'. rewrite E'. cbn [List.length].
    split; [f_equal; f_equal; f_equal; lia |].
    destruct flag; lia.
Qed.

(** The loop leaves the files it does not visit as they are. *)
Lemma main_loop_frame (pf : platform) (cs : list string) :
  forall fs total changed fs' t c,
    main_loop pf cs fs total changed = Finished (fs', t, c) ->
    forall q, ~ In q cs -> dict_get q fs' = dict_get q fs.
Proof.
  induction cs as [| p cs IH]; intros fs total changed fs' t c H q Hq;
    cbn [main_loop] in H.
  - now injection H as <- _ _.
  - destruct (process_file_in pf fs p) as [[flag fs1] | |] eqn:E;
      [| discriminate..].
    rewrite (IH _ _ _ _ _ _ H q) by (intros Hin; apply Hq; now right).
    apply (process_file_in_frame _ _ _ _ _ E). intros ->. apply Hq. now left.
Qed.

(** Each file visited once: what was read, what the scan made of it, and
    what the file holds when the loop ends. *)
Lemma main_loop_content (pf : platform) (cs : list string) :
  NoDup cs ->
  forall fs total changed fs' t c,
    main_loop pf cs fs total changed = Finished (fs', t, c) ->
    forall p, In p cs ->
      exists f d flag buffer,
        dict_get p fs = Some f /\ read_fault f = None /\ content f = Some d /\
        process_file p (universal_newlines d) = Ok (flag, buffer) /\
        (flag = true -> write_fault f = None) /\
        dict_get p fs'
        = Some (if flag then written pf f (Str.cat buffer) else f).
Proof.
  induction 1 as [| p0 cs Hn Hnd IH]; intros fs total changed fs' t c H p Hin;
    [contradiction |].
  cbn [main_loop] in H.
  destruct (process_file_in pf fs p0) as [[flag fs1] | |] eqn:E;
    [| discriminate..].
  destruct Hin as [<- | Hin].
  - destruct (process_file_in_finished _ _ _ _ _ E)
      as (f & d & buffer & Hp & Hr & Hc & Ep & Hw & Efs).
    exists f, d, flag, buffer. repeat split; try assumption.
    rewrite (main_loop_frame _ _ _ _ _ _ _ _ H p0 Hn), Efs.
    destruct flag; [apply dict_get_store_same | exact Hp].
  - assert (N : p <> p0) by (intros ->; contradiction).
    destruct (IH _ _ _ _ _ _ H p Hin)
      as (f & d & fl & buffer & Hp & Hrest).
    exists f, d, fl, buffer. split; [| exact Hrest].
    now rewrite <- (process_file_in_frame _ _ _ _ _ E p N).
Qed.

(** The loop on files each of which a step leaves as it is. *)
Lemma main_loop_settled (pf : platform) (cs : list string) (fs : files) :
  (forall p, In p cs -> exists flag, process_file_in pf fs p = Finished (flag, fs)) ->
  forall total changed,
    exists changed',
      main_loop pf cs fs total changed
      = Finished (fs, total + List.length cs, changed').
Proof.
  induction cs as [| p cs IH]; intros Hall total changed; cbn [main_loop].
  - exists changed. now rewrite Nat.add_0_r.
  - destruct (Hall p (or_introl eq_refl)) as (flag & E). rewrite E.
    destruct (IH (fun q Hin => Hall q (or_intror Hin))
                (S total) (if flag then S changed else changed))
      as (changed' & E').
    exists changed'. rewrite E'. cbn [List.length].
    f_equal. f_equal. f_equal. lia.
Qed.

(** A second run of [process_file] on what the first wrote. *)
Lemma file_after_again (path text text1 : string) :
  cue_stays path text ->
  file_after path text = Ok text1 -> file_after path text1 = Ok text1.
Proof.
  intros Hcue Hrun. specialize (Hcue text1 Hrun).
  unfold file_after in Hrun.
  destruct (process_file_spec path text) as [ch [E Hlow]].
  rewrite E in Hrun. cbn [bind fst snd] in Hrun. destruct ch.
  - injection Hrun as Hrun. rewrite reconcile_from_top in Hrun.
    destruct (second_scan path text) as [Hagain Hcat].
    { rewrite Hrun. intros x d ct Hx Hd. apply same_block_holds.
      destruct d as [m | m | m]; try exact I.
      destruct Hcue as [Hcue | Hcue]; [now left | right].
      rewrite Forall_forall in Hcue. specialize (Hcue x Hx).
      unfold is_converter_method in Hcue. now rewrite Hd in Hcue. }
    rewrite Hrun in Hagain, Hcat.
    destruct (process_file_spec path text1) as [ch2 [E2 _]].
    unfold file_after. rewrite E2, Hagain. cbn [bind fst snd].
    rewrite Hcat. now destruct ch2.
  - injection Hrun as <-. unfold file_after. rewrite E. reflexivity.
Qed.

(** A file that one step has processed is left as it is by the next. *)
Lemma process_file_in_again (pf : platform) (fs1 : files) p f d flag buffer :
  read_fault f = None -> content f = Some d ->
  process_file p (universal_newlines d) = Ok (flag, buffer) ->
  (flag = true -> write_fault f = None) ->
  cue_stays p (universal_newlines d) ->
  dict_get p fs1 = Some (if flag then written pf f (Str.cat buffer) else f) ->
  exists flag2, process_file_in pf fs1 p = Finished (flag2, fs1).
Proof.
  intros Hr Hc E Hw Hcue Hp. destruct flag.
  - specialize (Hw eq_refl).
    assert (Hno : no_cr (Str.cat buffer) = true)
      by (eapply process_file_no_cr; [apply universal_newlines_no_cr | exact E]).
    destruct (process_file_in_read pf fs1 p _ (os_newlines pf (Str.cat buffer)) Hp)
      as (flag2 & buffer2 & E2 & Ein); [exact Hr | reflexivity |].
    rewrite (read_back pf _ Hno) in E2.
    exists flag2. rewrite Ein. destruct flag2; [| reflexivity].
    cbn [written write_fault read_fault content]. rewrite Hw. do 2 f_equal.
    apply store_same. rewrite Hp. f_equal. unfold written.
    cbn [read_fault write_fault content].
    assert (Ea : file_after p (universal_newlines d) = Ok (Str.cat buffer))
      by (unfold file_after; rewrite E; reflexivity).
    pose proof (file_after_again _ _ _ Hcue Ea) as Eb.
    unfold file_after in Eb. rewrite E2 in Eb. cbn [bind fst snd] in Eb.
    injection Eb as ->. reflexivity.
  - destruct (process_file_in_read pf fs1 p f d Hp Hr Hc)
      as (flag2 & buffer2 & E2 & Ein).
    rewrite E in E2. injection E2 as <- <-. exists false. exact Ein.
Qed.

Lemma main_unfold (pf : platform) (found : list string) (fs : files) :
  main pf found fs =
  match main_loop pf (kept found) fs 0 0 with
  | Finished (fs', total, changed) => Finished (fs', report total changed)
  | Raised e q => Raised e q
  | ScanFailed f => ScanFailed f
  end.
Proof. reflexivity. Qed.

Lemma main_finished (pf : platform) (found : list string) (fs fs' : files) out :
  main pf found fs = Finished (fs', out) ->
  exists total changed,
    main_loop pf (kept found) fs 0 0 = Finished (fs', total, changed).
Proof.
  rewrite main_unfold.
  destruct (main_loop pf (kept found) fs 0 0) as [[[f t] c] | |];
    [| discriminate..].
  intros [= <- _]. eauto.
Qed.

Lemma read_text_of (fs : files) p f c :
  dict_get p fs = Some f -> read_fault f = None -> content f = Some c ->
  read_text fs p = Finished (universal_newlines c).
Proof. intros Hp Hr Hc. unfold read_text. now rewrite Hp, Hr, Hc. Qed.

(** X14: when every file found and not skipped is there, holds UTF-8 and
    can be opened for reading and for writing, [main] returns and prints
    the number of those files and a number of changed files that is no
    larger. *)
Theorem main_counts_the_files_not_skipped
    (pf : platform) (found : list string) (fs : files) :
  (forall p, In p found -> is_skipped p = false -> sound_file fs p) ->
  exists fs' changed,
    main pf found fs
    = Finished (fs', report (List.length (kept found)) changed) /\
    changed <= List.length (kept found).
Proof.
  intros Hall. rewrite main_unfold.
  destruct (main_loop_returns pf (kept found) fs 0 0) as (fs' & changed & E & Hc).
  { intros p Hin. apply filter_In in Hin. destruct Hin as [Hin Hk].
    apply Hall; [exact Hin | now apply negb_true_iff in Hk]. }
  rewrite E. exists fs', changed. split; [reflexivity | lia].
Qed.

Lemma main_counts_the_files_not_skipped_witness :
  exists fs' changed,
    main Windows ["src/Widget.cs"; "src/Form1.Designer.cs"; "obj/App.g.cs"]
      [("src/Widget.cs", plain_file widget_file)]
    = Finished (fs', report 1 changed) /\ changed <= 1.
Proof.
  apply (main_counts_the_files_not_skipped Windows
           ["src/Widget.cs"; "src/Form1.Designer.cs"; "obj/App.g.cs"]
           [("src/Widget.cs", plain_file widget_file)]).
  intros p Hin Hs. destruct Hin as [<- | [<- | [<- | []]]];
    [| vm_compute in Hs; discriminate..].
  exists (plain_file widget_file), widget_file. now repeat split.
Defined.

(** X15: [main] leaves every file that it did not find, and every file
    whose lower-cased path ends in one of the skipped suffixes, as it
    is. *)
Theorem main_leaves_skipped_and_other_files
    (pf : platform) (found : list string) (fs fs' : files) (out : string) :
  main pf found fs = Finished (fs', out) ->
  forall q, ~ In q found \/ is_skipped q = true ->
            dict_get q fs' = dict_get q fs.
Proof.
  intros H q Hq. destruct (main_finished _ _ _ _ _ H) as (t & c & E).
  apply (main_loop_frame _ _ _ _ _ _ _ _ E). intros Hin.
  apply filter_In in Hin. destruct Hin as [Hin Hk].
  destruct Hq as [Hq | Hq]; [now apply Hq |].
  rewrite Hq in Hk. discriminate.
Qed.

Lemma main_leaves_skipped_and_other_files_witness :
  exists fs' out,
    main Posix ["Widget.cs"; "Widget.Designer.cs"]
      [("Widget.cs", plain_file widget_file);
       ("Widget.Designer.cs", plain_file widget_file)]
    = Finished (fs', out) /\
    dict_get "Widget.cs" fs' <> Some (plain_file widget_file) /\
    forall q, ~ In q ["Widget.cs"; "Widget.Designer.cs"] \/ is_skipped q = true ->
      dict_get q fs'
      = dict_get q [("Widget.cs", plain_file widget_file);
                    ("Widget.Designer.cs", plain_file widget_file)].
Proof.
  destruct (main Posix ["Widget.cs"; "Widget.Designer.cs"]
              [("Widget.cs", plain_file widget_file);
               ("Widget.Designer.cs", plain_file widget_file)])
    as [[fs' out] | |] eqn:E; try (vm_compute in E; discriminate).
  exists fs', out. split; [reflexivity |]. split.
  - vm_compute in E. injection E as <- _. discriminate.
  - exact (main_leaves_skipped_and_other_files _ _ _ _ _ E).
Defined.

(** X16: when no path is found twice, every file that [main] processes is
    read as it was before the run; it is left as it is when [process_file]
    returns no flag, and else holds the final buffer, put end to end and
    written with the line endings of the platform.  Reading it afterwards
    gives what [process_file] makes of the text read before. *)
Theorem main_processes_each_file_on_its_own
    (pf : platform) (found : list string) (fs fs' : files) (out : string) :
  NoDup found ->
  main pf found fs = Finished (fs', out) ->
  forall p, In p found -> is_skipped p = false ->
    exists f text flag buffer text',
      dict_get p fs = Some f /\
      read_text fs p = Finished text /\
      process_file p text = Ok (flag, buffer) /\
      dict_get p fs'
      = Some (if flag then written pf f (Str.cat buffer) else f) /\
      file_after p text = Ok text' /\
      read_text fs' p = Finished text'.
Proof.
  intros Hnd H p Hin Hs. destruct (main_finished _ _ _ _ _ H) as (t & c & E).
  assert (Hk : In p (kept found))
    by (apply filter_In; split; [exact Hin | now rewrite Hs]).
  destruct (main_loop_content pf (kept found) (NoDup_filter _ Hnd)
              _ _ _ _ _ _ E p Hk)
    as (f & d & flag & buffer & Hp & Hr & Hc & Ep & Hw & Hp').
  exists f, (universal_newlines d), flag, buffer,
    (if flag then Str.cat buffer else universal_newlines d).
  split; [exact Hp |]. split; [now apply read_text_of with (f := f) |].
  split; [exact Ep |]. split; [exact Hp' |].
  split; [unfold file_after; now rewrite Ep |].
  destruct flag.
  - rewrite (read_text_of fs' p _ (os_newlines pf (Str.cat buffer)) Hp')
      by (try reflexivity; exact Hr).
    f_equal. apply read_back.
    eapply process_file_no_cr; [apply universal_newlines_no_cr | exact Ep].
  - now apply read_text_of with (f := f).
Qed.

Lemma main_processes_each_file_on_its_own_witness :
  exists fs' out,
    main Windows ["a/Widget.cs"; "b/Widget.cs"]
      [("a/Widget.cs", plain_file widget_file);
       ("b/Widget.cs", plain_file get_user_count_file)]
    = Finished (fs', out) /\
    forall p, In p ["a/Widget.cs"; "b/Widget.cs"] -> is_skipped p = false ->
      exists f text flag buffer text',
        dict_get p [("a/Widget.cs", plain_file widget_file);
                    ("b/Widget.cs", plain_file get_user_count_file)] = Some f /\
        read_text [("a/Widget.cs", plain_file widget_file);
                   ("b/Widget.cs", plain_file get_user_count_file)] p
        = Finished text /\
        process_file p text = Ok (flag, buffer) /\
        dict_get p fs'
        = Some (if flag then written Windows f (Str.cat buffer) else f) /\
        file_after p text = Ok text' /\
        read_text fs' p = Finished text'.
Proof.
  destruct (main Windows ["a/Widget.cs"; "b/Widget.cs"]
              [("a/Widget.cs", plain_file widget_file);
               ("b/Widget.cs", plain_file get_user_count_file)])
    as [[fs' out] | |] eqn:E; try (vm_compute in E; discriminate).
  exists fs', out. split; [reflexivity |].
  assert (Hnd : NoDup ["a/Widget.cs"; "b/Widget.cs"])
    by (repeat constructor; simpl; intuition discriminate).
  exact (main_processes_each_file_on_its_own Windows
           ["a/Widget.cs"; "b/Widget.cs"]
           [("a/Widget.cs", plain_file widget_file);
            ("b/Widget.cs", plain_file get_user_count_file)]
           fs' out Hnd E).
Defined.

(** X17: when no path is found twice and the converter cue of every
    processed file stays, a second run of [main] leaves the file system
    exactly as the first run left it. *)
Theorem main_twice_leaves_the_files_of_the_first_run
    (pf : platform) (found : list string) (fs fs1 : files) (out1 : string) :
  NoDup found ->
  (forall p text, In p found -> is_skipped p = false ->
                  read_text fs p = Finished text -> cue_stays p text) ->
  main pf found fs = Finished (fs1, out1) ->
  exists out2, main pf found fs1 = Finished (fs1, out2).
Proof.
  intros Hnd Hcue H. destruct (main_finished _ _ _ _ _ H) as (t & c & E).
  rewrite main_unfold.
  destruct (main_loop_settled pf (kept found) fs1) with (total := 0) (changed := 0)
    as (c2 & E2).
  { intros p Hk. pose proof Hk as Hk'. apply filter_In in Hk'.
    destruct Hk' as [Hin Hs]. apply negb_true_iff in Hs.
    destruct (main_loop_content pf (kept found) (NoDup_filter _ Hnd)
                _ _ _ _ _ _ E p Hk)
      as (f & d & flag & buffer & Hp & Hr & Hc & Ep & Hw & Hp').
    apply (process_file_in_again pf fs1 p f d flag buffer); try assumption.
    apply (Hcue p _ Hin Hs). now apply read_text_of with (f := f). }
  rewrite E2. eauto.
Qed.

Lemma main_twice_leaves_the_files_of_the_first_run_witness :
  exists fs1 out1 out2,
    main Windows ["Converters/BoolConverter.cs"]
      [("Converters/BoolConverter.cs", plain_file converter_file)]
    = Finished (fs1, out1) /\
    fs1 <> [("Converters/BoolConverter.cs", plain_file converter_file)] /\
    main Windows ["Converters/BoolConverter.cs"] fs1 = Finished (fs1, out2).
Proof.
  destruct (main Windows ["Converters/BoolConverter.cs"]
              [("Converters/BoolConverter.cs", plain_file converter_file)])
    as [[fs1 out1] | |] eqn:E; try (vm_compute in E; discriminate).
  assert (Hn : fs1 <> [("Converters/BoolConverter.cs", plain_file converter_file)]).
  { vm_compute in E. injection E as <- _. discriminate. }
  destruct (main_twice_leaves_the_files_of_the_first_run Windows
              ["Converters/BoolConverter.cs"]
              [("Converters/BoolConverter.cs", plain_file converter_file)]
              fs1 out1)
    as [out2 E2].
  - repeat constructor. simpl. tauto.
  - intros p text [<- | []] _ Hp. vm_compute in Hp. injection Hp as <-.
    intros text1 Ht. left. vm_compute in Ht. injection Ht as <-. reflexivity.
  - exact E.
  - exists fs1, out1, out2. now repeat split.
Defined.

Lemma main_loop_outcome (pf : platform) (cs : list string) :
  forall fs total changed,
    (exists r, main_loop pf cs fs total changed = Finished r) \/
    (exists e q, main_loop pf cs fs total changed = Raised e q /\
                 In q cs /\ stops_at fs e q).
Proof.
  induction cs as [| p cs IH]; intros fs total changed; cbn [main_loop].
  - left. eauto.
  - destruct (process_file_in pf fs p) as [[flag fs1] | e q | b] eqn:E.
    + destruct (IH fs1 (S total) (if flag then S changed else changed))
        as [[r Er] | (e & q & Eq & Hin & Hq)].
      * left. eauto.
      * right. exists e, q. split; [exact Eq |]. split; [now right |].
        exact (process_file_in_faults _ _ _ _ _ E e q Hq).
    + destruct (process_file_in_raised _ _ _ _ _ E) as [-> Hs].
      right. exists e, p. split; [reflexivity |]. split; [now left | exact Hs].
    + exfalso. exact (process_file_in_scans _ _ _ _ E).
Qed.

(** X20: [main] either returns, or stops with the exception of a file
    access at a path that it found and does not skip: no file is there
    ([FileNotFoundError]), opening the file for reading raises, its bytes
    are no UTF-8 ([UnicodeDecodeError]), or opening it for writing raises.
    The scan of [process_file] itself never makes it fail. *)
Theorem main_returns_or_stops_at_a_file
    (pf : platform) (found : list string) (fs : files) :
  (exists fs' out, main pf found fs = Finished (fs', out)) \/
  (exists e q, main pf found fs = Raised e q /\
               In q found /\ is_skipped q = false /\ stops_at fs e q).
Proof.
  rewrite main_unfold.
  destruct (main_loop_outcome pf (kept found) fs 0 0)
    as [[[[fs' t] c] E] | (e & q & E & Hin & Hq)]; rewrite E.
  - left. eauto.
  - right. exists e, q. apply filter_In in Hin. destruct Hin as [Hin Hs].
    apply negb_true_iff in Hs. now repeat split.
Qed.
